(** * skutil feature selection: a shallow embedding

    The development follows three source files of the repository:

    - [skutil/feature_selection/combos.py]: [_enum_lc] and
      [LinearCombinationFilterer.fit_transform];
    - [skutil/feature_selection/select.py]: [_validate_cols], [_MCFTuple],
      [filter_collinearity] and [MulticollinearityFilterer.fit];
    - [skutil/h2o/one_way_fs.py]: [_clean_nans] and
      [H2OFScorePercentileSelector._select_features].

    Numbers are IEEE-754 binary64 values (Rocq's primitive floats), so the
    comparisons of the source ([<], [>], [==], [!=], [isnull]) are the
    machine comparisons, NaN included.  Python exceptions are an explicit
    outcome; the [while] loop of [filter_collinearity] and the one of
    [fit_transform] take fuel, and running out of it is a third outcome.

    Beyond these, the development covers what the collinearity resolver
    leaves behind (no pair at or above the threshold, idempotence, the
    bookkeeping of the drops and of the records),
    [MulticollinearityFilterer.fit] and
    [LinearCombinationFilterer.fit_transform] as a whole, the percentile
    selection between its extremes, and the other selectors of
    [select.py]: [SparseFeatureDropper.fit], [FeatureRetainer.fit] and
    [transform], [_near_zero_variance_ratio] and
    [NearZeroVarianceFilterer.fit].
 *)

From Stdlib Require Import Floats ZArith.
From stdpp Require Import base list strings gmap sorting.

Set Warnings "-inexact-float,-register-all".

(* ===================================================================== *)
(** ** Outcomes of a Python call *)
(* ===================================================================== *)

Inductive exn : Set := ValueError | IndexError | KeyError | TypeError.

Inductive outcome (A : Type) : Type :=
  | Ok (a : A)
  | Raise (e : exn)
  | OutOfFuel.
Arguments Ok {A} a.
Arguments Raise {A} e.
Arguments OutOfFuel {A}.

#[global] Instance outcome_ret : MRet outcome := fun A a => Ok a.
#[global] Instance outcome_bind : MBind outcome := fun A B f m =>
  match m with
  | Ok a => f a
  | Raise e => Raise e
  | OutOfFuel => OutOfFuel
  end.

(** [l[i]] on a Python list or a 1-d array, [i >= 0]. *)
Definition getitem {A} (l : list A) (i : nat) : outcome A :=
  match l !! i with
  | Some a => Ok a
  | None => Raise IndexError
  end.

(** [l[-1]]. *)
Definition getlast {A} (l : list A) : outcome A :=
  match last l with
  | Some a => Ok a
  | None => Raise IndexError
  end.

(* ===================================================================== *)
(** ** numpy on binary64 values *)
(* ===================================================================== *)

Module Np.
Local Open Scope float_scope.

(** [pd.isnull] / [np.isnan] on a float. *)
Definition isnull (v : float) : bool := is_nan v.

(** [a > b]. *)
Definition gtb (a b : float) : bool := b <? a.

(** [a != b] (true when either side is NaN). *)
Definition neb (a b : float) : bool := negb (a =? b).

(** [np.maximum(a, b)]: [a] when [a >= b] or [a] is NaN, else [b]. *)
Definition maximum (a b : float) : float :=
  if (b <=? a) || is_nan a then a else b.

Definition of_nat (n : nat) : float :=
  of_uint63 (Uint63.of_Z (Z.of_nat n)).

(** The entries of [l] added to [acc] one by one, left to right. *)
Definition sum_from (acc : float) (l : list float) : float :=
  fold_left (fun a v => a + v) l acc.

(** The eight accumulators of numpy's unrolled summation. *)
Record accumulators : Type := mk_acc {
  r0 : float; r1 : float; r2 : float; r3 : float;
  r4 : float; r5 : float; r6 : float; r7 : float
}.

(** [for (i = 8; i < n - (n % 8); i += 8) r[j] += a[i + j]]: every full
    block of eight entries goes to the accumulators; what is left of the
    array, fewer than eight entries, is returned with them. *)
Fixpoint accumulate (r : accumulators) (l : list float) : accumulators * list float :=
  match l with
  | a0 :: a1 :: a2 :: a3 :: a4 :: a5 :: a6 :: a7 :: l' =>
      accumulate (mk_acc (r0 r + a0) (r1 r + a1) (r2 r + a2) (r3 r + a3)
                         (r4 r + a4) (r5 r + a5) (r6 r + a6) (r7 r + a7)) l'
  | _ => (r, l)
  end.

(** numpy's [pairwise_sum] on up to 128 entries: fewer than eight are
    added to [0.] left to right; otherwise the first eight start the
    accumulators, the full blocks are added to them, the accumulators are
    added two by two, and the entries after the last full block are added
    one by one. *)
Definition block_sum (l : list float) : float :=
  match l with
  | a0 :: a1 :: a2 :: a3 :: a4 :: a5 :: a6 :: a7 :: l' =>
      let (r, rest) := accumulate (mk_acc a0 a1 a2 a3 a4 a5 a6 a7) l' in
      sum_from (((r0 r + r1 r) + (r2 r + r3 r)) + ((r4 r + r5 r) + (r6 r + r7 r))) rest
  | _ => sum_from 0 l
  end.

(** numpy's [pairwise_sum]: more than 128 entries are split in two, the
    first part of [n / 2] entries rounded down to a multiple of eight, and
    the sums of the parts are added.  [depth] bounds the splits; the
    length of the array is enough. *)
Fixpoint pairwise_sum (depth : nat) (l : list float) : float :=
  match depth with
  | O => block_sum l
  | S depth' =>
      if (length l <=? 128)%nat then block_sum l
      else
        let n2 := (length l / 2)%nat in
        let n2 := (n2 - n2 mod 8)%nat in
        pairwise_sum depth' (take n2 l) + pairwise_sum depth' (drop n2 l)
  end.

(** [np.sum] of a 1-d array of floats: [add.reduce] starts from the
    identity [0.] and adds the pairwise sum of the entries. *)
Definition sum (l : list float) : float := 0 + pairwise_sum (length l) l.

(** [np.nanmean]: NaN entries are replaced by 0 for the sum and left out
    of the count; the sum is divided by the count, which is [0/0 = NaN]
    when every entry is NaN. *)
Definition nanmean (l : list float) : float :=
  sum (map (fun v => if is_nan v then 0 else v) l)
  / of_nat (length (filter (fun v => is_nan v = false) l)).

(** The tolerance literal of [_enum_lc]. *)
Definition tol : float := 1e-6.

(** One entry of [b[np.abs(b) < 1e-6] = 0]. *)
Definition zap (v : float) : float := if abs v <? tol then 0 else v.

(** A 2-d array, kept by columns, with its number of rows. *)
Record ndarray : Type := mk_ndarray {
  shape0 : nat;
  coldata : list (list float)
}.
Definition shape1 (a : ndarray) : nat := length (coldata a).

(** [a[:r, :c]] and [a[:r, c:]]. *)
Definition slice_upto (a : ndarray) (r c : nat) : ndarray :=
  {| shape0 := shape0 a `min` r; coldata := take c (map (take r) (coldata a)) |}.
Definition slice_from (a : ndarray) (r c : nat) : ndarray :=
  {| shape0 := shape0 a `min` r; coldata := drop c (map (take r) (coldata a)) |}.

(** [a[:, i]]. *)
Definition column (a : ndarray) (i : nat) : outcome (list float) :=
  getitem (coldata a) i.

Definition map_entries (f : float -> float) (a : ndarray) : ndarray :=
  {| shape0 := shape0 a; coldata := map (map f) (coldata a) |}.

(** Positions [k, k+1, ...] of [l] that are not in [bad]. *)
Fixpoint delete_from {A} (k : nat) (bad : gset nat) (l : list A) : list A :=
  match l with
  | [] => []
  | a :: l' =>
      if decide (k ∈ bad) then delete_from (S k) bad l'
      else a :: delete_from (S k) bad l'
  end.

(** [np.delete(l, bad)] on a 1-d array. *)
Definition delete {A} (l : list A) (bad : gset nat) : list A :=
  delete_from 0 bad l.

(** [np.delete(a, bad, axis=1)]. *)
Definition delete_columns (a : ndarray) (bad : gset nat) : ndarray :=
  {| shape0 := shape0 a; coldata := delete (coldata a) bad |}.

(** [arr[idx]] with an integer index array. *)
Definition take_idx {A} (l : list A) (idx : list nat) : outcome (list A) :=
  mapM (getitem l) idx.

(** [row_idcs[mask]]: the positions where the mask holds. *)
Fixpoint where_from (k : nat) (mask : list bool) : list nat :=
  match mask with
  | [] => []
  | m :: mask' => if m then k :: where_from (S k) mask' else where_from (S k) mask'
  end.
Definition where_true (mask : list bool) : list nat := where_from 0 mask.

(** Insertion sort, ascending, as numpy's quicksort runs it on arrays of up
    to 16 entries: an entry moves left past the entries strictly greater,
    so equal values keep their order.  (On longer arrays numpy may order
    equal values otherwise; the statements below use the sort only as a
    rearrangement of the entries into ascending order, which every sort
    of numpy is.) *)
Fixpoint insert_sorted {A} (x : A * float) (l : list (A * float)) : list (A * float) :=
  match l with
  | [] => [x]
  | y :: l' => if snd x <? snd y then x :: y :: l' else y :: insert_sorted x l'
  end.
Definition argsort {A} (l : list (A * float)) : list (A * float) :=
  fold_left (fun acc x => insert_sorted x acc) l [].
End Np.

(* ===================================================================== *)
(** ** pandas frames and series *)
(* ===================================================================== *)

Module Pd.
Local Open Scope float_scope.

(** A [Series] of floats: index label and value, in order. *)
Abbreviation Series := (list (string * float)).

(** A [DataFrame] of floats: the row labels, and the labelled columns
    left to right, each holding one value per row label. *)
Record DataFrame : Type := mk_frame {
  index : list string;
  coldata : list (string * list float)
}.

Definition columns (df : DataFrame) : list string := map fst (coldata df).
Definition shape (df : DataFrame) : nat * nat :=
  (length (index df), length (coldata df)).

(** [df[nm]].  A missing label raises KeyError.  A label carried by several
    columns selects a frame in pandas, on which the Series calls of the
    source fail; that case is given TypeError. *)
Definition getcol (df : DataFrame) (nm : string) : outcome Series :=
  match filter (fun c => fst c = nm) (coldata df) with
  | [] => Raise KeyError
  | [c] => Ok (zip (index df) (snd c))
  | _ => Raise TypeError
  end.

(** [s.drop(nm)]: a new series without the entries labelled [nm];
    KeyError when there is none. *)
Definition series_drop (s : Series) (nm : string) : outcome Series :=
  if decide (nm ∈ map fst s)
  then Ok (filter (fun e => fst e ≠ nm) s)
  else Raise KeyError.

(** [s.sort_values(na_position='first')]: the NaN entries in their order,
    then the others ascending. *)
Definition sort_values_na_first (s : Series) : Series :=
  filter (fun e => Np.isnull (snd e) = true) s
  ++ Np.argsort (filter (fun e => Np.isnull (snd e) = false) s).

(** The entries of [l] whose row label is not [nm]. *)
Fixpoint drop_labelled {A} (nm : string) (labels : list string) (l : list A) : list A :=
  match labels, l with
  | lb :: labels', a :: l' =>
      if decide (lb = nm) then drop_labelled nm labels' l'
      else a :: drop_labelled nm labels' l'
  | _, _ => []
  end.

(** [df.drop(nm, axis=1)]. *)
Definition drop_column (df : DataFrame) (nm : string) : outcome DataFrame :=
  if decide (nm ∈ columns df)
  then Ok {| index := index df;
             coldata := filter (fun c => fst c ≠ nm) (coldata df) |}
  else Raise KeyError.

(** [df.drop(nm, axis=0)]. *)
Definition drop_row (df : DataFrame) (nm : string) : outcome DataFrame :=
  if decide (nm ∈ index df)
  then Ok {| index := filter (fun lb => lb ≠ nm) (index df);
             coldata := map (fun c => (fst c, drop_labelled nm (index df) (snd c)))
                            (coldata df) |}
  else Raise KeyError.

(** [df.drop(names, axis=1)] with a list of labels. *)
Definition drop_columns (df : DataFrame) (names : list string) : outcome DataFrame :=
  if decide (Forall (fun nm => nm ∈ columns df) names)
  then Ok {| index := index df;
             coldata := filter (fun c => fst c ∉ names) (coldata df) |}
  else Raise KeyError.

(** [df[cols]] with a list of labels: for each label asked, in the order
    asked, every column of the frame that carries it; KeyError when the
    frame has none. *)
Definition select (df : DataFrame) (cols : list string) : outcome DataFrame :=
  cs ← mapM (fun nm => match filter (fun c => fst c = nm) (coldata df) with
                       | [] => Raise KeyError
                       | c :: cs' => Ok (c :: cs')
                       end) cols;
  Ok {| index := index df; coldata := concat cs |}.

(** [df.as_matrix()]. *)
Definition as_matrix (df : DataFrame) : Np.ndarray :=
  {| Np.shape0 := length (index df); Np.coldata := map snd (coldata df) |}.

(** [df.apply(lambda x: np.abs(x))]. *)
Definition apply_abs (df : DataFrame) : DataFrame :=
  {| index := index df;
     coldata := map (fun c => (fst c, map abs (snd c))) (coldata df) |}.
End Pd.

(* ===================================================================== *)
(** ** A call that mutates one frame in place *)
(* ===================================================================== *)

(** [filter_collinearity] drops rows and columns of its argument with
    [inplace=True]: the frame object of the caller is the state, and it
    keeps what was done to it when the call raises. *)
Definition InPlace (A : Type) : Type := Pd.DataFrame -> outcome A * Pd.DataFrame.

#[global] Instance inplace_ret : MRet InPlace := fun A a c => (Ok a, c).
#[global] Instance inplace_bind : MBind InPlace := fun A B f m c =>
  match m c with
  | (Ok a, c') => f a c'
  | (Raise e, c') => (Raise e, c')
  | (OutOfFuel, c') => (OutOfFuel, c')
  end.

Module InPlaceOps.
(** Read the frame. *)
Definition get : InPlace Pd.DataFrame := fun c => (Ok c, c).
(** A call that does not touch the frame. *)
Definition pure {A} (o : outcome A) : InPlace A := fun c => (o, c).
(** [c.drop(..., inplace=True)]: on success the frame is replaced. *)
Definition update (f : Pd.DataFrame -> outcome Pd.DataFrame) : InPlace unit :=
  fun c => match f c with
           | Ok c' => (Ok tt, c')
           | Raise e => (Raise e, c)
           | OutOfFuel => (OutOfFuel, c)
           end.
Definition out_of_fuel {A} : InPlace A := fun c => (OutOfFuel, c).
End InPlaceOps.

(* ===================================================================== *)
(** ** select.py *)
(* ===================================================================== *)

Module Select.
Import InPlaceOps.
Local Open Scope float_scope.

(** [_validate_cols(cols)]. *)
Definition _validate_cols (cols : option (list string)) : outcome unit :=
  match cols with
  | Some cs => if (length cs <? 2)%nat then Raise ValueError else Ok tt
  | None => Ok tt
  end.

(** The named tuple [_MCFTuple]. *)
Record _MCFTuple : Type := mk_MCFTuple {
  feature_x : string;
  feature_y : string;
  abs_corr : float;
  mac : float
}.

(** The local variables of [filter_collinearity]. *)
Record locals : Type := mk_locals {
  finished : bool;
  drops : list string;
  macor : list float;
  corrz : list _MCFTuple
}.

Inductive flow : Set := Continue | Break.

(** The skip test of the scan:
    [pd.isnull(max_cor) or max_cor < threshold or this_col.shape[0] == 1]. *)
Definition skips (max_cor threshold : float) (n : nat) : bool :=
  Np.isnull max_cor || (max_cor <? threshold) || (n =? 1)%nat.

(** The drop decision on the two mean absolute correlations. *)
Definition choose_drop (nm other_col_nm : string) (mn_1 mn_2 : float) : string :=
  if Np.isnull mn_1 then other_col_nm
  else if Np.isnull mn_2 then nm
  else if Np.gtb mn_1 mn_2 then nm else other_col_nm.

(** The body of [for i, nm in enumerate(c.columns)]. *)
Definition for_body (threshold : float) (i : nat) (nm : string) (l : locals)
  : InPlace (flow * locals) :=
  c ← get;
  col ← pure (Pd.getcol c nm);
  col ← pure (Pd.series_drop col nm);
  let sorted := Pd.sort_values_na_first col in
  let this_col_nms := map fst sorted in
  let this_col := map snd sorted in
  max_cor ← pure (getlast this_col);
  if skips max_cor threshold (length this_col) then
    mret (Continue,
          if (Z.of_nat i =? Z.of_nat (length (Pd.columns c)) - 1)%Z
          then mk_locals true (drops l) (macor l) (corrz l)
          else l)
  else
    other_col_nm ← pure (getlast this_col_nms);
    col2 ← pure (Pd.getcol c other_col_nm);
    that_col ← pure (Pd.series_drop col2 other_col_nm);
    let mn_1 := Np.nanmean this_col in
    let mn_2 := Np.nanmean (map snd that_col) in
    let drop_nm := choose_drop nm other_col_nm mn_1 mn_2 in
    update (fun c => Pd.drop_column c drop_nm);;
    update (fun c => Pd.drop_row c drop_nm);;
    let drops' := drops l ++ [drop_nm] in
    let macor' := macor l ++ [Np.maximum mn_1 mn_2] in
    m ← pure (getlast macor');
    let corrz' := corrz l ++
      [ {| feature_x := drop_nm;
           feature_y := if negb (bool_decide (nm = drop_nm)) then nm else other_col_nm;
           abs_corr := max_cor;
           mac := m |} ] in
    mret (Break, mk_locals (finished l) drops' macor' corrz').

(** The [for] loop over the column labels read when it starts. *)
Fixpoint for_loop (threshold : float) (items : list (nat * string)) (l : locals)
  : InPlace locals :=
  match items with
  | [] => mret l
  | (i, nm) :: rest =>
      r ← for_body threshold i nm l;
      match fst r with
      | Break => mret (snd r)
      | Continue => for_loop threshold rest (snd r)
      end
  end.

(** [enumerate(l, start)]. *)
Fixpoint enumerate_from {A} (start : nat) (l : list A) : list (nat * A) :=
  match l with
  | [] => []
  | a :: l' => (start, a) :: enumerate_from (S start) l'
  end.
Definition enumerate {A} (l : list A) : list (nat * A) := enumerate_from 0 l.

(** [while not finished]. *)
Fixpoint while_loop (fuel : nat) (threshold : float) (l : locals) : InPlace locals :=
  if finished l then mret l
  else match fuel with
       | O => out_of_fuel
       | S fuel' =>
           c ← get;
           l' ← for_loop threshold (enumerate (Pd.columns c)) l;
           while_loop fuel' threshold l'
       end.

(** [filter_collinearity(c, threshold)]; [c] is the state. *)
Definition filter_collinearity (fuel : nat) (threshold : float)
  : InPlace (list string * list float * list _MCFTuple) :=
  c ← get;
  if negb (fst (Pd.shape c) =? snd (Pd.shape c))%nat then pure (Raise ValueError)
  else
    l ← while_loop fuel threshold (mk_locals false [] [] []);
    mret (drops l, macor l, corrz l).
End Select.

(* ===================================================================== *)
(** ** Collaborators that the source imports *)
(* ===================================================================== *)

(** [skutil.utils.validate_is_pd] and [skutil.utils.fixes._cols_if_none],
    as the transformers call them. *)
Class FrameUtils : Type := {
  validate_is_pd :
    Pd.DataFrame -> option (list string) -> bool ->
    outcome (Pd.DataFrame * option (list string));
  _cols_if_none : Pd.DataFrame -> option (list string) -> list string
}.

(** [skutil.odr.QRDecomposition]: the constructor, [get_R], [get_rank],
    the [pivot] attribute and [get_coef], which answers [None] when it has
    no coefficients to give. *)
Class QR : Type := {
  decomposition : Type;
  QRDecomposition : Np.ndarray -> decomposition;
  get_R : decomposition -> Np.ndarray;
  get_rank : decomposition -> nat;
  pivot : decomposition -> list nat;
  get_coef : decomposition -> Np.ndarray -> option Np.ndarray
}.

Module Utils.
(** A nested container of indices, as [_enum_lc] hands one to
    [flatten_all]: an index, or a sequence of containers. *)
Inductive nested : Type :=
  | Item (n : nat)
  | Items (l : list nested).

(** Modelled from the spec: [skutil.utils.flatten_all] is not among the
    sources; a Dependency Record is the dependent column's own index
    plus the indices of the implicated independent columns, so the
    nested container is flattened left to right into one list. *)
Fixpoint flatten_all (c : nested) : list nat :=
  match c with
  | Item n => [n]
  | Items l => (fix go (l : list nested) : list nat :=
                  match l with
                  | [] => []
                  | c' :: l' => flatten_all c' ++ go l'
                  end) l
  end.
End Utils.

(* ===================================================================== *)
(** ** select.py: MulticollinearityFilterer *)
(* ===================================================================== *)

Module Mcf.
Section WithUtils.
Context `{FrameUtils}.

(** pandas' [DataFrame.corr(method=...)]. *)
Variable corr : Pd.DataFrame -> string -> Pd.DataFrame.

Record MulticollinearityFilterer : Type := mk_mcf {
  cols : option (list string);
  threshold : float;
  method : string;
  as_df : bool
}.

(** What [fit] assigns on the instance. *)
Record fitted : Type := mk_fitted {
  cols_ : option (list string);
  drop_ : list string;
  mean_abs_correlations_ : list float;
  correlations_ : list Select._MCFTuple
}.

(** [MulticollinearityFilterer.fit(X)]. *)
Definition fit (fuel : nat) (self : MulticollinearityFilterer) (X : Pd.DataFrame)
  : outcome fitted :=
  v ← validate_is_pd X (cols self) true;
  let X := fst v in
  let self_cols := snd v in
  let cols := _cols_if_none X self_cols in
  Select._validate_cols (Some cols);;
  sub ← Pd.select X cols;
  let c := Pd.apply_abs (corr sub (method self)) in
  r ← fst (Select.filter_collinearity fuel (threshold self) c);
  Ok (mk_fitted self_cols (fst (fst r)) (snd (fst r)) (snd r)).
End WithUtils.
End Mcf.

(* ===================================================================== *)
(** ** combos.py *)
(* ===================================================================== *)

Module Combos.
Section WithQR.
Context `{QR}.

(** The dict [{dim : list of bad idcs}]. *)
Abbreviation lc_dict := (gmap nat (list nat)).

(** One turn of [for i in range(Y.shape[1])]: the list stored at [d[i]]. *)
Definition dependency_record (pv : list nat) (rank : nat) (b : Np.ndarray) (i : nat)
  : outcome (list nat) :=
  own ← getitem pv (rank + i);
  bi ← Np.column b i;
  others ← Np.take_idx pv (Np.where_true (map (fun v => Np.neb v 0) bi));
  Ok (Utils.flatten_all
        (Utils.Items [Utils.Item own; Utils.Items (map Utils.Item others)])).

Fixpoint fill_dict (pv : list nat) (rank : nat) (b : Np.ndarray)
    (range : list nat) (d : lc_dict) : outcome lc_dict :=
  match range with
  | [] => Ok d
  | i :: range' =>
      rec ← dependency_record pv rank b i;
      fill_dict pv rank b range' (<[i := rec]> d)
  end.

(** [_enum_lc(decomp)]. *)
Definition _enum_lc (decomp : decomposition) : outcome (option lc_dict) :=
  let R := get_R decomp in
  let n_features := Np.shape1 R in
  let rank := get_rank decomp in
  if negb (rank =? n_features) then
    let pv := pivot decomp in
    let X := Np.slice_upto R rank rank in
    let Y := Np.slice_from R rank rank in
    let new_qr := QRDecomposition X in
    match get_coef new_qr Y with
    | Some b =>
        let b := Np.map_entries Np.zap b in
        d ← fill_dict pv rank b (seq 0 (Np.shape1 Y)) ∅;
        Ok (Some d)
    | None => Ok None
    end
  else Ok None.

(** [set([v[0] for _, v in six.iteritems(lc_list)])]. *)
Definition first_indices (lc_list : lc_dict) : outcome (gset nat) :=
  firsts ← mapM (fun kv => getitem (snd kv) 0) (map_to_list lc_list);
  Ok (list_to_set firsts).

(** The working state of the loop: [x], [cols] and [drops]. *)
Record work : Type := mk_work {
  x : Np.ndarray;
  names : list string;
  drops : list string
}.

(** The body of the [while] loop up to the new decomposition.  An empty
    [bad] makes [np.array([])] an array of floats, which numpy refuses as
    an index into [cols]. *)
Definition remove_bad (lc_list : lc_dict) (w : work) : outcome work :=
  bad ← first_indices lc_list;
  (if decide (bad = ∅) then Raise IndexError else Ok tt);;
  bad_nms ← Np.take_idx (names w) (elements bad);
  Ok {| x := Np.delete_columns (x w) bad;
        names := Np.delete (names w) bad;
        drops := drops w ++ bad_nms |}.

(** [while lc_list is not None]. *)
Fixpoint while_lc (fuel : nat) (lc_list : option lc_dict) (w : work) : outcome work :=
  match lc_list with
  | None => Ok w
  | Some d =>
      match fuel with
      | O => OutOfFuel
      | S fuel' =>
          w' ← remove_bad d w;
          lc_list' ← _enum_lc (QRDecomposition (x w'));
          while_lc fuel' lc_list' w'
      end
  end.

Context `{FrameUtils}.

Record LinearCombinationFilterer : Type := mk_lcf {
  cols : option (list string);
  as_df : bool
}.

(** [LinearCombinationFilterer.fit_transform(X)]: the [drop_] attribute
    and the returned frame, or its matrix when [as_df] is off. *)
Definition fit_transform (fuel : nat) (self : LinearCombinationFilterer) (X : Pd.DataFrame)
  : outcome (list string * (Pd.DataFrame + Np.ndarray)) :=
  v ← validate_is_pd X (cols self) true;
  let X := fst v in
  let self_cols := snd v in
  Select._validate_cols self_cols;;
  let cols := _cols_if_none X self_cols in
  sub ← Pd.select X cols;
  let w := {| x := Pd.as_matrix sub; names := cols; drops := [] |} in
  lc_list ← _enum_lc (QRDecomposition (x w));
  w ← while_lc fuel lc_list w;
  let drop_ := elements (list_to_set (drops w) : gset string) in
  dropped ← Pd.drop_columns X drop_;
  Ok (drop_, if as_df self then inl dropped else inr (Pd.as_matrix dropped)).
End WithQR.
End Combos.

(* ===================================================================== *)
(** ** one_way_fs.py *)
(* ===================================================================== *)

Module OneWayFs.
Section WithScipy.
Local Open Scope float_scope.

(** [scipy.stats.scoreatpercentile(scores, per)], which raises (ValueError
    when [per] is outside [0, 100]). *)
Variable scoreatpercentile : list float -> Z -> outcome float.

(** [np.finfo(np.float64).min]. *)
Definition finfo_min : float := -0x1.fffffffffffffp+1023.

(** [_clean_nans(scores)]. *)
Definition _clean_nans (scores : list float) : list float :=
  map (fun s => if is_nan s then finfo_min else s) scores.

(** [l[:k]] for a Python integer [k]: a negative [k] counts from the end. *)
Definition slice_to {A} (l : list A) (k : Z) : list A :=
  if (0 <=? k)%Z then take (Z.to_nat k) l
  else take (Z.to_nat (Z.of_nat (length l) + k)) l.

(** [mask[idx] = True]. *)
Definition set_true (mask : list bool) (idx : list nat) : list bool :=
  fold_left (fun m i => <[i := true]> m) idx mask.

(** [np.asarray(names)[mask]] with a boolean mask of the same length. *)
Definition boolean_index {A} (names : list A) (mask : list bool) : outcome (list A) :=
  if (length names =? length mask)%nat
  then Ok (map fst (filter (fun e => snd e = true) (zip names mask)))
  else Raise IndexError.

Record H2OFScorePercentileSelector : Type := mk_percentile_selector {
  percentile : Z
}.

(** [H2OFScorePercentileSelector._select_features].  The integer part of
    [len(all_scores) * percentile / 100] is taken on the exact quotient. *)
Definition _select_features (self : H2OFScorePercentileSelector)
    (all_scores all_pvalues : list float) (feature_names : list string)
  : outcome (list string) :=
  let percentile := percentile self in
  if (percentile =? 100)%Z then Ok []
  else if (percentile =? 0)%Z then Ok feature_names
  else
    let all_scores := _clean_nans all_scores in
    thresh ← scoreatpercentile all_scores (100 - percentile);
    let mask := map (fun s => thresh <? s) all_scores in
    let ties := Np.where_true (map (fun s => s =? thresh) all_scores) in
    let mask :=
      if negb (length ties =? 0)%nat then
        let max_feats := (Z.of_nat (length all_scores) * percentile ÷ 100)%Z in
        let kept_ties :=
          slice_to ties (max_feats - Z.of_nat (length (filter (fun m => m = true) mask))) in
        set_true mask kept_ties
      else mask in
    let mask := map negb mask in
    boolean_index feature_names mask.
End WithScipy.
End OneWayFs.

(* ===================================================================== *)
(** ** Instances and inputs used to run the code *)
(* ===================================================================== *)

Module Examples.
Local Open Scope float_scope.

(** Modelled from the spec: [skutil.utils.fixes._cols_if_none] is not among
    the sources; the transformer works on the prescribed [cols], or on all
    the columns of the frame when [cols] is None. *)
Definition spec_cols_if_none (X : Pd.DataFrame) (cols : option (list string))
  : list string :=
  match cols with
  | None => Pd.columns X
  | Some cs => cs
  end.

(** Modelled from the spec: [skutil.utils.validate_is_pd] is not among the
    sources; the frame-validation utility guarantees that the matrix is
    fully finite and has named columns, fails with a validation error
    otherwise, and hands back a copy of the frame with the columns. *)
Definition spec_validate_is_pd (X : Pd.DataFrame) (cols : option (list string))
    (assert_all_finite : bool) : outcome (Pd.DataFrame * option (list string)) :=
  if assert_all_finite then
    match Pd.select X (spec_cols_if_none X cols) with
    | Ok sub =>
        if forallb (fun c => forallb is_finite (snd c)) (Pd.coldata sub)
        then Ok (X, cols)
        else Raise ValueError
    | _ => Raise ValueError
    end
  else Ok (X, cols).

#[export] Instance spec_utils : FrameUtils := {|
  validate_is_pd := spec_validate_is_pd;
  _cols_if_none := spec_cols_if_none
|}.

(** Modelled from the spec: [skutil.odr.QRDecomposition] is not among the
    sources; the rank is the number of linearly independent columns, the
    pivot orders the independent columns before the dependent ones, and
    the regression yields no result when the independent set is empty.
    This instance follows that on matrices whose non-zero columns are
    orthonormal: the rank is the number of columns with a non-zero entry,
    the pivot lists these columns first and the all-zero columns after
    them, and the triangular factor is the identity block followed by zero
    columns.  With nothing to regress on (rank 0) [get_coef] has no
    coefficients; otherwise, the regressors being the identity, the
    coefficients are the regressed columns themselves. *)
Record zc_decomposition : Type := mk_zc {
  zc_R : Np.ndarray;
  zc_rank : nat;
  zc_pivot : list nat
}.

Definition is_zero_column (col : list float) : bool :=
  forallb (fun v => v =? 0) col.

Definition unit_column (p j : nat) : list float :=
  map (fun i => if (i =? j)%nat then 1 else 0) (seq 0 p).

Definition zc_decompose (x : Np.ndarray) : zc_decomposition :=
  let p := Np.shape1 x in
  let zero := map is_zero_column (Np.coldata x) in
  let rank := length (Np.where_true (map negb zero)) in
  {| zc_R := {| Np.shape0 := p;
                Np.coldata := map (unit_column p) (seq 0 rank)
                              ++ repeat (repeat 0 p) (p - rank) |};
     zc_rank := rank;
     zc_pivot := Np.where_true (map negb zero) ++ Np.where_true zero |}.

Definition zc_get_coef (d : zc_decomposition) (Y : Np.ndarray) : option Np.ndarray :=
  if (zc_rank d =? 0)%nat then None
  else Some {| Np.shape0 := zc_rank d;
               Np.coldata := map (take (zc_rank d)) (Np.coldata Y) |}.

#[export] Instance zc_qr : QR := {|
  decomposition := zc_decomposition;
  QRDecomposition := zc_decompose;
  get_R := zc_R;
  get_rank := zc_rank;
  pivot := zc_pivot;
  get_coef := zc_get_coef
|}.

(** A frame with a single column of zeros. *)
Definition zero_frame : Pd.DataFrame :=
  Pd.mk_frame ["0"; "1"] [("a", [0; 0])].

(** Two unit columns around a column of zeros. *)
Definition unit_zero_frame : Pd.DataFrame :=
  Pd.mk_frame ["0"; "1"] [("a", [1; 0]); ("z", [0; 0]); ("b", [0; 1])].

(** Two unit columns. *)
Definition unit_frame : Pd.DataFrame :=
  Pd.mk_frame ["0"; "1"] [("a", [1; 0]); ("b", [0; 1])].

(** The correlations X-Y = 0.95, Y-Z = 0.90, X-Z = 0.30. *)
Definition xyz_corr : Pd.DataFrame :=
  Pd.mk_frame ["X"; "Y"; "Z"]
    [("X", [1; 0.95; 0.3]); ("Y", [0.95; 1; 0.9]); ("Z", [0.3; 0.9; 1])].

(** A and B correlate at 0.9 and have the same mean absolute correlation. *)
Definition tie_corr : Pd.DataFrame :=
  Pd.mk_frame ["A"; "B"; "C"]
    [("A", [1; 0.9; 0.5]); ("B", [0.9; 1; 0.5]); ("C", [0.5; 0.5; 1])].

(** A frame of three rows and two columns. *)
Definition tall_frame : Pd.DataFrame :=
  Pd.mk_frame ["r0"; "r1"; "r2"] [("A", [1; 0.9; 0.5]); ("B", [0.9; 1; 0.5])].

(** A single-column frame of two finite rows. *)
Definition one_column_frame : Pd.DataFrame :=
  Pd.mk_frame ["0"; "1"] [("a", [1; 2])].
End Examples.

(* ===================================================================== *)
(** ** Vocabulary of the statements *)
(* ===================================================================== *)

Module Corr.
(** A correlation frame as [DataFrame.corr] builds it: the same labels on
    both axes, no label twice, one value per row label in every column. *)
Record well_formed (c : Pd.DataFrame) : Prop := mk_wf {
  wf_labels : Pd.index c = Pd.columns c;
  wf_nodup : NoDup (Pd.columns c);
  wf_rows : Forall (fun col => length (snd col) = length (Pd.index c)) (Pd.coldata c)
}.

(** [c[nm].drop(nm).sort_values(na_position='first')]. *)
Definition this_col_of (c : Pd.DataFrame) (nm : string) : outcome Pd.Series :=
  col ← Pd.getcol c nm;
  col ← Pd.series_drop col nm;
  Ok (Pd.sort_values_na_first col).

(** [c[nm].drop(nm)]. *)
Definition that_col_of (c : Pd.DataFrame) (nm : string) : outcome Pd.Series :=
  col ← Pd.getcol c nm;
  Pd.series_drop col nm.

(** The frame without the row and the column labelled [nm]. *)
Definition without (c : Pd.DataFrame) (nm : string) : Pd.DataFrame :=
  {| Pd.index := filter (fun lb => lb ≠ nm) (Pd.index c);
     Pd.coldata :=
       map (fun col => (fst col, Pd.drop_labelled nm (Pd.index c) (snd col)))
           (filter (fun col => fst col ≠ nm) (Pd.coldata c)) |}.
End Corr.

(** The laws of a rank-revealing decomposition that the resolver relies on,
    as the data model of the decomposition has them: the triangular factor
    has one column per column of the matrix, the rank does not exceed that
    number, the pivot is a permutation of the column indices, and the
    coefficients of a regression come as one column per regressed column,
    with at most one row per regressor. *)
Record QRLaws `{QR} : Prop := mk_qr_laws {
  R_columns : forall x, Np.shape1 (get_R (QRDecomposition x)) = Np.shape1 x;
  rank_le : forall x, get_rank (QRDecomposition x) <= Np.shape1 x;
  pivot_perm : forall x, pivot (QRDecomposition x) ≡ₚ seq 0 (Np.shape1 x);
  coef_shape : forall X Y b,
    get_coef (QRDecomposition X) Y = Some b ->
    Np.shape1 b = Np.shape1 Y /\
    Forall (fun col => length col <= Np.shape1 X) (Np.coldata b)
}.

(** The dict of a pass on [x]: one record per dependent column, keyed from
    0, each starting with the pivoted index of its dependent column. *)
Definition records_of `{QR} (x : Np.ndarray) (lc : gmap nat (list nat)) : Prop :=
  let d := QRDecomposition x in
  let p := Np.shape1 x in
  let rank := get_rank d in
  rank < p /\
  (forall i, i < p - rank ->
     exists own others, pivot d !! (rank + i) = Some own /\ lc !! i = Some (own :: others)) /\
  (forall i, p - rank <= i -> lc !! i = None).

(** The outcome of one turn of the scan of [filter_collinearity], read off
    the body of its [for] loop. *)
Module Scan.
Import Select.

(** What one turn of the scan can return: it skips the column, or it drops
    a column of the frame and breaks out of the scan. *)
Inductive turn (threshold : float) (i : nat) (nm : string) (l : locals) (c : Pd.DataFrame)
  : flow -> locals -> Pd.DataFrame -> Prop :=
  | turn_skip sorted max_cor :
      Corr.this_col_of c nm = Ok sorted ->
      getlast (map snd sorted) = Ok max_cor ->
      skips max_cor threshold (length sorted) = true ->
      turn threshold i nm l c Continue
        (if (Z.of_nat i =? Z.of_nat (length (Pd.columns c)) - 1)%Z
         then mk_locals true (drops l) (macor l) (corrz l) else l) c
  | turn_drop sorted max_cor other_col_nm that_col :
      Corr.this_col_of c nm = Ok sorted ->
      getlast (map snd sorted) = Ok max_cor ->
      skips max_cor threshold (length sorted) = false ->
      getlast (map fst sorted) = Ok other_col_nm ->
      Corr.that_col_of c other_col_nm = Ok that_col ->
      let mn_1 := Np.nanmean (map snd sorted) in
      let mn_2 := Np.nanmean (map snd that_col) in
      let drop_nm := choose_drop nm other_col_nm mn_1 mn_2 in
      drop_nm ∈ Pd.columns c ->
      drop_nm ∈ Pd.index c ->
      turn threshold i nm l c Break
        (mk_locals (finished l) (drops l ++ [drop_nm])
           (macor l ++ [Np.maximum mn_1 mn_2])
           (corrz l ++ [mk_MCFTuple drop_nm
                          (if negb (bool_decide (nm = drop_nm)) then nm else other_col_nm)
                          max_cor (Np.maximum mn_1 mn_2)]))
        (Corr.without c drop_nm).
End Scan.

(** The place of a number on the line: its class (the infinities, the
    negative numbers, zero, the positive numbers), then its exponent and
    its mantissa, both negated below zero.  NaN has no place. *)
Module Order.
Definition place (x : spec_float) : option (Z * Z * Z) :=
  match x with
  | S754_nan => None
  | S754_infinity true => Some (-2, 0, 0)%Z
  | S754_finite true m e => Some (-1, - e, Z.neg m)%Z
  | S754_zero _ => Some (0, 0, 0)%Z
  | S754_finite false m e => Some (1, e, Z.pos m)%Z
  | S754_infinity false => Some (2, 0, 0)%Z
  end.

(** The lexicographic comparison of two places. *)
Definition lex (a b : Z * Z * Z) : comparison :=
  match (fst (fst a) ?= fst (fst b))%Z with
  | Eq => match (snd (fst a) ?= snd (fst b))%Z with
          | Eq => (snd a ?= snd b)%Z
          | c => c
          end
  | c => c
  end.

Definition lex_lt (a b : Z * Z * Z) : Prop :=
  (fst (fst a) < fst (fst b) \/
   (fst (fst a) = fst (fst b) /\
    (snd (fst a) < snd (fst b) \/
     (snd (fst a) = snd (fst b) /\ snd a < snd b))))%Z.

(** The order of the sort on labelled values. *)
Definition le_value {A} (a b : A * float) : Prop := (snd a <=? snd b)%float = true.
End Order.

(** A frame on which the scan of [filter_collinearity] has nothing left to
    do: the turn of every column skips. *)
Module Settled.
Definition skipped (threshold : float) (c : Pd.DataFrame) (nm : string) : Prop :=
  exists sorted max_cor,
    Corr.this_col_of c nm = Ok sorted /\
    getlast (map snd sorted) = Ok max_cor /\
    Select.skips max_cor threshold (length sorted) = true.

Definition settled (threshold : float) (c : Pd.DataFrame) : Prop :=
  Forall (skipped threshold c) (Pd.columns c).
End Settled.

(** More inputs to run the code on. *)
Module Inputs.
Local Open Scope float_scope.

(** Four features: A and B correlate at 0.95, every other pair below 0.5. *)
Definition four_corr : Pd.DataFrame :=
  Pd.mk_frame ["A"; "B"; "C"; "D"]
    [("A", [1; 0.95; 0.2; 0.1]); ("B", [0.95; 1; 0.4; 0.3]);
     ("C", [0.2; 0.4; 1; 0.25]); ("D", [0.1; 0.3; 0.25; 1])].

(** What is left of [four_corr] without B. *)
Definition three_corr : Pd.DataFrame :=
  Pd.mk_frame ["A"; "C"; "D"]
    [("A", [1; 0.2; 0.1]); ("C", [0.2; 1; 0.25]); ("D", [0.1; 0.25; 1])].

(** The correlation frame of a single column. *)
Definition unit_corr : Pd.DataFrame := Pd.mk_frame ["A"] [("A", [1])].
End Inputs.

(** What a detail record of [filter_collinearity] says of the frame [c] it
    was taken on, for the threshold of the call. *)
Module Record.
Definition names_pair (threshold : float) (c : Pd.DataFrame) (t : Select._MCFTuple) : Prop :=
  Select.feature_x t ∈ Pd.columns c /\ Select.feature_y t ∈ Pd.columns c /\
  Select.feature_x t ≠ Select.feature_y t /\
  is_nan (Select.abs_corr t) = false /\
  (Select.abs_corr t <? threshold)%float = false.
End Record.

(* ===================================================================== *)
(** ** select.py: the other selectors *)
(* ===================================================================== *)

(** [SparseFeatureDropper]. *)
Module Sparse.
Section WithUtils.
Context `{FrameUtils}.
Local Open Scope float_scope.

Record SparseFeatureDropper : Type := mk_sfd {
  cols : option (list string);
  threshold : float;
  as_df : bool
}.

(** What [fit] assigns on the instance. *)
Record fitted : Type := mk_fitted {
  cols_ : option (list string);
  sparsity_ : list float;
  drop_ : list string
}.

(** [x.isnull().sum() / x.shape[0]] on one column, in true division. *)
Definition sparsity (x : list float) : float :=
  Np.of_nat (length (filter (fun v => Np.isnull v = true) x)) / Np.of_nat (length x).

(** [SparseFeatureDropper.fit(X)].  The threshold is a float, so
    [is_numeric(thresh)] holds; [validate_is_pd] is called without
    [assert_all_finite], and the flag is passed as off.  The mask has one
    entry per evaluated column and indexes [X.columns] by position. *)
Definition fit (self : SparseFeatureDropper) (X : Pd.DataFrame) : outcome fitted :=
  v ← validate_is_pd X (cols self) false;
  let X := fst v in
  let self_cols := snd v in
  let thresh := threshold self in
  if negb ((0 <=? thresh) && (thresh <? 1)) then Raise ValueError
  else
    let cols := _cols_if_none X self_cols in
    sub ← Pd.select X cols;
    let sparsity_ := map (fun c => sparsity (snd c)) (Pd.coldata sub) in
    let mask := map (fun s => Np.gtb s thresh) sparsity_ in
    drop_ ← OneWayFs.boolean_index (Pd.columns X) mask;
    Ok (mk_fitted self_cols sparsity_ drop_).
End WithUtils.
End Sparse.

(** [FeatureRetainer]. *)
Module Retainer.
Section WithUtils.
Context `{FrameUtils}.

Record FeatureRetainer : Type := mk_retainer {
  cols : option (list string);
  as_df : bool
}.

(** What [fit] assigns on the instance. *)
Record fitted : Type := mk_fitted {
  cols_ : option (list string);
  drop_ : list string
}.

(** [FeatureRetainer.fit(X)]; [validate_is_pd] is called without
    [assert_all_finite], and the flag is passed as off. *)
Definition fit (self : FeatureRetainer) (X : Pd.DataFrame) : outcome fitted :=
  v ← validate_is_pd X (cols self) false;
  let X := fst v in
  let self_cols := snd v in
  let cols := match self_cols with Some cs => cs | None => [] end in
  left_overs ← Pd.drop_columns X cols;
  Ok (mk_fitted self_cols (Pd.columns left_overs)).

(** [FeatureRetainer.transform(X)] on a fitted instance ([check_is_fitted]
    passes: the instance comes from [fit]). *)
Definition transform (self : FeatureRetainer) (f : fitted) (X : Pd.DataFrame)
  : outcome (Pd.DataFrame + Np.ndarray) :=
  v ← validate_is_pd X (cols_ f) false;
  let X := fst v in
  let cols := match cols_ f with None => Pd.columns X | Some cs => cs end in
  retained ← Pd.select X cols;
  Ok (if as_df self then inl retained else inr (Pd.as_matrix retained)).
End WithUtils.
End Retainer.

(** [_near_zero_variance_ratio] and [NearZeroVarianceFilterer]. *)
Module Nzv.
Local Open Scope float_scope.

(** The distinct values of a series, each once, equal values ([==]) being
    one value (so the two zeros are one value, as pandas counts them). *)
Fixpoint distinct (s : list float) : list float :=
  match s with
  | [] => []
  | v :: s' =>
      let d := distinct s' in
      if existsb (fun u => u =? v) d then d else v :: d
  end.

(** How many entries of the series equal [v]. *)
Definition count_value (v : float) (s : list float) : nat :=
  length (filter (fun u => (u =? v) = true) s).

(** The counts of [series.value_counts()]: one count per distinct value
    that is not null. *)
Definition value_counts (series : list float) : list nat :=
  let present := filter (fun v => Np.isnull v = false) series in
  map (fun v => count_value v present) (distinct present).

(** [counts.sort_values(ascending=False)], on the counts. *)
Definition sort_descending (counts : list nat) : list nat :=
  merge_sort (flip le) counts.

(** [_near_zero_variance_ratio(series, ratio)]: [ratio_] and [drop_]. *)
Definition _near_zero_variance_ratio (series : list float) (ratio : float) : float * Z :=
  match sort_descending (value_counts series) with
  | c0 :: c1 :: _ =>
      let ratio_ := Np.of_nat c0 / Np.of_nat c1 in
      (ratio_, if ratio <=? ratio_ then 1%Z else 0%Z)
  | _ => (nan, 1%Z)
  end.

Section WithPandas.
Context `{FrameUtils}.

(** pandas' [Series.var()]. *)
Variable var : list float -> float.

Record NearZeroVarianceFilterer : Type := mk_nzv {
  cols : option (list string);
  threshold : float;
  as_df : bool;
  strategy : string
}.

(** [var_] is a list under the 'variance' strategy and a dict under the
    'ratio' strategy. *)
Inductive variances : Type :=
  | VarList (l : list float)
  | VarDict (d : gmap string float).

(** What [fit] assigns on the instance. *)
Record fitted : Type := mk_fitted {
  cols_ : option (list string);
  drop_ : list string;
  var_ : variances
}.

(** [NearZeroVarianceFilterer.fit(X)].  Under 'ratio' the rows of [matrix]
    are the pairs that [_near_zero_variance_ratio] returns; with no column
    to evaluate [matrix] has one axis and [matrix[:, 1]] raises IndexError.
    [dict(zip(...))] keeps the last value of a key. *)
Definition fit (self : NearZeroVarianceFilterer) (X : Pd.DataFrame) : outcome fitted :=
  v ← validate_is_pd X (cols self) true;
  let X := fst v in
  let self_cols := snd v in
  let cols := _cols_if_none X self_cols in
  if negb (bool_decide (strategy self ∈ ["variance"; "ratio"])) then Raise ValueError
  else if bool_decide (strategy self = "variance") then
    sub ← Pd.select X cols;
    let variances := map (fun c => (fst c, var (snd c))) (Pd.coldata sub) in
    let low := filter (fun e => (snd e <? threshold self) = true) variances in
    Ok (mk_fitted self_cols (map fst low) (VarList (map snd low)))
  else
    let ratio := threshold self in
    if negb (1 <? ratio) then Raise ValueError
    else
      matrix ← mapM (fun col => s ← Pd.getcol X col;
                                Ok (_near_zero_variance_ratio (map snd s) ratio)) cols;
      match matrix with
      | [] => Raise IndexError
      | _ =>
          let drop_mask := map (fun row => negb (snd row =? 0)%Z) matrix in
          drop_ ← OneWayFs.boolean_index cols drop_mask;
          ratios ← OneWayFs.boolean_index (map fst matrix) drop_mask;
          Ok (mk_fitted self_cols drop_
                (VarDict (list_to_map (reverse (zip drop_ ratios)))))
      end.
End WithPandas.
End Nzv.

Module MoreInputs.
Local Open Scope float_scope.

(** Two columns of four rows: [a] is full, [b] misses three values. *)
Definition sparse_frame : Pd.DataFrame :=
  Pd.mk_frame ["0"; "1"; "2"; "3"] [("a", [1; 2; 3; 4]); ("b", [nan; 5; nan; nan])].

(** Three full columns; [c] holds one value only. *)
Definition abc_frame : Pd.DataFrame :=
  Pd.mk_frame ["0"; "1"; "2"; "3"]
    [("a", [1; 4; 6; 8]); ("b", [2; 5; 7; 9]); ("c", [3; 3; 3; 3])].

(** A stand-in for [scipy.stats.scoreatpercentile] in the examples: the
    score 2 at every percentile from 0 to 100, ValueError outside, as
    scipy raises it. *)
Definition score_two (scores : list float) (per : Z) : outcome float :=
  if ((0 <=? per) && (per <=? 100))%Z then Ok 2 else Raise ValueError.
End MoreInputs.

(* ===================================================================== *)
(** ** Comparisons of binary64 values *)
(* ===================================================================== *)

Section FloatOrder.
Local Open Scope float_scope.

Lemma SFcompare_antisym (a b : spec_float) :
  SFcompare b a = option_map CompOpp (SFcompare a b).
Proof.
  destruct a as [sa|sa| |sa ma ea], b as [sb|sb| |sb mb eb]; simpl;
    try reflexivity; try (destruct sa; reflexivity); try (destruct sb; reflexivity);
    try (destruct sa, sb; reflexivity).
  f_equal. destruct sa, sb; try reflexivity;
    rewrite (Z.compare_antisym ea eb);
    destruct (ea ?= eb)%Z; simpl; try reflexivity;
    rewrite (ZC4 mb ma); reflexivity.
Qed.


(** Equal values compare alike with any third value. *)
Lemma SFcompare_Eq_compat (a b t : spec_float) :
  SFcompare a b = Some Eq -> SFcompare a t = SFcompare b t.
Proof.
  destruct a as [sa|sa| |sa ma ea], b as [sb|sb| |sb mb eb]; simpl; try discriminate;
    try reflexivity;
    try (destruct sa, sb; try discriminate; reflexivity).
  intros E.
  assert (sa = sb /\ ea = eb /\ ma = mb) as (-> & -> & ->); [|reflexivity].
  destruct sa, sb; try discriminate;
    destruct (ea ?= eb)%Z eqn:Ee; try discriminate;
    apply Z.compare_eq in Ee; subst;
    (destruct (Pos.compare_cont Eq ma mb) eqn:Em; try discriminate);
    apply Pcompare_Eq_eq in Em; subst; auto.
Qed.

Lemma float_eqb_ltb (a b : float) :
  (a =? b) = true -> (a <? b) = false /\ (b <? a) = false.
Proof.
  rewrite FloatAxioms.eqb_spec, !FloatAxioms.ltb_spec. unfold SFeqb, SFltb.
  rewrite (SFcompare_antisym (Prim2SF a) (Prim2SF b)).
  destruct (SFcompare (Prim2SF a) (Prim2SF b)) as [[]|]; simpl; try discriminate; auto.
Qed.


Lemma float_eqb_ltb_compat (a b t : float) :
  (a =? b) = true -> (a <? t) = (b <? t).
Proof.
  rewrite FloatAxioms.eqb_spec, !FloatAxioms.ltb_spec. unfold SFeqb, SFltb.
  destruct (SFcompare (Prim2SF a) (Prim2SF b)) as [[]|] eqn:E; try discriminate.
  intros _. rewrite (SFcompare_Eq_compat _ _ (Prim2SF t) E). reflexivity.
Qed.


Lemma float_leb_ltb (a b : float) :
  (a <=? b) = true -> (b <? a) = false /\ is_nan a = false /\ is_nan b = false.
Proof.
  unfold is_nan. rewrite FloatAxioms.leb_spec, FloatAxioms.ltb_spec, !FloatAxioms.eqb_spec.
  unfold SFleb, SFltb, SFeqb.
  rewrite (SFcompare_antisym (Prim2SF a) (Prim2SF b)).
  destruct (SFcompare (Prim2SF a) (Prim2SF b)) as [c|] eqn:E; [|discriminate].
  intros Hc. split; [destruct c; simpl; try discriminate; reflexivity|].
  assert (Hrefl : forall x y c', SFcompare x y = Some c' -> SFcompare x x = Some Eq).
  { clear. intros [sx|sx| |sx mx ex] [sy|sy| |sy my ey] c'; simpl; try discriminate;
      intros _; try reflexivity;
      destruct sx; rewrite ?Z.compare_refl, ?Pos.compare_cont_refl; reflexivity. }
  rewrite (Hrefl _ _ _ E).
  pose proof (SFcompare_antisym (Prim2SF a) (Prim2SF b)) as Hba. rewrite E in Hba.
  rewrite (Hrefl _ _ _ Hba). auto.
Qed.

End FloatOrder.

(* ===================================================================== *)
(** ** The tolerance of [_enum_lc] *)
(* ===================================================================== *)

Section Tolerance.
Local Open Scope float_scope.

(** The coefficients 1e-6 and 5e-7 of one dependent column, zapped and
    turned into its record under the pivot [0; 1; 2] at rank 2: the
    regressor with coefficient 1e-6 stays in the record. *)
Example dependency_record_at_tolerance :
  Combos.dependency_record [0; 1; 2]%nat 2
    (Np.map_entries Np.zap {| Np.shape0 := 2; Np.coldata := [[1e-6; 5e-7]] |}) 0
  = Ok [2; 0]%nat.
Proof. vm_compute. reflexivity. Qed.

(** C2, as stated, fails: a coefficient of exactly 1e-6 comes out of the
    zeroing step unchanged, it is not zero afterwards, and [_enum_lc]'s
    record builder counts it as non-zero. *)
Lemma zap_keeps_exact_tolerance :
  abs 1e-6 = 1e-6 /\ Np.zap 1e-6 = 1e-6 /\
  (Np.zap 1e-6 =? 0) = false /\ Np.neb (Np.zap 1e-6) 0 = true.
Proof. repeat split; vm_compute; reflexivity. Qed.

(** C2, amended: the zeroing step of [_enum_lc] zeroes a coefficient whose
    absolute value is strictly below 1e-6; a coefficient whose absolute
    value is exactly 1e-6 is kept as it is, and so is one of absolute value
    1.000001e-6. *)
Theorem zap_strict_boundary (v : float) :
  ((abs v <? 1e-6) = true -> Np.zap v = 0) /\
  ((abs v =? 1e-6) = true -> Np.zap v = v) /\
  ((abs v =? 1.000001e-6) = true -> Np.zap v = v).
Proof.
  unfold Np.zap, Np.tol. repeat split.
  - intros ->. reflexivity.
  - intros E. apply float_eqb_ltb in E as [-> _]. reflexivity.
  - intros E. rewrite (float_eqb_ltb_compat _ _ 1e-6 E). reflexivity.
Qed.

Lemma zap_strict_boundary_witness :
  Np.zap (next_down 1e-6) = 0 /\ Np.zap (-1e-6) = (-1e-6) /\
  Np.zap 1.000001e-6 = 1.000001e-6.
Proof.
  split; [|split].
  - apply (proj1 (zap_strict_boundary (next_down 1e-6))). vm_compute. reflexivity.
  - apply (proj1 (proj2 (zap_strict_boundary (-1e-6)))). vm_compute. reflexivity.
  - apply (proj2 (proj2 (zap_strict_boundary 1.000001e-6))). vm_compute. reflexivity.
Defined.
End Tolerance.

(* ===================================================================== *)
(** ** The percentile selector at its extremes *)
(* ===================================================================== *)

(** C10: with [percentile == 100] [_select_features] returns the empty drop
    list whatever the scores are, and with [percentile == 0] it returns the
    whole of [feature_names]. *)
Theorem select_features_extremes
    (scoreatpercentile : list float -> Z -> outcome float)
    (all_scores all_pvalues : list float) (feature_names : list string) :
  OneWayFs._select_features scoreatpercentile
    (OneWayFs.mk_percentile_selector 100) all_scores all_pvalues feature_names = Ok []
  /\
  OneWayFs._select_features scoreatpercentile
    (OneWayFs.mk_percentile_selector 0) all_scores all_pvalues feature_names
    = Ok feature_names.
Proof. split; reflexivity. Qed.

(** Between the extremes the scores decide: half of four features, two of
    them tied at the threshold score. *)
Example select_features_half :
  OneWayFs._select_features (fun _ _ => Ok 2%float)
    (OneWayFs.mk_percentile_selector 50) [1; 2; 3; 2]%float [] ["a"; "b"; "c"; "d"]
  = Ok ["a"; "d"].
Proof. vm_compute. reflexivity. Qed.

(* ===================================================================== *)
(** ** Preconditions of the collinearity path *)
(* ===================================================================== *)

(** C7: [_validate_cols] raises ValueError on fewer than two columns;
    [MulticollinearityFilterer.fit] raises it when the columns to evaluate
    are fewer than two, whatever the correlation routine would answer; [filter_collinearity] raises ValueError on a frame that is not
    square, before the first turn of its loop and with the frame as it
    was. *)
Theorem collinearity_preconditions :
  (forall cols, length cols < 2 -> Select._validate_cols (Some cols) = Raise ValueError)
  /\
  (forall (U : FrameUtils) corr fuel self X X' cols',
      @validate_is_pd U X (Mcf.cols self) true = Ok (X', cols') ->
      length (@_cols_if_none U X' cols') < 2 ->
      @Mcf.fit U corr fuel self X = Raise ValueError)
  /\
  (forall fuel threshold c,
      fst (Pd.shape c) ≠ snd (Pd.shape c) ->
      Select.filter_collinearity fuel threshold c = (Raise ValueError, c)).
Proof.
  split; [|split].
  - intros cols Hlen. simpl.
    destruct (Nat.ltb_spec (length cols) 2) as [_|Hge]; [reflexivity|lia].
  - intros U corr fuel self X X' cols' Hv Hlen.
    unfold Mcf.fit. rewrite Hv. simpl.
    destruct (Nat.ltb_spec (length (_cols_if_none X' cols')) 2) as [_|Hge]; [reflexivity|lia].
  - intros fuel threshold c Hne.
    unfold Select.filter_collinearity, mbind, inplace_bind, InPlaceOps.get, InPlaceOps.pure.
    destruct (Nat.eqb_spec (Pd.shape c).1 (Pd.shape c).2) as [Heq|_]; [contradiction|reflexivity].
Qed.

Lemma collinearity_preconditions_witness :
  @Mcf.fit Examples.spec_utils (fun _ _ => Examples.xyz_corr) 0
    (Mcf.mk_mcf None 0.85%float "pearson" true) Examples.one_column_frame
  = Raise ValueError
  /\
  @Mcf.fit Examples.spec_utils (fun _ _ => Examples.xyz_corr) 0
    (Mcf.mk_mcf (Some ["a"]) 0.85%float "pearson" true) Examples.unit_frame
  = Raise ValueError
  /\
  Select.filter_collinearity 0 0.85%float Examples.tall_frame
  = (Raise ValueError, Examples.tall_frame).
Proof.
  split; [|split].
  - apply (proj1 (proj2 collinearity_preconditions) Examples.spec_utils _ _ _ _
             Examples.one_column_frame None); [reflexivity | simpl; lia].
  - apply (proj1 (proj2 collinearity_preconditions) Examples.spec_utils _ _ _ _
             Examples.unit_frame (Some ["a"])); [reflexivity | simpl; lia].
  - apply (proj2 (proj2 collinearity_preconditions)). simpl. lia.
Defined.

(* ===================================================================== *)
(** ** The collinearity resolver *)
(* ===================================================================== *)

(** Unfolding the in-place calls. *)
Ltac run_inplace :=
  unfold mbind, inplace_bind, mret, inplace_ret,
    InPlaceOps.get, InPlaceOps.pure, InPlaceOps.update, InPlaceOps.out_of_fuel in *.

(** Closed decidable statements, by evaluation. *)
Ltac by_decide :=
  match goal with |- ?P => apply (bool_decide_unpack P); vm_compute; exact I end.

Section CollinearityResolver.
Import Select Scan.



Lemma getlast_snoc {A} (l : list A) (a : A) : getlast (l ++ [a]) = Ok a.
Proof. unfold getlast. rewrite last_snoc. reflexivity. Qed.

Lemma drop_column_row (c c1 c2 : Pd.DataFrame) (nm : string) :
  Pd.drop_column c nm = Ok c1 -> Pd.drop_row c1 nm = Ok c2 -> c2 = Corr.without c nm.
Proof.
  unfold Pd.drop_column, Pd.drop_row.
  destruct (decide (nm ∈ Pd.columns c)); [|discriminate].
  intros [= <-]. simpl.
  destruct (decide (nm ∈ Pd.index c)); [|discriminate].
  intros [= <-]. reflexivity.
Qed.

Lemma for_body_turn threshold i nm l c fl l' c' :
  for_body threshold i nm l c = (Ok (fl, l'), c') -> turn threshold i nm l c fl l' c'.
Proof.
  unfold for_body. run_inplace.
  destruct (Pd.getcol c nm) as [col| |] eqn:Hcol; try discriminate.
  destruct (Pd.series_drop col nm) as [col'| |] eqn:Hdrop; try discriminate.
  destruct (getlast (map snd (Pd.sort_values_na_first col'))) as [max_cor| |] eqn:Hmax;
    try discriminate.
  assert (Hthis : Corr.this_col_of c nm = Ok (Pd.sort_values_na_first col')).
  { unfold Corr.this_col_of. rewrite Hcol. simpl. rewrite Hdrop. reflexivity. }
  rewrite length_map.
  destruct (skips max_cor threshold _) eqn:Hskip.
  - intros [= <- <- <-]. eapply turn_skip; eauto.
  - destruct (getlast (map fst (Pd.sort_values_na_first col'))) as [other| |] eqn:Hother;
      try discriminate.
    destruct (Pd.getcol c other) as [col2| |] eqn:Hcol2; try discriminate.
    destruct (Pd.series_drop col2 other) as [that| |] eqn:Hthat; try discriminate.
    set (drop_nm := choose_drop nm other _ _).
    destruct (Pd.drop_column c drop_nm) as [c1| |] eqn:Hc1; try discriminate.
    destruct (Pd.drop_row c1 drop_nm) as [c2| |] eqn:Hc2; try discriminate.
    rewrite getlast_snoc.
    intros [= <- <- <-].
    rewrite (drop_column_row _ _ _ _ Hc1 Hc2).
    eapply turn_drop; eauto.
    + unfold Corr.that_col_of. rewrite Hcol2. simpl. exact Hthat.
    + unfold Pd.drop_column in Hc1. destruct (decide _); [assumption|discriminate].
    + unfold Pd.drop_column in Hc1. destruct (decide _); [|discriminate].
      injection Hc1 as <-. unfold Pd.drop_row in Hc2. simpl in Hc2.
      destruct (decide _); [assumption|discriminate].
Qed.

Lemma turn_for_body threshold i nm l c fl l' c' :
  turn threshold i nm l c fl l' c' -> for_body threshold i nm l c = (Ok (fl, l'), c').
Proof.
  destruct 1 as [sorted max_cor Hthis Hmax Hskip
                |sorted max_cor other that Hthis Hmax Hskip Hother Hthat mn_1 mn_2 drop_nm Hc Hi];
    unfold Corr.this_col_of in Hthis; unfold for_body; run_inplace;
    destruct (Pd.getcol c nm) as [col| |]; try discriminate; simpl in Hthis;
    destruct (Pd.series_drop col nm) as [col'| |]; try discriminate;
    injection Hthis as <-; rewrite Hmax, length_map, Hskip; [reflexivity|].
  rewrite Hother. unfold Corr.that_col_of in Hthat.
  destruct (Pd.getcol c other) as [col2| |]; try discriminate; simpl in Hthat.
  rewrite Hthat. fold mn_1 mn_2 drop_nm.
  unfold Pd.drop_column. rewrite (decide_True _ _ Hc).
  unfold Pd.drop_row. simpl. rewrite (decide_True _ _ Hi).
  rewrite getlast_snoc. reflexivity.
Qed.

(** *** Frames that stay well formed *)

Lemma map_fst_filter_ne {A} (nm : string) (l : list (string * A)) :
  map fst (filter (fun e => fst e ≠ nm) l) = filter (fun lb => lb ≠ nm) (map fst l).
Proof.
  induction l as [|[lb a] l IH]; [reflexivity|].
  simpl. rewrite !filter_cons. simpl.
  destruct (decide (lb ≠ nm)); simpl; rewrite IH; reflexivity.
Qed.

Lemma filter_unique_label {A} (nm : string) (l : list (string * A)) :
  NoDup (map fst l) -> nm ∈ map fst l ->
  exists a, (nm, a) ∈ l /\ filter (fun e => fst e = nm) l = [(nm, a)].
Proof.
  induction l as [|[lb a] l IH]; simpl; intros Hnd Hin.
  - inversion Hin.
  - apply NoDup_cons in Hnd as [Hnotin Hnd]. rewrite filter_cons. simpl.
    destruct (decide (lb = nm)) as [->|Hne].
    + exists a. split; [left|]. f_equal.
      clear -Hnotin. induction l as [|[lb' a'] l IH]; [reflexivity|].
      simpl in Hnotin. rewrite filter_cons. simpl.
      destruct (decide (lb' = nm)) as [->|_].
      * exfalso. apply Hnotin. left.
      * apply IH. intros Hin. apply Hnotin. right. exact Hin.
    + apply elem_of_cons in Hin as [->|Hin]; [contradiction|].
      destruct (IH Hnd Hin) as (a' & Hel & Hf). exists a'. split; [right; exact Hel|exact Hf].
Qed.

Lemma map_fst_zip {A} (labels : list string) (data : list A) :
  length data = length labels -> map fst (zip labels data) = labels.
Proof.
  revert data. induction labels as [|lb labels IH]; intros [|a data]; simpl;
    try reflexivity; try discriminate.
  intros [= Hlen]. rewrite IH by exact Hlen. reflexivity.
Qed.

Lemma drop_labelled_length {A} (nm : string) (labels : list string) (data : list A) :
  length data = length labels ->
  length (Pd.drop_labelled nm labels data) = length (filter (fun lb => lb ≠ nm) labels).
Proof.
  revert data. induction labels as [|lb labels IH]; intros [|a data]; simpl;
    try reflexivity; try discriminate.
  intros [= Hlen]. rewrite filter_cons.
  destruct (decide (lb = nm)) as [->|Hne].
  - rewrite decide_False by (intros Hn; apply Hn; reflexivity). apply IH, Hlen.
  - rewrite decide_True by exact Hne. simpl. rewrite IH by exact Hlen. reflexivity.
Qed.

Lemma filter_ne_length (nm : string) (labels : list string) :
  NoDup labels -> nm ∈ labels ->
  S (length (filter (fun lb => lb ≠ nm) labels)) = length labels.
Proof.
  induction labels as [|lb labels IH]; intros Hnd Hin; [inversion Hin|].
  apply NoDup_cons in Hnd as [Hnotin Hnd]. rewrite filter_cons. simpl.
  destruct (decide (lb = nm)) as [->|Hne].
  - rewrite decide_False by (intros Hn; apply Hn; reflexivity). f_equal.
    clear -Hnotin. induction labels as [|lb labels IH]; [reflexivity|].
    rewrite filter_cons. rewrite decide_True.
    + simpl. f_equal. apply IH. intros Hin. apply Hnotin. right. exact Hin.
    + intros ->. apply Hnotin. left.
  - rewrite decide_True by exact Hne. simpl. f_equal.
    apply IH; [exact Hnd|]. apply elem_of_cons in Hin as [->|Hin]; [contradiction|exact Hin].
Qed.

Lemma without_columns (c : Pd.DataFrame) (nm : string) :
  Pd.columns (Corr.without c nm) = filter (fun lb => lb ≠ nm) (Pd.columns c).
Proof.
  unfold Pd.columns, Corr.without. simpl. rewrite map_map. simpl.
  apply map_fst_filter_ne.
Qed.

Lemma without_well_formed (c : Pd.DataFrame) (nm : string) :
  Corr.well_formed c -> Corr.well_formed (Corr.without c nm).
Proof.
  intros [Hlab Hnd Hrows]. split.
  - rewrite without_columns. simpl. rewrite Hlab. reflexivity.
  - rewrite without_columns. apply NoDup_filter, Hnd.
  - unfold Corr.without. simpl. apply Forall_forall. intros col Hin.
    apply list_elem_of_In, in_map_iff in Hin as (col0 & <- & Hin0). simpl.
    apply drop_labelled_length.
    rewrite Forall_forall in Hrows. apply Hrows.
    apply list_elem_of_In in Hin0. apply list_elem_of_filter in Hin0 as [_ Hin0]. exact Hin0.
Qed.

(** *** Sorting keeps the entries *)

Lemma insert_sorted_perm {A} (x : A * float) (l : list (A * float)) :
  Np.insert_sorted x l ≡ₚ x :: l.
Proof.
  induction l as [|y l IH]; simpl; [reflexivity|].
  destruct (snd x <? snd y)%float; [reflexivity|].
  rewrite IH. apply Permutation_swap.
Qed.

Lemma argsort_perm {A} (l : list (A * float)) : Np.argsort l ≡ₚ l.
Proof.
  unfold Np.argsort.
  enough (forall acc, fold_left (fun acc x => Np.insert_sorted x acc) l acc ≡ₚ acc ++ l) as Hgen
    by (rewrite Hgen; reflexivity).
  induction l as [|x l IH]; intros acc; simpl.
  - rewrite app_nil_r. reflexivity.
  - rewrite IH, insert_sorted_perm. simpl. apply Permutation_middle.
Qed.

Lemma sort_values_perm (s : Pd.Series) : Pd.sort_values_na_first s ≡ₚ s.
Proof.
  unfold Pd.sort_values_na_first. rewrite argsort_perm.
  induction s as [|e s IH]; [reflexivity|].
  rewrite !filter_cons. destruct (Np.isnull (snd e)) eqn:E.
  - rewrite decide_True by reflexivity. rewrite decide_False by discriminate.
    simpl. rewrite IH. reflexivity.
  - rewrite decide_False by discriminate. rewrite decide_True by reflexivity.
    rewrite <- Permutation_middle. rewrite IH. reflexivity.
Qed.

(** *** The scan on a well-formed frame *)

Lemma that_col_of_well_formed (c : Pd.DataFrame) (nm : string) :
  Corr.well_formed c -> nm ∈ Pd.columns c ->
  exists s, Corr.that_col_of c nm = Ok s /\
            map fst s = filter (fun lb => lb ≠ nm) (Pd.columns c).
Proof.
  intros [Hlab Hnd Hrows] Hin.
  destruct (filter_unique_label nm (Pd.coldata c) Hnd Hin) as (data & Hel & Hf).
  assert (Hlen : length data = length (Pd.index c)).
  { rewrite Forall_forall in Hrows. apply (Hrows _ Hel). }
  unfold Corr.that_col_of, Pd.getcol. rewrite Hf. simpl.
  unfold Pd.series_drop. rewrite (map_fst_zip _ _ Hlen).
  rewrite decide_True by (rewrite Hlab; exact Hin).
  eexists. split; [reflexivity|].
  rewrite map_fst_filter_ne, (map_fst_zip _ _ Hlen), Hlab. reflexivity.
Qed.

Lemma this_col_of_well_formed (c : Pd.DataFrame) (nm : string) :
  Corr.well_formed c -> nm ∈ Pd.columns c ->
  exists s, Corr.this_col_of c nm = Ok s /\
            map fst s ≡ₚ filter (fun lb => lb ≠ nm) (Pd.columns c) /\
            S (length s) = length (Pd.columns c).
Proof.
  intros Hwf Hin.
  destruct (that_col_of_well_formed c nm Hwf Hin) as (s & Hs & Hlabels).
  unfold Corr.that_col_of in Hs. unfold Corr.this_col_of.
  destruct (Pd.getcol c nm) as [col| |]; try discriminate. simpl in *.
  rewrite Hs. simpl. eexists. split; [reflexivity|].
  assert (Hp : map fst (Pd.sort_values_na_first s) ≡ₚ map fst s).
  { change (fst <$> Pd.sort_values_na_first s ≡ₚ fst <$> s).
    apply fmap_Permutation, sort_values_perm. }
  split.
  - rewrite Hp, Hlabels. reflexivity.
  - rewrite <- (filter_ne_length nm (Pd.columns c) (Corr.wf_nodup _ Hwf) Hin).
    f_equal. rewrite <- Hlabels, <- (Permutation_length Hp), !length_map. reflexivity.
Qed.

Lemma getlast_elem {A} (l : list A) (a : A) : getlast l = Ok a -> a ∈ l.
Proof.
  unfold getlast. destruct (last l) as [a'|] eqn:E; [|discriminate].
  intros [= <-]. apply last_Some in E as [l' ->]. apply elem_of_app. right. left.
Qed.

Lemma getlast_length {A} (l : list A) (a : A) : getlast l = Ok a -> 0 < length l.
Proof. destruct l; [discriminate|simpl; lia]. Qed.

Lemma getlast_nonempty {A} (l : list A) : 0 < length l -> exists a, getlast l = Ok a.
Proof.
  unfold getlast. destruct l as [|x l] using rev_ind; simpl; [lia|].
  intros _. rewrite last_snoc. eauto.
Qed.

Lemma choose_drop_cases (nm other : string) (mn_1 mn_2 : float) :
  choose_drop nm other mn_1 mn_2 = nm \/ choose_drop nm other mn_1 mn_2 = other.
Proof.
  unfold choose_drop.
  destruct (Np.isnull mn_1), (Np.isnull mn_2), (Np.gtb mn_1 mn_2); auto.
Qed.

(** On a well-formed frame of two columns or more a turn of the scan never
    raises: it skips, or it drops a column that the frame has. *)
Lemma turn_exists threshold i nm l c :
  Corr.well_formed c -> nm ∈ Pd.columns c -> 2 <= length (Pd.columns c) ->
  exists fl l' c', turn threshold i nm l c fl l' c'.
Proof.
  intros Hwf Hin Hlen.
  destruct (this_col_of_well_formed c nm Hwf Hin) as (sorted & Hthis & Hperm & Hsz).
  destruct (getlast_nonempty (map snd sorted)) as [max_cor Hmax];
    [rewrite length_map; lia|].
  destruct (skips max_cor threshold (length sorted)) eqn:Hskip.
  - do 3 eexists. eapply turn_skip; eauto.
  - destruct (getlast_nonempty (map fst sorted)) as [other Hother];
      [rewrite length_map; lia|].
    assert (Hoin : other ∈ Pd.columns c).
    { apply getlast_elem in Hother. rewrite Hperm in Hother.
      apply list_elem_of_filter in Hother as [_ ?]. assumption. }
    destruct (that_col_of_well_formed c other Hwf Hoin) as (that & Hthat & _).
    do 3 eexists. eapply turn_drop; eauto.
    + destruct (choose_drop_cases nm other (Np.nanmean (map snd sorted))
                  (Np.nanmean (map snd that))) as [-> | ->]; assumption.
    + rewrite (Corr.wf_labels _ Hwf).
      destruct (choose_drop_cases nm other (Np.nanmean (map snd sorted))
                  (Np.nanmean (map snd that))) as [-> | ->]; assumption.
Qed.

(** *** Lifting a property of one turn to the loops *)

Section Lift.
Variable R : locals -> Pd.DataFrame -> locals -> Pd.DataFrame -> Prop.
Hypothesis R_refl : forall l c, R l c l c.
Hypothesis R_trans : forall l1 c1 l2 c2 l3 c3, R l1 c1 l2 c2 -> R l2 c2 l3 c3 -> R l1 c1 l3 c3.
Hypothesis R_turn : forall threshold i nm l c fl l' c',
  turn threshold i nm l c fl l' c' -> R l c l' c'.

Lemma for_loop_lift threshold items l c l' c' :
  for_loop threshold items l c = (Ok l', c') -> R l c l' c'.
Proof.
  revert l c. induction items as [|[i nm] items IH]; intros l c; simpl; run_inplace.
  - intros [= <- <-]. apply R_refl.
  - destruct (for_body threshold i nm l c) as [[[fl l1]| |] c1] eqn:Hbody; try discriminate.
    apply for_body_turn in Hbody. apply R_turn in Hbody.
    destruct fl; simpl.
    + intros Hrest. eapply R_trans; [exact Hbody|]. apply IH. exact Hrest.
    + intros [= <- <-]. exact Hbody.
Qed.

Lemma while_loop_lift fuel threshold l c l' c' :
  while_loop fuel threshold l c = (Ok l', c') -> R l c l' c'.
Proof.
  revert l c. induction fuel as [|fuel IH]; intros l c; simpl;
    destruct (finished l); run_inplace; try discriminate;
    try (intros [= <- <-]; apply R_refl).
  destruct (for_loop threshold (enumerate (Pd.columns c)) l c) as [[l1| |] c1] eqn:Hfor;
    try discriminate.
  intros Hrest. eapply R_trans; [eapply for_loop_lift; exact Hfor|]. apply IH. exact Hrest.
Qed.

Lemma filter_collinearity_lift fuel threshold c r c' :
  filter_collinearity fuel threshold c = (Ok r, c') ->
  exists l', r = (drops l', macor l', corrz l') /\ R (mk_locals false [] [] []) c l' c'.
Proof.
  unfold filter_collinearity. run_inplace.
  destruct (negb _); [discriminate|].
  destruct (while_loop fuel threshold _ c) as [[l1| |] c1] eqn:Hwhile; try discriminate.
  intros [= <- <-]. exists l1. split; [reflexivity|].
  eapply while_loop_lift. exact Hwhile.
Qed.
End Lift.

(** *** The loops return on a well-formed frame *)

Lemma this_col_of_size (c : Pd.DataFrame) (nm : string) (sorted : Pd.Series) :
  Corr.well_formed c -> nm ∈ Pd.columns c ->
  Corr.this_col_of c nm = Ok sorted -> S (length sorted) = length (Pd.columns c).
Proof.
  intros Hwf Hin Hthis.
  destruct (this_col_of_well_formed c nm Hwf Hin) as (s & Hs & _ & Hsz).
  rewrite Hs in Hthis. injection Hthis as <-. exact Hsz.
Qed.

Lemma without_size (c : Pd.DataFrame) (nm : string) :
  Corr.well_formed c -> nm ∈ Pd.columns c ->
  S (length (Pd.columns (Corr.without c nm))) = length (Pd.columns c).
Proof.
  intros Hwf Hin. rewrite without_columns.
  apply filter_ne_length; [apply Hwf|exact Hin].
Qed.

Lemma for_loop_well_formed threshold k rest l c :
  Corr.well_formed c -> 2 <= length (Pd.columns c) ->
  (forall nm, nm ∈ rest -> nm ∈ Pd.columns c) ->
  k + length rest = length (Pd.columns c) -> 0 < length rest ->
  finished l = false ->
  exists l' c',
    for_loop threshold (enumerate_from k rest) l c = (Ok l', c') /\
    ((finished l' = true /\ c' = c) \/
     (finished l' = false /\ 3 <= length (Pd.columns c) /\
      exists d, d ∈ Pd.columns c /\ c' = Corr.without c d)).
Proof.
  intros Hwf Hlen. revert k l.
  induction rest as [|nm rest IH]; intros k l Hin Hk Hpos Hfin; simpl in *; [lia|].
  assert (Hnm : nm ∈ Pd.columns c) by (apply Hin; left).
  destruct (turn_exists threshold k nm l c Hwf Hnm Hlen) as (fl & l1 & c1 & Hturn).
  run_inplace. rewrite (turn_for_body _ _ _ _ _ _ _ _ Hturn).
  destruct Hturn as [sorted max_cor Hthis Hmax Hskip
                    |sorted max_cor other that Hthis Hmax Hskip Hother Hthat mn_1 mn_2 d Hc Hi];
    simpl.
  - destruct rest as [|nm' rest].
    + simpl. do 2 eexists. split; [reflexivity|]. left. split; [|reflexivity].
      destruct (Z.eqb_spec (Z.of_nat k) (Z.of_nat (length (Pd.columns c)) - 1));
        [reflexivity|simpl in Hk; lia].
    + destruct (Z.eqb_spec (Z.of_nat k) (Z.of_nat (length (Pd.columns c)) - 1));
        [simpl in Hk; lia|].
      apply IH; try assumption; simpl in *; try lia.
      intros nm0 Hnm0. apply Hin. right. exact Hnm0.
  - do 2 eexists. split; [reflexivity|]. right. simpl. split; [exact Hfin|]. split.
    + pose proof (this_col_of_size c nm sorted Hwf Hnm Hthis) as Hsz.
      unfold skips in Hskip. apply orb_false_iff in Hskip as [_ Hone].
      apply Nat.eqb_neq in Hone. lia.
    + exists d. split; [exact Hc|reflexivity].
Qed.

Lemma while_loop_returns threshold fuel l c :
  Corr.well_formed c -> 2 <= length (Pd.columns c) ->
  finished l = false -> length (Pd.columns c) <= S fuel ->
  exists l' c', while_loop fuel threshold l c = (Ok l', c').
Proof.
  revert l c. induction fuel as [|fuel IH]; intros l c Hwf Hlen Hfin Hfuel; [lia|].
  simpl. rewrite Hfin. run_inplace.
  destruct (for_loop_well_formed threshold 0 (Pd.columns c) l c Hwf Hlen)
    as (l1 & c1 & Hfor & Hcases); auto; try lia.
  unfold enumerate. rewrite Hfor.
  destruct Hcases as [[Hfin1 ->] | (Hfin1 & Hthree & d & Hd & ->)].
  - destruct fuel; simpl; rewrite Hfin1; run_inplace; eauto.
  - pose proof (without_size c d Hwf Hd) as Hsz.
    apply IH; [apply without_well_formed; exact Hwf|lia|exact Hfin1|lia].
Qed.

Lemma well_formed_square (c : Pd.DataFrame) :
  Corr.well_formed c -> fst (Pd.shape c) = snd (Pd.shape c).
Proof.
  intros [Hlab _ _]. unfold Pd.shape. simpl. rewrite Hlab. unfold Pd.columns.
  apply length_map.
Qed.

Lemma filter_collinearity_returns threshold fuel c :
  Corr.well_formed c -> 2 <= length (Pd.columns c) -> length (Pd.columns c) <= S fuel ->
  exists r c', filter_collinearity fuel threshold c = (Ok r, c').
Proof.
  intros Hwf Hlen Hfuel. unfold filter_collinearity. run_inplace.
  rewrite (well_formed_square c Hwf), Nat.eqb_refl. simpl.
  destruct (while_loop_returns threshold fuel (mk_locals false [] [] []) c Hwf Hlen eq_refl Hfuel)
    as (l' & c' & ->).
  eauto.
Qed.

(** *** What is left of the frame *)

Lemma filter_not_in_nil (l : list string) : filter (fun nm => nm ∉ []) l = l.
Proof.
  induction l as [|x l IH]; [reflexivity|].
  rewrite filter_cons, decide_True by apply not_elem_of_nil. rewrite IH. reflexivity.
Qed.

Lemma fold_without_columns (ds : list string) (c : Pd.DataFrame) :
  Pd.columns (fold_left Corr.without ds c) = filter (fun nm => nm ∉ ds) (Pd.columns c) /\
  Pd.index (fold_left Corr.without ds c) = filter (fun nm => nm ∉ ds) (Pd.index c).
Proof.
  revert c. induction ds as [|d ds IH]; intros c; simpl.
  - split; symmetry; apply filter_not_in_nil.
  - destruct (IH (Corr.without c d)) as [-> ->]. rewrite without_columns. simpl.
    rewrite !list_filter_filter.
    split; apply list_filter_iff; intros x; rewrite not_elem_of_cons; tauto.
Qed.

(** C9: whenever [filter_collinearity] returns, its three lists have the
    same length, and the detail record at each position carries the
    dropped name and the mean absolute correlation found at that position
    of the other two lists. *)
Theorem filter_collinearity_parallel_lists
    (fuel : nat) (threshold : float) (c c' : Pd.DataFrame)
    (drops : list string) (macor : list float) (corrz : list _MCFTuple) :
  filter_collinearity fuel threshold c = (Ok (drops, macor, corrz), c') ->
  length drops = length corrz /\ length macor = length corrz /\
  map feature_x corrz = drops /\ map mac corrz = macor /\
  forall i t, corrz !! i = Some t ->
    drops !! i = Some (feature_x t) /\ macor !! i = Some (mac t).
Proof.
  intros Hrun.
  apply (filter_collinearity_lift
           (fun l _ l' _ =>
              map feature_x (Select.corrz l) = Select.drops l /\
              map mac (Select.corrz l) = Select.macor l ->
              map feature_x (Select.corrz l') = Select.drops l' /\
              map mac (Select.corrz l') = Select.macor l')) in Hrun.
  - destruct Hrun as (l' & [= -> -> ->] & Hinv).
    destruct (Hinv (conj eq_refl eq_refl)) as [Hx Hm].
    split; [rewrite <- Hx; apply length_map|].
    split; [rewrite <- Hm; apply length_map|].
    split; [exact Hx|]. split; [exact Hm|].
    intros i t Ht. rewrite <- Hx, <- Hm.
    change (((feature_x <$> Select.corrz l') !! i = Some (feature_x t)) /\
            ((mac <$> Select.corrz l') !! i = Some (mac t))).
    rewrite !list_lookup_fmap, Ht. split; reflexivity.
  - auto.
  - auto.
  - intros thr i nm l c0 fl l1 c1 Hturn [Hx Hm].
    destruct Hturn; simpl.
    + destruct (_ =? _)%Z; simpl; auto.
    + rewrite !map_app, Hx, Hm. simpl. auto.
Qed.

Lemma filter_collinearity_parallel_lists_witness :
  length ["Y"] = length [mk_MCFTuple "Y" "X" 0.95 0.925] /\
  length [0.925%float] = length [mk_MCFTuple "Y" "X" 0.95 0.925] /\
  map feature_x [mk_MCFTuple "Y" "X" 0.95 0.925] = ["Y"] /\
  map mac [mk_MCFTuple "Y" "X" 0.95 0.925] = [0.925%float] /\
  forall i t, [mk_MCFTuple "Y" "X" 0.95 0.925] !! i = Some t ->
    ["Y"] !! i = Some (feature_x t) /\ [0.925%float] !! i = Some (mac t).
Proof.
  apply (filter_collinearity_parallel_lists 3 0.85 Examples.xyz_corr
           (Corr.without Examples.xyz_corr "Y")).
  vm_compute. reflexivity.
Defined.

(** *** The decision of one turn *)






(** A pair exactly at the threshold in a frame of three columns: the call
    drops one column of the pair. *)
Example threshold_equality_scenario :
  filter_collinearity 3 0.9 Examples.tie_corr
  = (Ok (["B"], [0.7%float], [mk_MCFTuple "B" "A" 0.9 0.7]),
     Pd.mk_frame ["A"; "C"] [("A", [1; 0.5]%float); ("C", [0.5; 1]%float)]).
Proof. vm_compute. reflexivity. Qed.

(** Two columns only: the pair is above the threshold and nothing is
    dropped. *)
Example two_columns_never_drop :
  filter_collinearity 2 0.85
    (Pd.mk_frame ["A"; "B"] [("A", [1; 0.99]%float); ("B", [0.99; 1]%float)])
  = (Ok ([], [], []),
     Pd.mk_frame ["A"; "B"] [("A", [1; 0.99]%float); ("B", [0.99; 1]%float)]).
Proof. vm_compute. reflexivity. Qed.

(** No column at all: the scan has nothing to visit, [finished] is never
    set and the loop does not end, whatever the fuel. *)
Lemma no_column_never_finishes (fuel : nat) (threshold : float) :
  filter_collinearity fuel threshold (Pd.mk_frame [] [])
  = (OutOfFuel, Pd.mk_frame [] []).
Proof.
  unfold filter_collinearity. run_inplace. simpl.
  induction fuel as [|fuel IH]; simpl; [reflexivity|].
  run_inplace. simpl.
  destruct (while_loop fuel threshold _ _) as [[l'| |] c'] eqn:E;
    try discriminate; congruence.
Qed.
End CollinearityResolver.

(* ===================================================================== *)
(** ** The linear-combination resolver *)
(* ===================================================================== *)

Section Outcomes.
Context {A B : Type}.

Lemma mapM_Ok (f : A -> outcome B) (l : list A) (k : list B) :
  mapM f l = Ok k <-> Forall2 (fun a b => f a = Ok b) l k.
Proof.
  revert k. induction l as [|a l IH]; intros k; simpl.
  - split; [intros [= <-]; constructor|inversion 1; reflexivity].
  - unfold mbind, outcome_bind, mret, outcome_ret in *.
    destruct (f a) as [b| |] eqn:Hb.
    + destruct (mapM f l) as [k'| |] eqn:Hk.
      * split.
        -- intros [= <-]. constructor; [exact Hb|]. apply IH. reflexivity.
        -- inversion 1 as [|? b' ? k'' Hb' Hk'']; subst.
           rewrite Hb in Hb'. injection Hb' as <-.
           apply IH in Hk''. injection Hk'' as <-. reflexivity.
      * split; [discriminate|].
        inversion 1 as [|? b' ? k'' Hb' Hk'']; subst. apply IH in Hk''. discriminate.
      * split; [discriminate|].
        inversion 1 as [|? b' ? k'' Hb' Hk'']; subst. apply IH in Hk''. discriminate.
    + split; [discriminate|]. inversion 1; subst; congruence.
    + split; [discriminate|]. inversion 1; subst; congruence.
Qed.

Lemma mapM_returns (f : A -> outcome B) (l : list A) :
  Forall (fun a => exists b, f a = Ok b) l -> exists k, mapM f l = Ok k.
Proof.
  induction 1 as [|a l [b Hb] _ [k Hk]].
  - exists []. reflexivity.
  - exists (b :: k). apply mapM_Ok. constructor; [exact Hb|]. apply mapM_Ok, Hk.
Qed.
End Outcomes.

Lemma getitem_Ok {A} (l : list A) (i : nat) (a : A) : getitem l i = Ok a <-> l !! i = Some a.
Proof. unfold getitem. destruct (l !! i); split; congruence. Qed.

Lemma getitem_returns {A} (l : list A) (i : nat) : i < length l -> exists a, getitem l i = Ok a.
Proof.
  intros Hi. destruct (lookup_lt_is_Some_2 l i Hi) as [a Ha].
  exists a. apply getitem_Ok, Ha.
Qed.

Lemma flatten_items (l : list nat) : Utils.flatten_all (Utils.Items (map Utils.Item l)) = l.
Proof. induction l as [|n l IH]; simpl in *; [reflexivity|]. rewrite IH. reflexivity. Qed.

Lemma flatten_record (own : nat) (others : list nat) :
  Utils.flatten_all
    (Utils.Items [Utils.Item own; Utils.Items (map Utils.Item others)]) = own :: others.
Proof.
  change (own :: (Utils.flatten_all (Utils.Items (map Utils.Item others)) ++ []) = own :: others).
  rewrite flatten_items, app_nil_r. reflexivity.
Qed.

Lemma where_from_bound (k : nat) (mask : list bool) :
  Forall (fun j => k <= j < k + length mask) (Np.where_from k mask).
Proof.
  revert k. induction mask as [|m mask IH]; intros k; simpl; [constructor|].
  assert (Htail : Forall (fun j => k <= j < k + S (length mask)) (Np.where_from (S k) mask)).
  { eapply Forall_impl; [apply IH|]. simpl. intros j Hj. lia. }
  destruct m; [constructor; [lia|exact Htail]|exact Htail].
Qed.

Lemma take_idx_returns {A} (l : list A) (idx : list nat) :
  Forall (fun j => j < length l) idx -> exists r, Np.take_idx l idx = Ok r.
Proof.
  intros Hidx. apply mapM_returns. eapply Forall_impl; [exact Hidx|].
  intros j Hj. apply getitem_returns, Hj.
Qed.

Section Records.
Local Open Scope float_scope.

Lemma dependency_record_inv (pv : list nat) (rank : nat) (b : Np.ndarray) (i : nat)
    (rec : list nat) :
  Combos.dependency_record pv rank b i = Ok rec ->
  exists own bi others,
    getitem pv (rank + i) = Ok own /\ Np.column b i = Ok bi /\
    Np.take_idx pv (Np.where_true (map (fun v => Np.neb v 0) bi)) = Ok others /\
    rec = own :: others.
Proof.
  unfold Combos.dependency_record, mbind, outcome_bind.
  destruct (getitem pv (rank + i)) as [own| |] eqn:Ho; try discriminate.
  destruct (Np.column b i) as [bi| |] eqn:Hb; try discriminate.
  destruct (Np.take_idx pv _) as [others| |] eqn:Hot; try discriminate.
  rewrite flatten_record. intros [= <-]. exists own, bi, others. auto.
Qed.

Lemma dependency_record_returns (pv : list nat) (rank : nat) (b : Np.ndarray) (i : nat) :
  (rank + i < length pv)%nat -> (i < Np.shape1 b)%nat ->
  Forall (fun col => length col <= length pv)%nat (Np.coldata b) ->
  exists own others,
    pv !! (rank + i)%nat = Some own /\
    Combos.dependency_record pv rank b i = Ok (own :: others).
Proof.
  intros Hown Hi Hrows.
  destruct (getitem_returns pv (rank + i) Hown) as [own Ho].
  destruct (getitem_returns (Np.coldata b) i Hi) as [bi Hbi].
  assert (Hlen : (length bi <= length pv)%nat).
  { rewrite Forall_forall in Hrows. apply Hrows.
    apply getitem_Ok in Hbi. eapply list_elem_of_lookup_2, Hbi. }
  destruct (take_idx_returns pv (Np.where_true (map (fun v => Np.neb v 0) bi))) as [others Hot].
  { eapply Forall_impl; [apply where_from_bound|]. simpl. intros j Hj.
    rewrite length_map in Hj. lia. }
  exists own, others. split; [apply getitem_Ok, Ho|].
  unfold Combos.dependency_record, Np.column, mbind, outcome_bind.
  rewrite Ho, Hbi, Hot, flatten_record. reflexivity.
Qed.
End Records.

Lemma fill_dict_spec (pv : list nat) (rank : nat) (b : Np.ndarray)
    (range : list nat) (d0 d : gmap nat (list nat)) :
  Combos.fill_dict pv rank b range d0 = Ok d ->
  forall i, d !! i = if decide (i ∈ range)
                     then match Combos.dependency_record pv rank b i with
                          | Ok rec => Some rec
                          | _ => None
                          end
                     else d0 !! i.
Proof.
  revert d0. induction range as [|j range IH]; intros d0; cbn [Combos.fill_dict].
  - intros [= <-] i. destruct (decide (i ∈ [])) as [Hin|_]; [inversion Hin|reflexivity].
  - unfold mbind, outcome_bind.
    destruct (Combos.dependency_record pv rank b j) as [rec| |] eqn:Hrec; try discriminate.
    intros Hfill i. rewrite (IH _ Hfill i).
    destruct (decide (i ∈ range)) as [Hin|Hnin].
    + rewrite decide_True by (right; exact Hin). reflexivity.
    + destruct (decide (i = j)) as [->|Hne].
      * rewrite decide_True by left. rewrite lookup_insert_eq, Hrec. reflexivity.
      * rewrite decide_False by (rewrite elem_of_cons; tauto).
        apply lookup_insert_ne. congruence.
Qed.

Lemma fill_dict_returns (pv : list nat) (rank : nat) (b : Np.ndarray)
    (range : list nat) (d0 : gmap nat (list nat)) :
  Forall (fun i => exists rec, Combos.dependency_record pv rank b i = Ok rec) range ->
  exists d, Combos.fill_dict pv rank b range d0 = Ok d.
Proof.
  intros Hall. revert d0. induction Hall as [|i range [rec Hrec] _ IH]; intros d0; simpl.
  - eauto.
  - unfold mbind, outcome_bind. rewrite Hrec. apply IH.
Qed.

(** *** Deleting columns *)

Lemma delete_from_ext {A} (k : nat) (bad bad' : gset nat) (l : list A) :
  (forall j, k <= j -> (j ∈ bad <-> j ∈ bad')) ->
  Np.delete_from k bad l = Np.delete_from k bad' l.
Proof.
  revert k. induction l as [|a l IH]; intros k Hext; simpl; [reflexivity|].
  rewrite (IH (S k)) by (intros j Hj; apply Hext; lia).
  destruct (decide (k ∈ bad)) as [Hin|Hnin].
  - rewrite decide_True by (apply Hext; [lia|exact Hin]). reflexivity.
  - rewrite decide_False by (intros Hin; apply Hnin, Hext; [lia|exact Hin]). reflexivity.
Qed.

Lemma delete_from_length {A} (l : list A) (k : nat) (bad : gset nat) :
  (forall j, j ∈ bad -> k <= j < k + length l) ->
  length (Np.delete_from k bad l) + size bad = length l.
Proof.
  revert k bad. induction l as [|a l IH]; intros k bad Hbad; simpl.
  - assert (bad = ∅) as ->.
    { apply elem_of_equiv_empty_L. intros j Hj. apply Hbad in Hj. simpl in Hj. lia. }
    apply size_empty.
  - destruct (decide (k ∈ bad)) as [Hin|Hnin].
    + rewrite (delete_from_ext (S k) bad (bad ∖ {[k]})).
      2:{ intros j Hj. rewrite elem_of_difference, elem_of_singleton.
          split; [intros ?; split; [assumption|lia]|tauto]. }
      assert (Hsz : size bad = S (size (bad ∖ {[k]}))).
      { rewrite size_difference by (apply singleton_subseteq_l; exact Hin).
        rewrite size_singleton.
        assert (size bad ≠ 0); [|lia].
        apply size_non_empty_iff. intros Hempty. apply (Hempty k) in Hin. inversion Hin. }
      rewrite Hsz, <- (IH (S k) (bad ∖ {[k]})).
      * lia.
      * intros j Hj. apply elem_of_difference in Hj as [Hj Hne].
        rewrite elem_of_singleton in Hne. apply Hbad in Hj. simpl in Hj. lia.
    + simpl. rewrite (IH (S k) bad); [reflexivity|].
      intros j Hj. assert (j ≠ k) by (intros ->; contradiction).
      apply Hbad in Hj. simpl in Hj. lia.
Qed.

Lemma delete_length {A} (l : list A) (bad : gset nat) :
  (forall j, j ∈ bad -> j < length l) ->
  length (Np.delete l bad) + size bad = length l.
Proof.
  intros Hbad. apply delete_from_length. intros j Hj. apply Hbad in Hj. lia.
Qed.

(** *** One pass of [_enum_lc] *)

Section Resolver.
Context `{HQR : QR}.

Lemma enum_lc_Some (decomp : decomposition) (lc : gmap nat (list nat)) :
  Combos._enum_lc decomp = Ok (Some lc) ->
  let R := get_R decomp in
  let rank := get_rank decomp in
  rank ≠ Np.shape1 R /\
  exists b,
    get_coef (QRDecomposition (Np.slice_upto R rank rank)) (Np.slice_from R rank rank) = Some b /\
    Combos.fill_dict (pivot decomp) rank (Np.map_entries Np.zap b)
      (seq 0 (Np.shape1 (Np.slice_from R rank rank))) ∅ = Ok lc.
Proof.
  intros Hrun R rank. revert Hrun. unfold Combos._enum_lc. fold R rank.
  destruct (Nat.eqb_spec rank (Np.shape1 R)) as [|Hne]; [discriminate|].
  simpl. intros Hrun. split; [exact Hne|].
  destruct (get_coef _ _) as [b|]; [|discriminate].
  exists b. split; [reflexivity|].
  unfold mbind, outcome_bind in Hrun.
  destruct (Combos.fill_dict _ _ _ _ _) as [d| |]; try discriminate.
  injection Hrun as <-. reflexivity.
Qed.

Lemma enum_lc_None (decomp : decomposition) :
  Combos._enum_lc decomp = Ok None ->
  let R := get_R decomp in
  let rank := get_rank decomp in
  rank = Np.shape1 R \/
  get_coef (QRDecomposition (Np.slice_upto R rank rank)) (Np.slice_from R rank rank) = None.
Proof.
  intros Hrun R rank. revert Hrun. unfold Combos._enum_lc. fold R rank.
  destruct (Nat.eqb_spec rank (Np.shape1 R)) as [|Hne]; [left; assumption|].
  simpl. intros Hrun. right.
  destruct (get_coef _ _) as [b|]; [|reflexivity].
  unfold mbind, outcome_bind in Hrun.
  destruct (Combos.fill_dict _ _ _ _ _) as [d| |]; discriminate.
Qed.

Lemma first_indices_spec (lc : gmap nat (list nat)) (bad : gset nat) :
  Combos.first_indices lc = Ok bad ->
  forall j, j ∈ bad <-> exists i rec, lc !! i = Some rec /\ rec !! 0 = Some j.
Proof.
  unfold Combos.first_indices, mbind, outcome_bind.
  destruct (mapM _ (map_to_list lc)) as [firsts| |] eqn:Hm; try discriminate.
  intros [= <-] j. apply mapM_Ok in Hm.
  rewrite elem_of_list_to_set, list_elem_of_lookup. split.
  - intros [n Hn]. destruct (Forall2_lookup_r _ _ _ _ _ Hm Hn) as ([i rec] & Hkv & Hget).
    exists i, rec. split.
    + apply elem_of_map_to_list. eapply list_elem_of_lookup_2, Hkv.
    + apply getitem_Ok, Hget.
  - intros (i & rec & Hlc & Hhead).
    apply elem_of_map_to_list, list_elem_of_lookup in Hlc as [n Hn].
    destruct (Forall2_lookup_l _ _ _ _ _ Hm Hn) as (j' & Hj' & Hget).
    simpl in Hget. apply getitem_Ok in Hget. rewrite Hhead in Hget. injection Hget as <-.
    exists n. exact Hj'.
Qed.

Lemma first_indices_returns (lc : gmap nat (list nat)) :
  (forall i rec, lc !! i = Some rec -> 0 < length rec) ->
  exists bad, Combos.first_indices lc = Ok bad.
Proof.
  intros Hne.
  destruct (mapM_returns (fun kv : nat * list nat => getitem (snd kv) 0) (map_to_list lc))
    as [firsts Hfirsts].
  { apply Forall_forall. intros [i rec] Hin. apply elem_of_map_to_list in Hin.
    apply getitem_returns. simpl. eapply Hne, Hin. }
  unfold Combos.first_indices. rewrite Hfirsts. simpl. eauto.
Qed.

Lemma remove_bad_inv (lc : gmap nat (list nat)) (w w' : Combos.work) :
  Combos.remove_bad lc w = Ok w' ->
  exists bad bad_nms,
    Combos.first_indices lc = Ok bad /\ bad ≠ ∅ /\
    Np.take_idx (Combos.names w) (elements bad) = Ok bad_nms /\
    Combos.x w' = Np.delete_columns (Combos.x w) bad /\
    Combos.names w' = Np.delete (Combos.names w) bad /\
    Combos.drops w' = Combos.drops w ++ bad_nms.
Proof.
  unfold Combos.remove_bad, mbind, outcome_bind.
  destruct (Combos.first_indices lc) as [bad| |]; try discriminate.
  destruct (decide (bad = ∅)) as [|Hne]; [discriminate|].
  destruct (Np.take_idx _ _) as [bad_nms| |] eqn:Hnms; try discriminate.
  intros [= <-]. exists bad, bad_nms. simpl. auto 10.
Qed.
End Resolver.

(** *** Under the laws of the decomposition *)

Section Lawful.
Context `{HQR : QR} (laws : QRLaws).

Lemma pivot_length (x : Np.ndarray) : length (pivot (QRDecomposition x)) = Np.shape1 x.
Proof. rewrite (Permutation_length (pivot_perm laws x)). apply length_seq. Qed.

Lemma enum_lc_lawful (x : Np.ndarray) :
  exists r, Combos._enum_lc (QRDecomposition x) = Ok r /\
            forall lc, r = Some lc -> records_of x lc.
Proof.
  pose proof (R_columns laws x) as HR. pose proof (rank_le laws x) as Hrank.
  pose proof (pivot_length x) as Hpv.
  unfold Combos._enum_lc. rewrite HR.
  set (d := QRDecomposition x) in *. set (rank := get_rank d) in *.
  set (p := Np.shape1 x) in *.
  destruct (Nat.eqb_spec rank p) as [Heq|Hne]; simpl.
  { eexists. split; [reflexivity|discriminate]. }
  set (X := Np.slice_upto (get_R d) rank rank).
  set (Y := Np.slice_from (get_R d) rank rank).
  assert (HX : Np.shape1 X = rank).
  { unfold X, Np.slice_upto, Np.shape1. simpl.
    rewrite length_take, length_map. fold (Np.shape1 (get_R d)). rewrite HR. fold p. lia. }
  assert (HY : Np.shape1 Y = p - rank).
  { unfold Y, Np.slice_from, Np.shape1. simpl.
    rewrite length_drop, length_map. fold (Np.shape1 (get_R d)). rewrite HR. reflexivity. }
  destruct (get_coef (QRDecomposition X) Y) as [b|] eqn:Hb.
  2:{ eexists. split; [reflexivity|discriminate]. }
  destruct (coef_shape laws X Y b Hb) as [Hb1 Hbrows]. rewrite HX in Hbrows.
  set (b' := Np.map_entries Np.zap b).
  assert (Hb'1 : Np.shape1 b' = p - rank).
  { unfold b', Np.map_entries, Np.shape1. simpl. rewrite length_map.
    fold (Np.shape1 b). rewrite Hb1. exact HY. }
  assert (Hb'rows : Forall (fun col => length col <= length (pivot d)) (Np.coldata b')).
  { unfold b', Np.map_entries. simpl. apply Forall_forall. intros col Hin.
    apply list_elem_of_In, in_map_iff in Hin as (col0 & <- & Hin0).
    rewrite length_map. rewrite Forall_forall in Hbrows.
    apply list_elem_of_In in Hin0. apply Hbrows in Hin0. lia. }
  assert (Hrec : forall i, i < p - rank ->
            exists own others, pivot d !! (rank + i) = Some own /\
              Combos.dependency_record (pivot d) rank b' i = Ok (own :: others)).
  { intros i Hi. apply dependency_record_returns; [lia|lia|exact Hb'rows]. }
  destruct (fill_dict_returns (pivot d) rank b' (seq 0 (Np.shape1 Y)) ∅) as [lc Hlc].
  { apply Forall_forall. intros i Hi. apply elem_of_seq in Hi. rewrite HY in Hi.
    destruct (Hrec i) as (own & others & _ & Hr); [lia|]. eauto. }
  unfold mbind, outcome_bind. rewrite Hlc.
  eexists. split; [reflexivity|]. intros lc' [= <-].
  pose proof (fill_dict_spec _ _ _ _ _ _ Hlc) as Hspec.
  change (rank < p /\
          (forall i, i < p - rank ->
             exists own others, pivot d !! (rank + i) = Some own /\
                                lc !! i = Some (own :: others)) /\
          (forall i, p - rank <= i -> lc !! i = None)).
  split; [lia|]. split.
  - intros i Hi. destruct (Hrec i Hi) as (own & others & Hown & Hr).
    exists own, others. split; [exact Hown|].
    rewrite Hspec, decide_True, Hr; [reflexivity|].
    apply elem_of_seq. rewrite HY. lia.
  - intros i Hi. rewrite Hspec, decide_False; [apply lookup_empty|].
    rewrite elem_of_seq, HY. lia.
Qed.

Lemma NoDup_drop {A} (n : nat) (l : list A) : NoDup l -> NoDup (drop n l).
Proof.
  intros Hnd. rewrite <- (take_drop n l) in Hnd.
  apply NoDup_app in Hnd as (_ & _ & Hd). exact Hd.
Qed.

Lemma records_size (x : Np.ndarray) (lc : gmap nat (list nat)) :
  records_of x lc -> size lc = Np.shape1 x - get_rank (QRDecomposition x).
Proof.
  intros (Hlt & Hsome & Hnone).
  rewrite <- (size_dom (D := gset nat)).
  rewrite <- (size_set_seq (C := gset nat) 0 (Np.shape1 x - get_rank (QRDecomposition x))).
  f_equal. apply set_eq. intros i. rewrite elem_of_dom, elem_of_set_seq.
  split.
  - intros [rec Hrec].
    destruct (Nat.lt_ge_cases i (Np.shape1 x - get_rank (QRDecomposition x))) as [|Hge];
      [lia|]. rewrite (Hnone i Hge) in Hrec. discriminate.
  - intros [_ Hi]. destruct (Hsome i) as (own & others & _ & ->); [lia|]. eauto.
Qed.

Lemma records_first_indices (x : Np.ndarray) (lc : gmap nat (list nat)) :
  records_of x lc ->
  Combos.first_indices lc
  = Ok (list_to_set (drop (get_rank (QRDecomposition x)) (pivot (QRDecomposition x)))).
Proof.
  intros (Hlt & Hsome & Hnone).
  destruct (first_indices_returns lc) as [bad Hbad].
  { intros i rec Hrec.
    destruct (Nat.lt_ge_cases i (Np.shape1 x - get_rank (QRDecomposition x))) as [Hi|Hge].
    - destruct (Hsome i Hi) as (own & others & _ & Hl). rewrite Hl in Hrec.
      injection Hrec as <-. simpl. lia.
    - rewrite (Hnone i Hge) in Hrec. discriminate. }
  rewrite Hbad. f_equal. apply set_eq. intros j.
  rewrite (first_indices_spec lc bad Hbad j), elem_of_list_to_set, list_elem_of_lookup.
  split.
  - intros (i & rec & Hrec & Hhead).
    destruct (Nat.lt_ge_cases i (Np.shape1 x - get_rank (QRDecomposition x))) as [Hi|Hge].
    + destruct (Hsome i Hi) as (own & others & Hown & Hl). rewrite Hl in Hrec.
      injection Hrec as <-. injection Hhead as <-.
      exists i. rewrite lookup_drop. exact Hown.
    + rewrite (Hnone i Hge) in Hrec. discriminate.
  - intros [i Hi]. rewrite lookup_drop in Hi.
    assert (Hlt' : i < Np.shape1 x - get_rank (QRDecomposition x)).
    { apply lookup_lt_Some in Hi. rewrite pivot_length in Hi. lia. }
    destruct (Hsome i Hlt') as (own & others & Hown & Hl).
    rewrite Hi in Hown. injection Hown as <-.
    exists i, (j :: others). split; [exact Hl|reflexivity].
Qed.

(** A pass that finds records removes one column for each of them. *)
Lemma remove_bad_lawful (lc : gmap nat (list nat)) (w : Combos.work) :
  length (Combos.names w) = Np.shape1 (Combos.x w) ->
  records_of (Combos.x w) lc ->
  exists w', Combos.remove_bad lc w = Ok w' /\
             Np.shape1 (Combos.x w') + size lc = Np.shape1 (Combos.x w) /\
             0 < size lc /\
             length (Combos.names w') = Np.shape1 (Combos.x w').
Proof.
  intros Hnames Hrecs.
  pose proof (records_size _ _ Hrecs) as Hsize.
  pose proof (records_first_indices _ _ Hrecs) as Hfirst.
  destruct Hrecs as (Hlt & _ & _).
  set (d := QRDecomposition (Combos.x w)) in *.
  set (bad := list_to_set (drop (get_rank d) (pivot d)) : gset nat) in *.
  assert (Hnd : NoDup (pivot d)).
  { unfold d. rewrite (pivot_perm laws (Combos.x w)). apply NoDup_seq. }
  assert (Hbsize : size bad = size lc).
  { unfold bad. rewrite size_list_to_set by (apply NoDup_drop, Hnd).
    rewrite length_drop, Hsize. unfold d. rewrite pivot_length. reflexivity. }
  assert (Hrange : forall j, j ∈ bad -> j < Np.shape1 (Combos.x w)).
  { intros j Hj. unfold bad in Hj. apply elem_of_list_to_set in Hj.
    assert (Hin : j ∈ pivot d).
    { rewrite <- (take_drop (get_rank d) (pivot d)). apply elem_of_app. right. exact Hj. }
    unfold d in Hin. rewrite (pivot_perm laws (Combos.x w)) in Hin.
    apply elem_of_seq in Hin. lia. }
  destruct (take_idx_returns (Combos.names w) (elements bad)) as [bad_nms Hnms].
  { apply Forall_forall. intros j Hj. apply elem_of_elements in Hj.
    rewrite Hnames. apply Hrange, Hj. }
  unfold Combos.remove_bad. rewrite Hfirst. simpl. fold d bad.
  rewrite decide_False.
  2:{ intros Hempty. rewrite Hempty, size_empty in Hbsize. lia. }
  simpl. rewrite Hnms. simpl. eexists. split; [reflexivity|]. simpl.
  pose proof (delete_length (Np.coldata (Combos.x w)) bad Hrange) as Hx.
  pose proof (delete_length (Combos.names w) bad) as Hn.
  rewrite Hnames in Hn. specialize (Hn Hrange).
  unfold Np.shape1 in *. simpl. lia.
Qed.

(** The loop ends within as many passes as the matrix has columns. *)
Lemma while_lc_terminates (fuel : nat) (lc : option (gmap nat (list nat))) (w : Combos.work) :
  length (Combos.names w) = Np.shape1 (Combos.x w) ->
  Combos._enum_lc (QRDecomposition (Combos.x w)) = Ok lc ->
  Np.shape1 (Combos.x w) <= fuel ->
  exists w', Combos.while_lc fuel lc w = Ok w' /\
             Np.shape1 (Combos.x w') <= Np.shape1 (Combos.x w) /\
             length (Combos.names w') = Np.shape1 (Combos.x w') /\
             Combos._enum_lc (QRDecomposition (Combos.x w')) = Ok None.
Proof.
  revert lc w. induction fuel as [|fuel IH]; intros lc w Hnames Hlc Hfuel.
  - destruct lc as [d|]; simpl.
    + destruct (enum_lc_lawful (Combos.x w)) as (r & Hr & Hrecs).
      rewrite Hlc in Hr. injection Hr as <-.
      destruct (Hrecs d eq_refl) as (Hlt & _). lia.
    + eauto.
  - destruct lc as [d|]; simpl; [|eauto].
    destruct (enum_lc_lawful (Combos.x w)) as (r & Hr & Hrecs).
    rewrite Hlc in Hr. injection Hr as <-.
    destruct (remove_bad_lawful d w Hnames (Hrecs d eq_refl))
      as (w1 & Hw1 & Hshrink & Hpos & Hnames1).
    rewrite Hw1. simpl.
    destruct (enum_lc_lawful (Combos.x w1)) as (lc1 & Hlc1 & _).
    rewrite Hlc1. simpl.
    destruct (IH lc1 w1 Hnames1 Hlc1) as (w' & Hw' & Hle & Hn' & Hend); [lia|].
    exists w'. split; [exact Hw'|]. split; [lia|]. split; assumption.
Qed.
End Lawful.

(** *** The stand-in decomposition is lawful *)

Lemma where_from_length (k : nat) (mask : list bool) :
  length (Np.where_from k mask) <= length mask.
Proof.
  revert k. induction mask as [|m mask IH]; intros k; simpl; [lia|].
  specialize (IH (S k)). destruct m; simpl; lia.
Qed.

Lemma where_from_partition (k : nat) (mask : list bool) :
  Np.where_from k (map negb mask) ++ Np.where_from k mask ≡ₚ seq k (length mask).
Proof.
  revert k. induction mask as [|m mask IH]; intros k; simpl; [reflexivity|].
  destruct m; simpl.
  - rewrite <- Permutation_middle. rewrite IH. reflexivity.
  - rewrite IH. reflexivity.
Qed.

Lemma zc_qr_laws : @QRLaws Examples.zc_qr.
Proof.
  split; simpl.
  - intros x. unfold Examples.zc_decompose, Np.shape1. simpl.
    rewrite length_app, length_map, length_seq, repeat_length.
    pose proof (where_from_length 0 (map negb (map Examples.is_zero_column (Np.coldata x)))) as Hle.
    rewrite !length_map in Hle. unfold Np.where_true. lia.
  - intros x. unfold Examples.zc_decompose, Np.shape1. simpl.
    pose proof (where_from_length 0 (map negb (map Examples.is_zero_column (Np.coldata x)))) as Hle.
    rewrite !length_map in Hle. exact Hle.
  - intros x. unfold Examples.zc_decompose, Np.shape1, Np.where_true. simpl.
    rewrite where_from_partition, length_map. reflexivity.
  - intros X Y b. unfold Examples.zc_get_coef.
    destruct (_ =? 0); [discriminate|]. intros [= <-]. split.
    + unfold Np.shape1. simpl. apply length_map.
    + simpl. apply Forall_forall. intros col Hin.
      apply list_elem_of_In, in_map_iff in Hin as (col0 & <- & _).
      rewrite length_take.
      pose proof (where_from_length 0
                    (map negb (map Examples.is_zero_column (Np.coldata X)))) as Hle.
      rewrite !length_map in Hle. unfold Examples.zc_decompose, Np.where_true, Np.shape1.
      simpl. lia.
Qed.

(** *** The whole of [fit_transform] *)

Section EndToEnd.
Import Combos.
Context `{HQR : QR} `{HU : FrameUtils} (laws : QRLaws).

Lemma delete_from_subseteq {A} (k : nat) (bad : gset nat) (l : list A) :
  Np.delete_from k bad l ⊆ l.
Proof.
  revert k. induction l as [|a l IH]; intros k; simpl; [reflexivity|].
  destruct (decide (k ∈ bad)).
  - intros y Hy. right. apply (IH (S k)), Hy.
  - intros y Hy. apply elem_of_cons in Hy as [->|Hy]; [left|right; apply (IH (S k)), Hy].
Qed.

Lemma take_idx_subseteq {A} (l : list A) (idx : list nat) (r : list A) :
  Np.take_idx l idx = Ok r -> r ⊆ l.
Proof.
  intros Hr. apply mapM_Ok in Hr. intros y Hy.
  apply list_elem_of_lookup in Hy as [n Hn].
  destruct (Forall2_lookup_r _ _ _ _ _ Hr Hn) as (j & _ & Hget).
  apply getitem_Ok in Hget. eapply list_elem_of_lookup_2, Hget.
Qed.

(** The names dropped by the loop are names it was given. *)
Lemma while_lc_drops (fuel : nat) (lc : option (gmap nat (list nat))) (w w' : work)
    (all : list string) :
  while_lc fuel lc w = Ok w' ->
  names w ⊆ all -> drops w ⊆ all -> drops w' ⊆ all.
Proof.
  revert lc w. induction fuel as [|fuel IH]; intros lc w; destruct lc as [d|]; simpl;
    try discriminate; try (intros [= <-]; auto; fail).
  unfold mbind, outcome_bind.
  destruct (remove_bad d w) as [w1| |] eqn:Hw1; try discriminate.
  destruct (_enum_lc _) as [lc1| |]; try discriminate.
  intros Hrun Hn Hd.
  destruct (remove_bad_inv d w w1 Hw1) as (bad & bad_nms & _ & _ & Hnms & _ & Hn1 & Hd1).
  apply (IH lc1 w1 Hrun).
  - rewrite Hn1. etransitivity; [apply delete_from_subseteq|exact Hn].
  - rewrite Hd1. intros y Hy. apply elem_of_app in Hy as [Hy|Hy]; [apply Hd, Hy|].
    apply Hn. eapply take_idx_subseteq; eauto.
Qed.

(** On a frame where no label comes twice, [df[cols]] has one column for
    each label asked, the column of the frame that carries it. *)
Lemma select_unique (X sub : Pd.DataFrame) (cols : list string) :
  NoDup (Pd.columns X) -> Pd.select X cols = Ok sub ->
  Pd.index sub = Pd.index X /\
  Forall2 (fun nm c => fst c = nm /\ c ∈ Pd.coldata X) cols (Pd.coldata sub).
Proof.
  intros Hnd. unfold Pd.select, mbind, outcome_bind.
  destruct (mapM _ cols) as [cs| |] eqn:Hcs; try discriminate.
  intros [= <-]. simpl. split; [reflexivity|]. apply mapM_Ok in Hcs.
  induction Hcs as [|nm l cols cs Hl _ IH]; simpl; [constructor|].
  destruct (filter _ (Pd.coldata X)) as [|c0 rest] eqn:Hf; [discriminate|].
  injection Hl as <-.
  assert (Hin : c0 ∈ filter (fun c : string * list float => fst c = nm) (Pd.coldata X))
    by (rewrite Hf; left).
  apply list_elem_of_filter in Hin as [Hnm Hin].
  destruct (filter_unique_label nm (Pd.coldata X) Hnd) as (a & _ & Hone).
  { unfold Pd.columns in *. rewrite <- Hnm. apply list_elem_of_fmap. eauto. }
  rewrite Hf in Hone. injection Hone as -> ->. simpl.
  constructor; [split; [reflexivity|exact Hin]|exact IH].
Qed.

Lemma select_columns (X sub : Pd.DataFrame) (cols : list string) :
  NoDup (Pd.columns X) -> Pd.select X cols = Ok sub ->
  length (Pd.coldata sub) = length cols /\ cols ⊆ Pd.columns X.
Proof.
  intros Hnd Hsel. destruct (select_unique X sub cols Hnd Hsel) as [_ Hall]. split.
  - symmetry. eapply Forall2_length, Hall.
  - intros nm Hnm. apply list_elem_of_lookup in Hnm as [n Hn].
    destruct (Forall2_lookup_l _ _ _ _ _ Hall Hn) as (c & _ & <- & Hc).
    unfold Pd.columns. apply list_elem_of_fmap. eauto.
Qed.

(** [fit_transform] returns on every frame that passes the validation and
    carries no label twice, with as much fuel as the frame has columns to
    examine. *)
Lemma fit_transform_returns (self : LinearCombinationFilterer) (X sub : Pd.DataFrame)
    (self_cols : option (list string)) :
  validate_is_pd X (cols self) true = Ok (X, self_cols) ->
  Select._validate_cols self_cols = Ok tt ->
  NoDup (Pd.columns X) ->
  Pd.select X (_cols_if_none X self_cols) = Ok sub ->
  exists drop_ out,
    fit_transform (length (_cols_if_none X self_cols)) self X = Ok (drop_, out) /\
    drop_ ⊆ _cols_if_none X self_cols.
Proof.
  intros Hvalid Hcols Hnd Hsel.
  destruct (select_columns _ _ _ Hnd Hsel) as [Hlen Hsub].
  set (w := {| x := Pd.as_matrix sub; names := _cols_if_none X self_cols; drops := [] |}).
  assert (Hnames : length (names w) = Np.shape1 (x w)).
  { unfold w, Np.shape1. simpl. rewrite length_map. symmetry. exact Hlen. }
  destruct (enum_lc_lawful laws (x w)) as (lc & Hlc & _).
  destruct (while_lc_terminates laws (length (_cols_if_none X self_cols)) lc w Hnames Hlc)
    as (w' & Hw' & _); [rewrite <- Hnames; reflexivity|].
  pose proof (while_lc_drops _ _ _ _ (_cols_if_none X self_cols) Hw') as Hdrops.
  assert (Hd : drops w' ⊆ _cols_if_none X self_cols).
  { apply Hdrops; [reflexivity|]. intros y Hy. inversion Hy. }
  unfold fit_transform. rewrite Hvalid. simpl. rewrite Hcols. simpl. rewrite Hsel. simpl.
  change (Pd.as_matrix sub) with (x w). rewrite Hlc. simpl.
  change {| x := Pd.as_matrix sub; names := _cols_if_none X self_cols; drops := [] |} with w.
  rewrite Hw'. simpl.
  set (drop_ := elements (list_to_set (drops w') : gset string)).
  assert (Hdrop_ : drop_ ⊆ _cols_if_none X self_cols).
  { intros y Hy. apply Hd. unfold drop_ in Hy.
    apply elem_of_elements, elem_of_list_to_set in Hy. exact Hy. }
  unfold Pd.drop_columns. rewrite decide_True.
  - simpl. do 2 eexists. split; [reflexivity|exact Hdrop_].
  - apply Forall_forall. intros nm Hnm. apply Hsub, Hdrop_, Hnm.
Qed.
End EndToEnd.

(** *** The claims on the resolver *)

Lemma drop_columns_nil (X : Pd.DataFrame) : Pd.drop_columns X [] = Ok X.
Proof.
  unfold Pd.drop_columns.
  destruct (decide (Forall (fun nm => nm ∈ Pd.columns X) [])) as [_|Hn];
    [|exfalso; apply Hn; constructor].
  assert (Hall : filter (fun c : string * list float => fst c ∉ []) (Pd.coldata X)
                 = Pd.coldata X).
  { induction (Pd.coldata X) as [|c l IH]; [reflexivity|].
    rewrite filter_cons, decide_True by apply not_elem_of_nil. rewrite IH. reflexivity. }
  rewrite Hall. destruct X; reflexivity.
Qed.

Section ResolverClaims.
Import Combos.

(** C6: on a matrix whose decomposition has as many independent columns as
    the matrix has columns, [_enum_lc] finds nothing, the loop body never
    runs (no fuel is needed), the drop list is empty and the frame comes
    back as it was given, column for column. *)
Theorem full_rank_is_a_no_op `{HQR : QR} `{HU : FrameUtils}
    (fuel : nat) (self : LinearCombinationFilterer) (X sub : Pd.DataFrame)
    (self_cols : option (list string)) :
  validate_is_pd X (cols self) true = Ok (X, self_cols) ->
  Select._validate_cols self_cols = Ok tt ->
  Pd.select X (_cols_if_none X self_cols) = Ok sub ->
  get_rank (QRDecomposition (Pd.as_matrix sub))
  = Np.shape1 (get_R (QRDecomposition (Pd.as_matrix sub))) ->
  _enum_lc (QRDecomposition (Pd.as_matrix sub)) = Ok None /\
  fit_transform fuel self X
  = Ok ([], if as_df self then inl X else inr (Pd.as_matrix X)).
Proof.
  intros Hvalid Hcols Hsel Hrank.
  assert (Hnone : _enum_lc (QRDecomposition (Pd.as_matrix sub)) = Ok None).
  { unfold _enum_lc. rewrite Hrank, Nat.eqb_refl. reflexivity. }
  split; [exact Hnone|].
  unfold fit_transform. rewrite Hvalid. simpl. rewrite Hcols. simpl.
  rewrite Hsel. simpl. rewrite Hnone. simpl.
  destruct fuel; simpl; rewrite elements_empty, drop_columns_nil; reflexivity.
Qed.

Lemma full_rank_is_a_no_op_witness :
  @_enum_lc Examples.zc_qr (QRDecomposition (Pd.as_matrix Examples.unit_frame)) = Ok None /\
  @fit_transform Examples.zc_qr Examples.spec_utils 0 (mk_lcf None true) Examples.unit_frame
  = Ok ([], inl Examples.unit_frame).
Proof.
  apply (@full_rank_is_a_no_op Examples.zc_qr Examples.spec_utils 0 (mk_lcf None true)
           Examples.unit_frame Examples.unit_frame None); vm_compute; reflexivity.
Defined.

(** C5: every record that [_enum_lc] builds starts with the pivoted index
    of its dependent column and goes on with the pivoted indices of the
    regressors whose zapped coefficient is not zero; the columns that a
    pass marks as bad and deletes, from the matrix and from the names, are
    exactly the first indices of its records; and, the pivot being a
    permutation, a pass deletes one column for each record. *)
Theorem records_and_bad_columns `{HQR : QR} :
  (forall decomp lc,
      _enum_lc decomp = Ok (Some lc) ->
      let R := get_R decomp in
      let rank := get_rank decomp in
      exists b,
        get_coef (QRDecomposition (Np.slice_upto R rank rank)) (Np.slice_from R rank rank)
        = Some b /\
        forall i rec, lc !! i = Some rec ->
          exists own bi others,
            pivot decomp !! (rank + i) = Some own /\
            Np.column (Np.map_entries Np.zap b) i = Ok bi /\
            Np.take_idx (pivot decomp)
              (Np.where_true (map (fun v => Np.neb v 0) bi)) = Ok others /\
            rec = own :: others)
  /\
  (forall lc w w',
      remove_bad lc w = Ok w' ->
      exists bad bad_nms,
        (forall j, j ∈ bad <-> exists i rec, lc !! i = Some rec /\ rec !! 0 = Some j) /\
        Np.take_idx (names w) (elements bad) = Ok bad_nms /\
        x w' = Np.delete_columns (x w) bad /\
        names w' = Np.delete (names w) bad /\
        drops w' = drops w ++ bad_nms)
  /\
  (QRLaws ->
   forall lc w,
      length (names w) = Np.shape1 (x w) ->
      _enum_lc (QRDecomposition (x w)) = Ok (Some lc) ->
      exists w', remove_bad lc w = Ok w' /\
                 Np.shape1 (x w') + size lc = Np.shape1 (x w)).
Proof.
  split; [|split].
  - intros decomp lc Hrun R rank.
    destruct (enum_lc_Some decomp lc Hrun) as (_ & b & Hb & Hfill).
    exists b. split; [exact Hb|]. intros i rec Hrec.
    rewrite (fill_dict_spec _ _ _ _ _ _ Hfill i) in Hrec.
    destruct (decide (i ∈ _)) as [_|_]; [|rewrite lookup_empty in Hrec; discriminate].
    destruct (dependency_record _ _ _ i) as [rec'| |] eqn:Hdep; try discriminate.
    injection Hrec as ->.
    destruct (dependency_record_inv _ _ _ _ _ Hdep) as (own & bi & others & Ho & Hbi & Hot & ->).
    exists own, bi, others. split; [apply getitem_Ok, Ho|]. auto.
  - intros lc w w' Hrun.
    destruct (remove_bad_inv lc w w' Hrun) as (bad & bad_nms & Hbad & _ & Hnms & Hx & Hn & Hd).
    exists bad, bad_nms. split; [apply first_indices_spec, Hbad|]. auto.
  - intros laws lc w Hnames Hrun.
    destruct (enum_lc_lawful laws (x w)) as (r & Hr & Hrecs).
    rewrite Hrun in Hr. injection Hr as <-.
    destruct (remove_bad_lawful laws lc w Hnames (Hrecs lc eq_refl)) as (w' & Hw' & Hsz & _).
    eauto.
Qed.

Lemma records_and_bad_columns_witness :
  (exists w', @remove_bad (<[0 := [1]]> ∅)
                {| x := Pd.as_matrix Examples.unit_zero_frame;
                   names := ["a"; "z"; "b"]; drops := [] |} = Ok w' /\
              Np.shape1 (x w') + size (<[0 := [1]]> ∅ : gmap nat (list nat)) = 3)
  /\
  (exists bad bad_nms,
      (forall j, j ∈ bad <->
                 exists i rec, (<[0 := [1]]> ∅ : gmap nat (list nat)) !! i = Some rec /\
                               rec !! 0 = Some j) /\
      Np.take_idx ["a"; "z"; "b"] (elements bad) = Ok bad_nms /\
      Np.mk_ndarray 2 [[1; 0]%float; [0; 1]%float]
      = Np.delete_columns (Pd.as_matrix Examples.unit_zero_frame) bad /\
      ["a"; "b"] = Np.delete ["a"; "z"; "b"] bad /\
      ["z"] = [] ++ bad_nms).
Proof.
  split.
  - apply (proj2 (proj2 (@records_and_bad_columns Examples.zc_qr)) zc_qr_laws
             (<[0 := [1]]> ∅)
             {| x := Pd.as_matrix Examples.unit_zero_frame;
                names := ["a"; "z"; "b"]; drops := [] |});
      vm_compute; reflexivity.
  - apply (proj1 (proj2 (@records_and_bad_columns Examples.zc_qr))
             (<[0 := [1]]> ∅)
             {| x := Pd.as_matrix Examples.unit_zero_frame;
                names := ["a"; "z"; "b"]; drops := [] |}
             {| x := Np.mk_ndarray 2 [[1; 0]%float; [0; 1]%float];
                names := ["a"; "b"]; drops := ["z"] |}).
    vm_compute. reflexivity.
Defined.

(** C4, as stated, fails on the last part: with a lawful decomposition a
    single column of zeros has rank 0, the regression on the empty set of
    independent columns has no coefficients, [_enum_lc] answers None and
    the resolver returns the column, which is not of full column rank. *)
Lemma zero_column_stops_rank_deficient :
  @QRLaws Examples.zc_qr /\
  @get_rank Examples.zc_qr (QRDecomposition (Pd.as_matrix Examples.zero_frame)) = 0 /\
  Np.shape1 (Pd.as_matrix Examples.zero_frame) = 1 /\
  @_enum_lc Examples.zc_qr (QRDecomposition (Pd.as_matrix Examples.zero_frame)) = Ok None /\
  @fit_transform Examples.zc_qr Examples.spec_utils 1 (mk_lcf None true) Examples.zero_frame
  = Ok ([], inl Examples.zero_frame).
Proof.
  split; [exact zc_qr_laws|]. repeat split; vm_compute; reflexivity.
Qed.

(** C4, amended: under the laws of the decomposition, on a matrix of [p]
    columns the loop returns within [p] passes; every pass that finds a
    dependency deletes at least one column; and when the loop stops, the
    decomposition of the retained columns reports full column rank, or the
    regression on its independent columns returned no coefficients. *)
Theorem resolver_terminates `{HQR : QR} (laws : QRLaws) (w : work) :
  length (names w) = Np.shape1 (x w) ->
  (exists lc w',
      _enum_lc (QRDecomposition (x w)) = Ok lc /\
      while_lc (Np.shape1 (x w)) lc w = Ok w' /\
      Np.shape1 (x w') <= Np.shape1 (x w) /\
      _enum_lc (QRDecomposition (x w')) = Ok None /\
      let d' := QRDecomposition (x w') in
      let R' := get_R d' in
      let rank' := get_rank d' in
      (rank' = Np.shape1 (x w') \/
       get_coef (QRDecomposition (Np.slice_upto R' rank' rank'))
                (Np.slice_from R' rank' rank') = None))
  /\
  (forall w1 lc1,
      length (names w1) = Np.shape1 (x w1) ->
      _enum_lc (QRDecomposition (x w1)) = Ok (Some lc1) ->
      exists w2, remove_bad lc1 w1 = Ok w2 /\ Np.shape1 (x w2) < Np.shape1 (x w1)).
Proof.
  intros Hnames. split.
  - destruct (enum_lc_lawful laws (x w)) as (lc & Hlc & _).
    destruct (while_lc_terminates laws (Np.shape1 (x w)) lc w Hnames Hlc (le_n _))
      as (w' & Hw' & Hle & _ & Hend).
    exists lc, w'. repeat (split; [assumption|]).
    intros d' R' rank'. destruct (enum_lc_None _ Hend) as [Hfull|Hcoef].
    + left. unfold rank', d'. rewrite Hfull. apply (R_columns laws).
    + right. exact Hcoef.
  - intros w1 lc1 Hnames1 Hrun.
    destruct (enum_lc_lawful laws (x w1)) as (r & Hr & Hrecs).
    rewrite Hrun in Hr. injection Hr as <-.
    destruct (remove_bad_lawful laws lc1 w1 Hnames1 (Hrecs lc1 eq_refl))
      as (w2 & Hw2 & Hsz & Hpos & _).
    exists w2. split; [exact Hw2|lia].
Qed.

Lemma resolver_terminates_witness :
  exists lc w',
    @_enum_lc Examples.zc_qr (QRDecomposition (Pd.as_matrix Examples.unit_zero_frame)) = Ok lc /\
    @while_lc Examples.zc_qr 3 lc
      {| x := Pd.as_matrix Examples.unit_zero_frame; names := ["a"; "z"; "b"]; drops := [] |}
    = Ok w'.
Proof.
  destruct (proj1 (@resolver_terminates Examples.zc_qr zc_qr_laws
              {| x := Pd.as_matrix Examples.unit_zero_frame;
                 names := ["a"; "z"; "b"]; drops := [] |} eq_refl))
    as (lc & w' & Hlc & Hw' & _).
  exists lc, w'. split; [exact Hlc|exact Hw'].
Defined.

(** The resolver on two unit columns around a column of zeros: one pass
    drops the column of zeros, the next decomposition is of full rank. *)
Example resolver_drops_zero_column :
  @fit_transform Examples.zc_qr Examples.spec_utils 3 (mk_lcf None true)
    Examples.unit_zero_frame
  = Ok (["z"], inl Examples.unit_frame).
Proof. vm_compute. reflexivity. Qed.
End ResolverClaims.

(* ===================================================================== *)
(** ** The order of binary64 values *)
(* ===================================================================== *)

Section FloatTotalOrder.

(** A number is placed by its class, then its exponent, then its
    mantissa; the comparison of two numbers compares these places. *)
Lemma SFcompare_place (a b : spec_float) :
  SFcompare a b =
  match Order.place a, Order.place b with
  | Some ka, Some kb => Some (Order.lex ka kb)
  | _, _ => None
  end.
Proof.
  destruct a as [sa|sa| |sa ma ea], b as [sb|sb| |sb mb eb]; simpl;
    try reflexivity;
    repeat match goal with s : bool |- _ => destruct s end; simpl; try reflexivity.
  unfold Order.lex. cbn [fst snd]. rewrite Z.compare_opp, (Z.compare_antisym ea eb).
  change (-1 ?= -1)%Z with Eq. cbv iota.
  destruct (ea ?= eb)%Z; reflexivity.
Qed.

Lemma lex_Lt (a b : Z * Z * Z) :
  Order.lex a b = Lt <-> Order.lex_lt a b.
Proof.
  destruct a as [[a1 a2] a3], b as [[b1 b2] b3]. unfold Order.lex, Order.lex_lt. simpl.
  destruct (Z.compare_spec a1 b1); [|split; [lia|intros _; reflexivity]
                                    |split; [discriminate|lia]].
  destruct (Z.compare_spec a2 b2); [|split; [lia|intros _; reflexivity]
                                    |split; [discriminate|lia]].
  destruct (Z.compare_spec a3 b3); split; try discriminate; try lia; reflexivity.
Qed.

Lemma lex_Eq (a b : Z * Z * Z) : Order.lex a b = Eq <-> a = b.
Proof.
  destruct a as [[a1 a2] a3], b as [[b1 b2] b3]. unfold Order.lex. simpl.
  destruct (Z.compare_spec a1 b1), (Z.compare_spec a2 b2), (Z.compare_spec a3 b3);
    subst; split; intros E; try discriminate E; try reflexivity;
    injection E; intros; lia.
Qed.

Local Open Scope float_scope.

Lemma ltb_place (a b : float) :
  (a <? b) = true <->
  exists ka kb, Order.place (Prim2SF a) = Some ka /\ Order.place (Prim2SF b) = Some kb /\
                Order.lex_lt ka kb.
Proof.
  rewrite FloatAxioms.ltb_spec. unfold SFltb. rewrite SFcompare_place.
  destruct (Order.place (Prim2SF a)) as [ka|], (Order.place (Prim2SF b)) as [kb|];
    try (split; [discriminate|intros (? & ? & ? & ? & _); discriminate]).
  split.
  - destruct (Order.lex ka kb) eqn:E; try discriminate. intros _.
    exists ka, kb. rewrite <- lex_Lt. auto.
  - intros (? & ? & [= <-] & [= <-] & Hlt). apply lex_Lt in Hlt. rewrite Hlt. reflexivity.
Qed.

Lemma leb_place (a b : float) :
  (a <=? b) = true <->
  exists ka kb, Order.place (Prim2SF a) = Some ka /\ Order.place (Prim2SF b) = Some kb /\
                (Order.lex_lt ka kb \/ ka = kb).
Proof.
  rewrite FloatAxioms.leb_spec. unfold SFleb. rewrite SFcompare_place.
  destruct (Order.place (Prim2SF a)) as [ka|], (Order.place (Prim2SF b)) as [kb|];
    try (split; [discriminate|intros (? & ? & ? & ? & _); discriminate]).
  split.
  - destruct (Order.lex ka kb) eqn:E; try discriminate; intros _; exists ka, kb.
    + apply lex_Eq in E. auto.
    + apply lex_Lt in E. auto.
  - intros (? & ? & [= <-] & [= <-] & [Hlt| ->]).
    + apply lex_Lt in Hlt. rewrite Hlt. reflexivity.
    + rewrite (proj2 (lex_Eq kb kb) eq_refl). reflexivity.
Qed.

Lemma not_nan_place (a : float) :
  is_nan a = false <-> exists ka, Order.place (Prim2SF a) = Some ka.
Proof.
  unfold is_nan. rewrite FloatAxioms.eqb_spec. unfold SFeqb. rewrite SFcompare_place.
  destruct (Order.place (Prim2SF a)) as [ka|].
  - rewrite (proj2 (lex_Eq ka ka) eq_refl). split; eauto.
  - split; [discriminate|intros [? ?]; discriminate].
Qed.

Lemma lex_lt_trans (a b c : Z * Z * Z) :
  Order.lex_lt a b -> Order.lex_lt b c -> Order.lex_lt a c.
Proof.
  destruct a as [[a1 a2] a3], b as [[b1 b2] b3], c as [[c1 c2] c3].
  unfold Order.lex_lt. simpl. lia.
Qed.

Lemma lex_lt_total (a b : Z * Z * Z) :
  Order.lex_lt a b \/ a = b \/ Order.lex_lt b a.
Proof.
  destruct a as [[a1 a2] a3], b as [[b1 b2] b3]. unfold Order.lex_lt. simpl.
  destruct (Z.lt_total a1 b1) as [|[|]], (Z.lt_total a2 b2) as [|[|]],
    (Z.lt_total a3 b3) as [|[|]]; subst; auto; lia.
Qed.

(** [a <= b] and [b < c] give [a < c]. *)
Lemma float_leb_ltb_trans (a b c : float) :
  (a <=? b) = true -> (b <? c) = true -> (a <? c) = true.
Proof.
  rewrite leb_place, !ltb_place.
  intros (ka & kb & Ha & Hb & Hab) (kb' & kc & Hb' & Hc & Hbc).
  rewrite Hb in Hb'. injection Hb' as <-.
  exists ka, kc. repeat split; try assumption.
  destruct Hab as [Hab| ->]; [eapply lex_lt_trans; eassumption|assumption].
Qed.

Lemma float_leb_trans (a b c : float) :
  (a <=? b) = true -> (b <=? c) = true -> (a <=? c) = true.
Proof.
  rewrite !leb_place.
  intros (ka & kb & Ha & Hb & Hab) (kb' & kc & Hb' & Hc & Hbc).
  rewrite Hb in Hb'. injection Hb' as <-.
  exists ka, kc. repeat split; try assumption.
  destruct Hab as [Hab| ->], Hbc as [Hbc| <-]; auto.
  left. eapply lex_lt_trans; eassumption.
Qed.

Lemma float_leb_refl (a : float) : is_nan a = false -> (a <=? a) = true.
Proof.
  rewrite not_nan_place, leb_place. intros [ka Ha]. exists ka, ka. auto.
Qed.

Lemma float_ltb_leb (a b : float) : (a <? b) = true -> (a <=? b) = true.
Proof.
  rewrite ltb_place, leb_place. intros (ka & kb & Ha & Hb & Hab). exists ka, kb. auto.
Qed.

(** Among numbers, [a < b] or [b <= a]. *)
Lemma float_ltb_false_leb (a b : float) :
  is_nan a = false -> is_nan b = false -> (a <? b) = false -> (b <=? a) = true.
Proof.
  rewrite !not_nan_place. intros [ka Ha] [kb Hb] Hlt.
  apply leb_place. exists kb, ka. repeat split; try assumption.
  destruct (lex_lt_total ka kb) as [Hab|[->|Hba]]; auto.
  exfalso. assert ((a <? b) = true) as Hc; [|congruence].
  apply ltb_place. exists ka, kb. auto.
Qed.
End FloatTotalOrder.

(* ===================================================================== *)
(** ** numpy's sum *)
(* ===================================================================== *)

Section PairwiseSum.

(** The splits of [pairwise_sum] end: each part of an array of more than
    128 entries is shorter than the array, so a depth of the length of the
    array less 128 is enough, and more changes nothing. *)
Lemma pairwise_sum_depth (depth depth' : nat) (l : list float) :
  length l <= 128 + depth -> depth <= depth' ->
  Np.pairwise_sum depth' l = Np.pairwise_sum depth l.
Proof.
  revert depth' l. induction depth as [|depth IH]; intros depth' l Hlen Hle.
  - destruct depth' as [|depth']; [reflexivity|]. simpl.
    destruct (Nat.leb_spec (length l) 128); [reflexivity|lia].
  - destruct depth' as [|depth']; [lia|]. cbn [Np.pairwise_sum].
    destruct (Nat.leb_spec (length l) 128) as [|Hbig]; [reflexivity|]. cbv zeta.
    assert (Hpos : 0 < length l / 2 - (length l / 2) mod 8
                   /\ length l / 2 - (length l / 2) mod 8 < length l).
    { pose proof (Nat.div_mod_eq (length l) 2) as H2.
      pose proof (Nat.mod_upper_bound (length l) 2 ltac:(lia)) as H2'.
      pose proof (Nat.mod_upper_bound (length l / 2) 8 ltac:(lia)) as H8.
      lia. }
    rewrite (IH depth' (take _ l)), (IH depth' (drop _ l)); try lia; try reflexivity.
    + rewrite length_drop. lia.
    + rewrite length_take. lia.
Qed.

(** The sum of an array takes all the depth that its splits need. *)
Lemma sum_depth (depth : nat) (l : list float) :
  length l <= depth -> Np.sum l = (0 + Np.pairwise_sum depth l)%float.
Proof.
  intros Hle. unfold Np.sum. f_equal. symmetry. apply pairwise_sum_depth; lia.
Qed.

(** Fewer than eight entries are added left to right. *)
Lemma sum_short (l : list float) :
  length l < 8 -> Np.sum l = (0 + fold_left (fun a v => a + v) l 0)%float.
Proof.
  intros Hlen. unfold Np.sum. f_equal.
  assert (Hblock : Np.pairwise_sum (length l) l = Np.block_sum l).
  { destruct (length l) eqn:E; [reflexivity|]. simpl. rewrite E.
    destruct (Nat.leb_spec (S n) 128); [reflexivity|lia]. }
  rewrite Hblock.
  do 8 (destruct l as [|? l]; [reflexivity|]). simpl in Hlen. lia.
Qed.
End PairwiseSum.

(* ===================================================================== *)
(** ** What the collinearity resolver leaves behind *)
(* ===================================================================== *)

Section SortedValues.
Local Open Scope float_scope.

Lemma insert_sorted_sorted {A} (x : A * float) (l : list (A * float)) :
  is_nan (snd x) = false -> Forall (fun e => is_nan (snd e) = false) l ->
  StronglySorted Order.le_value l -> StronglySorted Order.le_value (Np.insert_sorted x l).
Proof.
  intros Hx Hl Hs. induction Hs as [|y l Hs IH Hy]; simpl.
  - repeat constructor.
  - apply Forall_cons in Hl as [Hy' Hl].
    destruct (snd x <? snd y) eqn:Hlt.
    + constructor; [constructor; assumption|].
      assert (Hxy : Order.le_value x y) by (apply float_ltb_leb, Hlt).
      constructor; [exact Hxy|].
      eapply Forall_impl; [exact Hy|]. intros e He. eapply float_leb_trans; eassumption.
    + constructor; [apply IH, Hl|].
      rewrite insert_sorted_perm. constructor; [|exact Hy].
      apply float_ltb_false_leb; assumption.
Qed.

Lemma argsort_sorted {A} (l : list (A * float)) :
  Forall (fun e => is_nan (snd e) = false) l -> StronglySorted Order.le_value (Np.argsort l).
Proof.
  unfold Np.argsort.
  enough (Hgen : forall acc,
             Forall (fun e => is_nan (snd e) = false) acc -> StronglySorted Order.le_value acc ->
             Forall (fun e => is_nan (snd e) = false) l ->
             StronglySorted Order.le_value (fold_left (fun acc x => Np.insert_sorted x acc) l acc)).
  { intros Hl. apply Hgen; [constructor|constructor|exact Hl]. }
  induction l as [|x l IH]; intros acc Hacc Hs Hl; simpl; [exact Hs|].
  apply Forall_cons in Hl as [Hx Hl]. apply IH; [|apply insert_sorted_sorted; assumption|exact Hl].
  rewrite insert_sorted_perm. constructor; assumption.
Qed.

(** The last value of the sorted series is NaN only when every value is,
    and otherwise it is a number that no number of the series exceeds. *)
Lemma sort_values_last (s : Pd.Series) (m : float) :
  getlast (map snd (Pd.sort_values_na_first s)) = Ok m ->
  (is_nan m = true /\ Forall (fun e => is_nan (snd e) = true) s) \/
  (is_nan m = false /\
   forall e, e ∈ s -> is_nan (snd e) = false -> (snd e <=? m) = true).
Proof.
  unfold Pd.sort_values_na_first, Np.isnull.
  set (nans := filter (fun e : string * float => is_nan (snd e) = true) s).
  set (nums := filter (fun e : string * float => is_nan (snd e) = false) s).
  assert (Hnums : Forall (fun e : string * float => is_nan (snd e) = false) nums).
  { apply Forall_forall. intros e He. apply list_elem_of_filter in He as [? _]. assumption. }
  pose proof (argsort_sorted nums Hnums) as Hsorted.
  pose proof (argsort_perm nums) as Hperm.
  destruct (Np.argsort nums) as [|e0 l _] using rev_ind.
  - (* no number at all *)
    rewrite app_nil_r. intros Hlast. left.
    assert (Hnone : nums = []).
    { apply Permutation_nil_r. symmetry. exact Hperm. }
    assert (Hall : Forall (fun e : string * float => is_nan (snd e) = true) s).
    { apply Forall_forall. intros e He. destruct (is_nan (snd e)) eqn:E; [reflexivity|].
      assert (e ∈ nums) as Hin by (apply list_elem_of_filter; auto).
      rewrite Hnone in Hin. inversion Hin. }
    split; [|exact Hall].
    apply getlast_elem in Hlast.
    apply list_elem_of_In, in_map_iff in Hlast as (e & <- & He).
    apply list_elem_of_In, list_elem_of_filter in He as [? _]. assumption.
  - intros Hlast. right.
    rewrite app_assoc, map_app in Hlast. simpl in Hlast.
    rewrite getlast_snoc in Hlast. injection Hlast as <-.
    assert (He0 : is_nan (snd e0) = false).
    { assert (e0 ∈ nums) as Hin by (rewrite <- Hperm; apply elem_of_app; right; left).
      rewrite Forall_forall in Hnums. apply Hnums, Hin. }
    split; [exact He0|]. intros e He Hnum.
    assert (Hin : e ∈ l ++ [e0]).
    { rewrite Hperm. apply list_elem_of_filter. auto. }
    apply elem_of_app in Hin as [Hin|Hin].
    + eapply (StronglySorted_app_1_elem_of Order.le_value l [e0]); [exact Hsorted|exact Hin|left].
    + apply list_elem_of_singleton in Hin as ->. apply float_leb_refl, He0.
Qed.
End SortedValues.

Section AfterTheScan.
Import Select Scan Settled.

(** A scan that ends with [finished] set has skipped every column it
    visited and has left the frame alone. *)
Lemma for_loop_finished threshold k rest l c l' c' :
  for_loop threshold (enumerate_from k rest) l c = (Ok l', c') ->
  k + length rest = length (Pd.columns c) ->
  finished l = false -> finished l' = true ->
  c' = c /\ rest ≠ [] /\ Forall (skipped threshold c) rest /\
  drops l' = drops l /\ macor l' = macor l /\ corrz l' = corrz l.
Proof.
  revert k l. induction rest as [|nm rest IH]; intros k l; simpl; run_inplace.
  - intros [= <- <-] _ Hf Hf'. congruence.
  - destruct (for_body threshold k nm l c) as [[[fl l1]| |] c1] eqn:Hbody; try discriminate.
    apply for_body_turn in Hbody.
    destruct Hbody as [sorted max_cor Hthis Hmax Hskip
                      |sorted max_cor other that Hthis Hmax Hskip Hother Hthat mn_1 mn_2 d Hc Hi];
      simpl.
    + intros Hrest Hk Hf Hf'.
      assert (Hnm : skipped threshold c nm) by (exists sorted, max_cor; auto).
      destruct rest as [|nm' rest].
      * simpl in Hrest. injection Hrest as <- <-.
        split; [reflexivity|]. split; [discriminate|]. split; [repeat constructor; exact Hnm|].
        destruct (_ =? _)%Z; auto.
      * destruct (Z.eqb_spec (Z.of_nat k) (Z.of_nat (length (Pd.columns c)) - 1));
          [simpl in Hk; lia|].
        destruct (IH (S k) l Hrest) as (-> & _ & Hall & Hd & Hm & Hz);
          [simpl in *; lia|exact Hf|exact Hf'|].
        split; [reflexivity|]. split; [discriminate|]. split; [constructor; assumption|]. auto.
    + intros [= <- <-] _ Hf Hf'. simpl in Hf'. congruence.
Qed.

(** When the outer loop returns, the frame it leaves is settled. *)
Lemma while_loop_settled fuel threshold l c l' c' :
  while_loop fuel threshold l c = (Ok l', c') -> finished l = false ->
  settled threshold c' /\ Pd.columns c' ≠ [].
Proof.
  revert l c. induction fuel as [|fuel IH]; intros l c; simpl.
  - intros Hrun Hf. rewrite Hf in Hrun. discriminate.
  - intros Hrun Hf. rewrite Hf in Hrun. run_inplace.
    destruct (for_loop threshold (enumerate (Pd.columns c)) l c) as [[l1| |] c1] eqn:Hfor;
      try discriminate.
    destruct (finished l1) eqn:Hf1.
    + assert (while_loop fuel threshold l1 c1 = (Ok l1, c1)) as Hstop.
      { destruct fuel; simpl; rewrite Hf1; reflexivity. }
      rewrite Hstop in Hrun. injection Hrun as <- <-.
      destruct (for_loop_finished _ _ _ _ _ _ _ Hfor eq_refl Hf Hf1) as (-> & Hne & Hall & _).
      split; assumption.
    + eapply IH; eassumption.
Qed.

(** Every column skips: the scan sets [finished] and changes nothing. *)
Lemma for_loop_settled threshold k rest l c :
  Forall (skipped threshold c) rest -> rest ≠ [] ->
  k + length rest = length (Pd.columns c) ->
  for_loop threshold (enumerate_from k rest) l c
  = (Ok (mk_locals true (drops l) (macor l) (corrz l)), c).
Proof.
  intros Hall. revert k l. induction Hall as [|nm rest Hnm Hall IH]; intros k l Hne Hk;
    [congruence|].
  destruct Hnm as (sorted & max_cor & Hthis & Hmax & Hskip).
  simpl. run_inplace.
  rewrite (turn_for_body _ _ _ _ _ _ _ _ (turn_skip threshold k nm l c sorted max_cor
                                            Hthis Hmax Hskip)).
  simpl. destruct rest as [|nm' rest].
  - simpl. destruct (Z.eqb_spec (Z.of_nat k) (Z.of_nat (length (Pd.columns c)) - 1));
      [reflexivity|simpl in Hk; lia].
  - destruct (Z.eqb_spec (Z.of_nat k) (Z.of_nat (length (Pd.columns c)) - 1));
      [simpl in Hk; lia|].
    apply IH; [discriminate|simpl in *; lia].
Qed.

Lemma settled_no_op fuel threshold c :
  fst (Pd.shape c) = snd (Pd.shape c) -> Pd.columns c ≠ [] -> settled threshold c ->
  filter_collinearity (S fuel) threshold c = (Ok ([], [], []), c).
Proof.
  intros Hsq Hne Hall. unfold filter_collinearity. run_inplace.
  rewrite Hsq, Nat.eqb_refl. simpl. run_inplace.
  unfold enumerate. rewrite (for_loop_settled threshold 0 (Pd.columns c) _ c Hall Hne eq_refl).
  simpl. destruct fuel; reflexivity.
Qed.
End AfterTheScan.

Section ResolverPostconditions.
Import Select Scan Settled.

Lemma filter_collinearity_while fuel threshold c r c' :
  filter_collinearity fuel threshold c = (Ok r, c') ->
  fst (Pd.shape c) = snd (Pd.shape c) /\
  exists l', while_loop fuel threshold (mk_locals false [] [] []) c = (Ok l', c') /\
             r = (drops l', macor l', corrz l').
Proof.
  unfold filter_collinearity. run_inplace.
  destruct (Nat.eqb_spec (fst (Pd.shape c)) (snd (Pd.shape c))) as [Hsq|]; [|discriminate].
  simpl. destruct (while_loop fuel threshold _ c) as [[l1| |] c1] eqn:Hwhile; try discriminate.
  intros [= <- <-]. eauto.
Qed.

(** The values that a skipped column holds besides its own are NaN or
    below the threshold, unless there is one value only. *)
Lemma skipped_below threshold c nm :
  skipped threshold c nm ->
  exists s, Corr.that_col_of c nm = Ok s /\
            (length s ≠ 1 ->
             forall lb v, (lb, v) ∈ s -> is_nan v = false -> (v <? threshold)%float = true).
Proof.
  intros (sorted & max_cor & Hthis & Hmax & Hskip).
  unfold Corr.this_col_of, Corr.that_col_of in *.
  destruct (Pd.getcol c nm) as [col| |]; try discriminate. simpl in *.
  destruct (Pd.series_drop col nm) as [s| |]; try discriminate.
  injection Hthis as <-. exists s. split; [reflexivity|].
  intros Hlen lb v Hin Hv.
  rewrite (Permutation_length (sort_values_perm s)) in Hskip.
  unfold skips, Np.isnull in Hskip.
  apply Nat.eqb_neq in Hlen. rewrite Hlen, orb_false_r in Hskip.
  destruct (sort_values_last s max_cor Hmax) as [[_ Hall]|[Hnum Hle]].
  - rewrite Forall_forall in Hall. apply Hall in Hin. simpl in Hin. congruence.
  - rewrite Hnum in Hskip. simpl in Hskip.
    eapply float_leb_ltb_trans; [|exact Hskip]. apply (Hle (lb, v)); assumption.
Qed.

(** X1: when [filter_collinearity] returns, the frame it leaves has a
    column, the turn of each of its columns skips, and, wherever a column
    has two other columns or more left, every correlation it holds with
    them is NaN or strictly below the threshold. *)
Theorem filter_collinearity_leaves_no_pair
    (fuel : nat) (threshold : float) (c c' : Pd.DataFrame)
    (r : list string * list float * list _MCFTuple) :
  filter_collinearity fuel threshold c = (Ok r, c') ->
  Pd.columns c' ≠ [] /\ settled threshold c' /\
  forall nm, nm ∈ Pd.columns c' ->
    exists s, Corr.that_col_of c' nm = Ok s /\
              (length s ≠ 1 ->
               forall lb v, (lb, v) ∈ s -> is_nan v = false -> (v <? threshold)%float = true).
Proof.
  intros Hrun. apply filter_collinearity_while in Hrun as (_ & l' & Hwhile & _).
  destruct (while_loop_settled _ _ _ _ _ _ Hwhile eq_refl) as [Hall Hne].
  split; [exact Hne|]. split; [exact Hall|].
  intros nm Hnm. apply skipped_below.
  unfold settled in Hall. rewrite Forall_forall in Hall. apply Hall, Hnm.
Qed.

Lemma filter_collinearity_leaves_no_pair_witness :
  exists s, Corr.that_col_of Inputs.three_corr "A" = Ok s /\
            (length s ≠ 1 ->
             forall lb v, (lb, v) ∈ s -> is_nan v = false -> (v <? 0.85)%float = true).
Proof.
  apply (proj2 (proj2 (filter_collinearity_leaves_no_pair 4 0.85 Inputs.four_corr
                         Inputs.three_corr
                         (["B"], [0.55%float], [mk_MCFTuple "B" "A" 0.95 0.55])
                         ltac:(vm_compute; reflexivity)))).
  by_decide.
Defined.

(** X2: a square frame with a column, in which every column holds with
    the others only correlations that are NaN or strictly below the
    threshold, is returned as it is, with three empty lists, after one
    scan. *)
Theorem below_threshold_is_a_no_op (fuel : nat) (threshold : float) (c : Pd.DataFrame) :
  fst (Pd.shape c) = snd (Pd.shape c) -> Pd.columns c ≠ [] ->
  (forall nm, nm ∈ Pd.columns c ->
     exists s, Corr.that_col_of c nm = Ok s /\ s ≠ [] /\
               forall lb v, (lb, v) ∈ s -> is_nan v = true \/ (v <? threshold)%float = true) ->
  filter_collinearity (S fuel) threshold c = (Ok ([], [], []), c).
Proof.
  intros Hsq Hne Hbelow. apply settled_no_op; [exact Hsq|exact Hne|].
  apply Forall_forall. intros nm Hnm.
  destruct (Hbelow nm Hnm) as (s & Hs & Hsne & Hvals).
  unfold Corr.that_col_of in Hs. unfold skipped, Corr.this_col_of.
  destruct (Pd.getcol c nm) as [col| |]; try discriminate. simpl in *.
  rewrite Hs. simpl.
  destruct (getlast_nonempty (map snd (Pd.sort_values_na_first s))) as [m Hm].
  { rewrite length_map, (Permutation_length (sort_values_perm s)).
    destruct s; [congruence|simpl; lia]. }
  exists (Pd.sort_values_na_first s), m. split; [reflexivity|]. split; [exact Hm|].
  apply getlast_elem in Hm.
  apply list_elem_of_In, in_map_iff in Hm as ([lb v] & <- & Hin).
  apply list_elem_of_In in Hin. rewrite (sort_values_perm s) in Hin.
  unfold skips, Np.isnull. simpl.
  destruct (Hvals lb v Hin) as [-> | ->]; [reflexivity|apply orb_true_iff; left; apply orb_true_r].
Qed.

Lemma below_threshold_is_a_no_op_witness :
  filter_collinearity 1 0.85 Inputs.three_corr = (Ok ([], [], []), Inputs.three_corr).
Proof.
  apply (below_threshold_is_a_no_op 0 0.85 Inputs.three_corr).
  - reflexivity.
  - discriminate.
  - intros nm Hnm.
    assert (Hcases : nm = "A" \/ nm = "C" \/ nm = "D").
    { change (nm ∈ ["A"; "C"; "D"]) in Hnm.
      rewrite !elem_of_cons in Hnm. rewrite elem_of_nil in Hnm. tauto. }
    destruct Hcases as [-> | [-> | ->]]; eexists; (split; [vm_compute; reflexivity|]);
      (split; [discriminate|]); intros lb v Hin;
      rewrite !elem_of_cons in Hin; rewrite elem_of_nil in Hin;
      destruct Hin as [[= -> ->]|[[= -> ->]|[]]]; right; vm_compute; reflexivity.
Defined.

(** A frame that was well formed is well formed when the call returns. *)
Lemma filter_collinearity_well_formed fuel threshold c r c' :
  Corr.well_formed c -> filter_collinearity fuel threshold c = (Ok r, c') ->
  Corr.well_formed c'.
Proof.
  intros Hwf Hrun.
  apply (filter_collinearity_lift
           (fun _ c0 _ c1 => Corr.well_formed c0 -> Corr.well_formed c1)) in Hrun.
  - destruct Hrun as (_ & _ & Hkeep). apply Hkeep, Hwf.
  - auto.
  - auto.
  - intros thr i nm l c0 fl l1 c1 Hturn Hwf0. destruct Hturn; [exact Hwf0|].
    apply without_well_formed, Hwf0.
Qed.

(** X3: [filter_collinearity] is idempotent on well-formed frames: called
    again on the frame that a first call has left, it drops nothing and
    returns the frame as it is. *)
Theorem filter_collinearity_idempotent
    (fuel fuel' : nat) (threshold : float) (c c' : Pd.DataFrame)
    (r : list string * list float * list _MCFTuple) :
  Corr.well_formed c ->
  filter_collinearity fuel threshold c = (Ok r, c') ->
  filter_collinearity (S fuel') threshold c' = (Ok ([], [], []), c').
Proof.
  intros Hwf Hrun.
  pose proof (filter_collinearity_well_formed _ _ _ _ _ Hwf Hrun) as Hwf'.
  apply filter_collinearity_while in Hrun as (_ & l' & Hwhile & _).
  destruct (while_loop_settled _ _ _ _ _ _ Hwhile eq_refl) as [Hall Hne].
  apply settled_no_op; [apply well_formed_square, Hwf'|exact Hne|exact Hall].
Qed.

Lemma filter_collinearity_idempotent_witness :
  filter_collinearity 1 0.85 Inputs.three_corr = (Ok ([], [], []), Inputs.three_corr).
Proof.
  apply (filter_collinearity_idempotent 4 0 0.85 Inputs.four_corr Inputs.three_corr
           (["B"], [0.55%float], [mk_MCFTuple "B" "A" 0.95 0.55])).
  - split; by_decide.
  - vm_compute. reflexivity.
Defined.
End ResolverPostconditions.

Section ResolverBookkeeping.
Import Select Scan Settled.

Lemma this_col_of_column c nm sorted :
  Corr.this_col_of c nm = Ok sorted -> nm ∈ Pd.columns c.
Proof.
  unfold Corr.this_col_of, Pd.getcol.
  destruct (filter (fun col : string * list float => fst col = nm) (Pd.coldata c))
    as [|col rest] eqn:Hf; [discriminate|].
  intros _. assert (Hin : col ∈ filter (fun col : string * list float => fst col = nm)
                                   (Pd.coldata c)) by (rewrite Hf; left).
  apply list_elem_of_filter in Hin as [<- Hin].
  unfold Pd.columns. apply list_elem_of_In, in_map, list_elem_of_In, Hin.
Qed.

(** What a drop does to a well-formed frame of three columns or more. *)
Lemma turn_drop_sizes threshold i nm l c l' c' :
  turn threshold i nm l c Break l' c' -> Corr.well_formed c ->
  exists d other max_cor,
    c' = Corr.without c d /\ d ∈ Pd.columns c /\ other ∈ Pd.columns c /\
    nm ∈ Pd.columns c /\ other ≠ nm /\ (d = nm \/ d = other) /\
    3 <= length (Pd.columns c) /\
    drops l' = drops l ++ [d] /\
    Np.isnull max_cor = false /\ (max_cor <? threshold)%float = false /\
    exists m, corrz l' = corrz l ++
                [mk_MCFTuple d (if negb (bool_decide (nm = d)) then nm else other) max_cor m].
Proof.
  intros Hturn Hwf.
  inversion Hturn as [|sorted max_cor other that Hthis Hmax Hskip Hother Hthat mn_1 mn_2 d Hc Hi];
    subst.
  pose proof (this_col_of_column _ _ _ Hthis) as Hnm.
  destruct (this_col_of_well_formed c nm Hwf Hnm) as (s & Hs & Hperm & Hsz).
  rewrite Hthis in Hs. injection Hs as <-.
  assert (Ho : other ∈ Pd.columns c /\ other ≠ nm).
  { apply getlast_elem in Hother. rewrite Hperm in Hother.
    apply list_elem_of_filter in Hother as [? ?]. auto. }
  destruct Ho as [Hoin Hone].
  unfold skips in Hskip. apply orb_false_iff in Hskip as [Hskip Hone'].
  apply orb_false_iff in Hskip as [Hnan Hlt]. apply Nat.eqb_neq in Hone'.
  apply getlast_length in Hmax. rewrite length_map in Hmax.
  exists d, other, max_cor. repeat split; try assumption; try reflexivity.
  - apply choose_drop_cases.
  - lia.
  - eexists. reflexivity.
Qed.

(** The drops of a call on a well-formed frame of two columns or more. *)
Lemma filter_collinearity_sizes fuel threshold c ds ms ts c' :
  Corr.well_formed c -> 2 <= length (Pd.columns c) ->
  filter_collinearity fuel threshold c = (Ok (ds, ms, ts), c') ->
  Corr.well_formed c' /\ 2 <= length (Pd.columns c') /\
  NoDup ds /\ ds ⊆ Pd.columns c /\ (forall d, d ∈ ds -> d ∉ Pd.columns c') /\
  Pd.columns c' ⊆ Pd.columns c /\
  length ds + length (Pd.columns c') = length (Pd.columns c).
Proof.
  intros Hwf Hlen Hrun.
  apply (filter_collinearity_lift
           (fun l c0 l' c1 =>
              Corr.well_formed c0 -> 2 <= length (Pd.columns c0) ->
              Corr.well_formed c1 /\ 2 <= length (Pd.columns c1) /\
              exists ds, drops l' = drops l ++ ds /\
                NoDup ds /\ ds ⊆ Pd.columns c0 /\ (forall d, d ∈ ds -> d ∉ Pd.columns c1) /\
                Pd.columns c1 ⊆ Pd.columns c0 /\
                length ds + length (Pd.columns c1) = length (Pd.columns c0))) in Hrun.
  - destruct Hrun as (l' & [= -> -> ->] & Hkeep).
    destruct (Hkeep Hwf Hlen) as (Hwf' & Hlen' & ds & Hds & Hrest). simpl in Hds. subst ds.
    auto.
  - intros l c0 Hwf0 Hlen0. split; [exact Hwf0|]. split; [exact Hlen0|].
    exists []. rewrite app_nil_r. repeat split; try constructor; try reflexivity.
    + intros d Hd. inversion Hd.
    + intros d Hd. inversion Hd.
  - intros l1 c1 l2 c2 l3 c3 H12 H23 Hwf1 Hlen1.
    destruct (H12 Hwf1 Hlen1) as (Hwf2 & Hlen2 & ds1 & Hd1 & Hnd1 & Hs1 & Hout1 & Hc1 & Hn1).
    destruct (H23 Hwf2 Hlen2) as (Hwf3 & Hlen3 & ds2 & Hd2 & Hnd2 & Hs2 & Hout2 & Hc2 & Hn2).
    split; [exact Hwf3|]. split; [exact Hlen3|].
    exists (ds1 ++ ds2). rewrite Hd2, Hd1, <- app_assoc. split; [reflexivity|].
    split; [|split; [|split; [|split]]].
    + apply NoDup_app. split; [exact Hnd1|]. split; [|exact Hnd2].
      intros d Hin1 Hin2. apply (Hout1 d Hin1), Hs2, Hin2.
    + intros d Hd. apply elem_of_app in Hd as [Hd|Hd]; [apply Hs1, Hd|apply Hc1, Hs2, Hd].
    + intros d Hd Hin3. apply elem_of_app in Hd as [Hd|Hd].
      * apply (Hout1 d Hd), Hc2, Hin3.
      * apply (Hout2 d Hd), Hin3.
    + intros d Hd. apply Hc1, Hc2, Hd.
    + rewrite length_app. lia.
  - intros thr i nm l c0 fl l1 c1 Hturn Hwf0 Hlen0. destruct fl.
    + inversion Hturn; subst. split; [exact Hwf0|]. split; [exact Hlen0|].
      exists []. rewrite app_nil_r.
      split; [destruct (_ =? _)%Z; reflexivity|].
      repeat split; try constructor; try reflexivity.
      * intros d Hd. inversion Hd.
      * intros d Hd. inversion Hd.
    + destruct (turn_drop_sizes _ _ _ _ _ _ _ Hturn Hwf0)
        as (d & other & max_cor & -> & Hd & _ & _ & _ & _ & Hthree & Hdrops & _).
      pose proof (without_size c0 d Hwf0 Hd) as Hsz.
      split; [apply without_well_formed, Hwf0|]. split; [lia|].
      exists [d]. split; [exact Hdrops|].
      split; [repeat constructor; intros Hin; inversion Hin|].
      split; [intros d' Hd'; apply list_elem_of_singleton in Hd' as ->; exact Hd|].
      split; [|split].
      * intros d' Hd'. apply list_elem_of_singleton in Hd' as ->.
        rewrite without_columns. intros Hin. apply list_elem_of_filter in Hin as [Hne _].
        apply Hne. reflexivity.
      * rewrite without_columns. intros d' Hd'.
        apply list_elem_of_filter in Hd' as [_ ?]. assumption.
      * simpl. lia.
Qed.

(** X4: on a well-formed frame of two columns or more, a returning call
    drops names of the frame, each once, leaves the other columns, and
    never leaves fewer than two columns. *)
Theorem filter_collinearity_keeps_two_columns
    (fuel : nat) (threshold : float) (c c' : Pd.DataFrame)
    (ds : list string) (ms : list float) (ts : list _MCFTuple) :
  Corr.well_formed c -> 2 <= length (Pd.columns c) ->
  filter_collinearity fuel threshold c = (Ok (ds, ms, ts), c') ->
  2 <= length (Pd.columns c') /\ NoDup ds /\ ds ⊆ Pd.columns c /\
  (forall d, d ∈ ds -> d ∉ Pd.columns c') /\
  length ds + length (Pd.columns c') = length (Pd.columns c).
Proof.
  intros Hwf Hlen Hrun.
  destruct (filter_collinearity_sizes _ _ _ _ _ _ _ Hwf Hlen Hrun)
    as (_ & H2 & Hnd & Hsub & Hout & _ & Hsum).
  auto.
Qed.

Lemma filter_collinearity_keeps_two_columns_witness :
  2 <= length (Pd.columns Inputs.three_corr) /\ NoDup ["B"] /\
  ["B"] ⊆ Pd.columns Inputs.four_corr /\
  (forall d, d ∈ ["B"] -> d ∉ Pd.columns Inputs.three_corr) /\
  length ["B"] + length (Pd.columns Inputs.three_corr) = length (Pd.columns Inputs.four_corr).
Proof.
  apply (filter_collinearity_keeps_two_columns 4 0.85 Inputs.four_corr Inputs.three_corr
           ["B"] [0.55%float] [mk_MCFTuple "B" "A" 0.95 0.55]).
  - split; by_decide.
  - simpl. lia.
  - vm_compute. reflexivity.
Defined.

(** The lifting of an invariant of the turns through the loops, for the
    turns of one threshold. *)
Section LiftAt.
Variable threshold : float.
Variable R : locals -> Pd.DataFrame -> locals -> Pd.DataFrame -> Prop.
Hypothesis R_refl : forall l c, R l c l c.
Hypothesis R_trans : forall l1 c1 l2 c2 l3 c3, R l1 c1 l2 c2 -> R l2 c2 l3 c3 -> R l1 c1 l3 c3.
Hypothesis R_turn : forall i nm l c fl l' c',
  turn threshold i nm l c fl l' c' -> R l c l' c'.

Lemma for_loop_lift_at items l c l' c' :
  for_loop threshold items l c = (Ok l', c') -> R l c l' c'.
Proof.
  revert l c. induction items as [|[i nm] items IH]; intros l c; simpl; run_inplace.
  - intros [= <- <-]. apply R_refl.
  - destruct (for_body threshold i nm l c) as [[[fl l1]| |] c1] eqn:Hbody; try discriminate.
    apply for_body_turn in Hbody. apply R_turn in Hbody.
    destruct fl; simpl.
    + intros Hrest. eapply R_trans; [exact Hbody|]. apply IH. exact Hrest.
    + intros [= <- <-]. exact Hbody.
Qed.

Lemma while_loop_lift_at fuel l c l' c' :
  while_loop fuel threshold l c = (Ok l', c') -> R l c l' c'.
Proof.
  revert l c. induction fuel as [|fuel IH]; intros l c; simpl;
    destruct (finished l); run_inplace; try discriminate;
    try (intros [= <- <-]; apply R_refl).
  destruct (for_loop threshold (enumerate (Pd.columns c)) l c) as [[l1| |] c1] eqn:Hfor;
    try discriminate.
  apply for_loop_lift_at in Hfor. intros Hrest.
  eapply R_trans; [exact Hfor|]. apply IH. exact Hrest.
Qed.

Lemma filter_collinearity_lift_at fuel c r c' :
  filter_collinearity fuel threshold c = (Ok r, c') ->
  exists l', r = (drops l', macor l', corrz l') /\ R (mk_locals false [] [] []) c l' c'.
Proof.
  unfold filter_collinearity. run_inplace.
  destruct (negb _); [discriminate|].
  destruct (while_loop fuel threshold _ c) as [[l1| |] c1] eqn:Hwhile; try discriminate.
  intros [= <- <-]. exists l1. split; [reflexivity|].
  eapply while_loop_lift_at. exact Hwhile.
Qed.
End LiftAt.

(** X5: on a well-formed frame every detail record of a returning call
    names two different columns of the frame, the dropped one first, and
    carries a correlation that is a number and is not below the
    threshold. *)
Theorem correlation_records_name_pairs
    (fuel : nat) (threshold : float) (c c' : Pd.DataFrame)
    (ds : list string) (ms : list float) (ts : list _MCFTuple) :
  Corr.well_formed c ->
  filter_collinearity fuel threshold c = (Ok (ds, ms, ts), c') ->
  Forall (Record.names_pair threshold c) ts.
Proof.
  intros Hwf Hrun.
  apply (filter_collinearity_lift_at threshold
           (fun l c0 l' c1 =>
              Corr.well_formed c0 ->
              Corr.well_formed c1 /\ Pd.columns c1 ⊆ Pd.columns c0 /\
              exists ts, corrz l' = corrz l ++ ts /\
                         Forall (Record.names_pair threshold c0) ts)) in Hrun.
  - destruct Hrun as (l' & [= -> -> ->] & Hkeep).
    destruct (Hkeep Hwf) as (_ & _ & ts & Hts & Hall). simpl in Hts. subst ts. exact Hall.
  - intros l c0 Hwf0. split; [exact Hwf0|]. split; [reflexivity|].
    exists []. rewrite app_nil_r. split; [reflexivity|constructor].
  - intros l1 c1 l2 c2 l3 c3 H12 H23 Hwf1.
    destruct (H12 Hwf1) as (Hwf2 & Hc1 & ts1 & Ht1 & Hall1).
    destruct (H23 Hwf2) as (Hwf3 & Hc2 & ts2 & Ht2 & Hall2).
    split; [exact Hwf3|]. split; [intros d Hd; apply Hc1, Hc2, Hd|].
    exists (ts1 ++ ts2). rewrite Ht2, Ht1, <- app_assoc. split; [reflexivity|].
    apply Forall_app. split; [exact Hall1|].
    eapply Forall_impl; [exact Hall2|].
    intros t (Hx & Hy & Hne & Hnan & Hlt). repeat split; auto.
  - intros i nm l c0 fl l1 c1 Hturn Hwf0. destruct fl.
    + inversion Hturn; subst. split; [exact Hwf0|]. split; [reflexivity|].
      exists []. rewrite app_nil_r. split; [destruct (_ =? _)%Z; reflexivity|constructor].
    + destruct (turn_drop_sizes _ _ _ _ _ _ _ Hturn Hwf0)
        as (d & other & max_cor & -> & Hd & Hother & Hnm & Hne & Hcase & _ & _ &
            Hnan & Hlt & m & Hrec).
      split; [apply without_well_formed, Hwf0|]. split.
      { rewrite without_columns. intros d' Hd'.
        apply list_elem_of_filter in Hd' as [_ ?]. assumption. }
      eexists. split; [exact Hrec|].
      constructor; [|constructor].
      unfold Record.names_pair. simpl.
      destruct (bool_decide (nm = d)) eqn:Hdec; simpl.
      * apply bool_decide_eq_true in Hdec. subst d. repeat split; auto.
      * apply bool_decide_eq_false in Hdec. repeat split; auto.
Qed.

Lemma correlation_records_name_pairs_witness :
  Forall (Record.names_pair 0.85 Inputs.four_corr) [mk_MCFTuple "B" "A" 0.95 0.55].
Proof.
  apply (correlation_records_name_pairs 4 0.85 Inputs.four_corr Inputs.three_corr
           ["B"] [0.55%float]).
  - split; by_decide.
  - vm_compute. reflexivity.
Defined.

(** X6: a well-formed frame of one column makes the call raise
    [IndexError] on the first column it looks at, with the frame as it
    was. *)
Theorem single_column_raises
    (fuel : nat) (threshold : float) (c : Pd.DataFrame) :
  Corr.well_formed c -> length (Pd.columns c) = 1 ->
  filter_collinearity (S fuel) threshold c = (Raise IndexError, c).
Proof.
  intros [Hlab Hnd Hrows] Hlen.
  destruct c as [index coldata]. unfold Pd.columns in *. simpl in *.
  destruct coldata as [|[nm data] [|? ?]]; try discriminate Hlen. simpl in *. subst index.
  apply Forall_cons in Hrows as [Hdata _]. simpl in Hdata.
  destruct data as [|v [|? ?]]; try discriminate Hdata.
  assert (Hbody : forall l, for_body threshold 0 nm l (Pd.mk_frame [nm] [(nm, [v])])
                           = (Raise IndexError, Pd.mk_frame [nm] [(nm, [v])])).
  { intros l. unfold for_body. run_inplace. unfold Pd.getcol. simpl.
    rewrite filter_cons_True by reflexivity. rewrite filter_nil. simpl.
    unfold Pd.series_drop. simpl. rewrite decide_True by (left).
    rewrite filter_cons_False by (simpl; intros E; apply E; reflexivity).
    rewrite filter_nil. reflexivity. }
  unfold filter_collinearity. run_inplace. cbn. run_inplace. cbv beta. cbn. run_inplace. cbv beta. rewrite Hbody. reflexivity.
Qed.

Lemma single_column_raises_witness :
  filter_collinearity 1 0.85 Inputs.unit_corr = (Raise IndexError, Inputs.unit_corr).
Proof.
  apply (single_column_raises 0 0.85 Inputs.unit_corr).
  - split; by_decide.
  - reflexivity.
Defined.
End ResolverBookkeeping.

(* ===================================================================== *)
(** ** The frame of the caller *)
(* ===================================================================== *)

Section ConsumedFrame.
Import Select Scan Settled.

(** The frame that a returning call leaves is the frame it was given
    without the rows and columns of the drops. *)
Lemma filter_collinearity_folds fuel threshold c drops macor corrz c' :
  filter_collinearity fuel threshold c = (Ok (drops, macor, corrz), c') ->
  c' = fold_left Corr.without drops c.
Proof.
  intros Hrun.
  apply (filter_collinearity_lift
           (fun l c0 l' c1 => exists ds, Select.drops l' = Select.drops l ++ ds /\
                                         c1 = fold_left Corr.without ds c0)) in Hrun.
  - destruct Hrun as (l' & [= -> -> ->] & ds & Hds & ->). simpl in Hds. subst ds. reflexivity.
  - intros l c0. exists []. rewrite app_nil_r. auto.
  - intros l1 c1 l2 c2 l3 c3 (ds1 & H1 & ->) (ds2 & H2 & ->).
    exists (ds1 ++ ds2). rewrite H2, H1, <- app_assoc, fold_left_app. auto.
  - intros thr i nm l c0 fl l1 c1 Hturn. destruct Hturn.
    + exists []. rewrite app_nil_r. destruct (_ =? _)%Z; auto.
    + eexists [_]. simpl. auto.
Qed.

(** C8: the frame handed to [filter_collinearity] is consumed.  Whenever
    the call returns, the caller's frame has lost the row and the column of
    every dropped name, in the order of the drops, and nothing else: its
    labels are the labels that were not dropped.  On a well-formed frame of
    two columns or more the call does return, within as many turns of the
    outer loop as the frame has columns.  Every turn of the scan that does
    not skip its column takes, there and then, one column of the frame and
    the row of the same label out of the frame, and a turn that skips
    leaves the frame as it is.  And on a well-formed frame in which the
    turn of some column is not skipped the call does drop: the list of
    drops is not empty, each dropped name was a label of the frame on both
    axes and is a label on neither afterwards, the frame has one row and
    one column fewer for each drop, and it is not the frame that was
    handed in. *)
Theorem filter_collinearity_consumes_frame (threshold : float) (c : Pd.DataFrame) :
  (forall fuel drops macor corrz c',
      filter_collinearity fuel threshold c = (Ok (drops, macor, corrz), c') ->
      c' = fold_left Corr.without drops c /\
      Pd.columns c' = filter (fun nm => nm ∉ drops) (Pd.columns c) /\
      Pd.index c' = filter (fun nm => nm ∉ drops) (Pd.index c))
  /\
  (Corr.well_formed c -> 2 <= length (Pd.columns c) ->
   exists r c', filter_collinearity (length (Pd.columns c)) threshold c = (Ok r, c'))
  /\
  (forall i nm l fl l' c',
      for_body threshold i nm l c = (Ok (fl, l'), c') ->
      match fl with
      | Continue => c' = c /\ Select.drops l' = Select.drops l
      | Break =>
          exists d, Select.drops l' = (Select.drops l ++ [d]) /\
                    d ∈ Pd.columns c /\ d ∈ Pd.index c /\
                    c' = Corr.without c d /\
                    Pd.columns c' = filter (fun lb => lb ≠ d) (Pd.columns c) /\
                    Pd.index c' = filter (fun lb => lb ≠ d) (Pd.index c)
      end)
  /\
  (Corr.well_formed c -> 2 <= length (Pd.columns c) ->
   forall nm sorted max_cor,
     Corr.this_col_of c nm = Ok sorted ->
     getlast (map snd sorted) = Ok max_cor ->
     skips max_cor threshold (length sorted) = false ->
     forall fuel drops macor corrz c',
       filter_collinearity fuel threshold c = (Ok (drops, macor, corrz), c') ->
       drops ≠ [] /\ c' ≠ c /\
       Forall (fun d => d ∈ Pd.columns c /\ d ∈ Pd.index c /\
                        (d ∉ Pd.columns c') /\ (d ∉ Pd.index c')) drops /\
       length (Pd.columns c') + length drops = length (Pd.columns c) /\
       length (Pd.index c') + length drops = length (Pd.index c)).
Proof.
  split; [|split; [|split]].
  - intros fuel drops macor corrz c' Hrun.
    rewrite (filter_collinearity_folds _ _ _ _ _ _ _ Hrun).
    split; [reflexivity|]. apply fold_without_columns.
  - intros Hwf Hlen. apply filter_collinearity_returns; auto.
  - intros i nm l fl l' c' Hbody. apply for_body_turn in Hbody.
    inversion Hbody as [sorted max_cor Hthis Hmax Hskip
                       |sorted max_cor other that Hthis Hmax Hskip Hother Hthat
                          mn_1 mn_2 d Hc Hi]; subst.
    + split; [reflexivity|]. destruct (_ =? _)%Z; reflexivity.
    + exists d. split; [reflexivity|]. split; [exact Hc|]. split; [exact Hi|].
      split; [reflexivity|]. split; [apply without_columns|reflexivity].
  - intros Hwf Hlen nm sorted max_cor Hthis Hmax Hskip fuel drops macor corrz c' Hrun.
    pose proof (filter_collinearity_folds _ _ _ _ _ _ _ Hrun) as Hfold.
    destruct (filter_collinearity_sizes _ _ _ _ _ _ _ Hwf Hlen Hrun)
      as (Hwf' & _ & _ & Hsub & Hout & _ & Hsum).
    assert (Hne : drops ≠ []).
    { intros ->. simpl in Hfold. subst c'.
      apply filter_collinearity_while in Hrun as (_ & l' & Hwhile & _).
      destruct (while_loop_settled _ _ _ _ _ _ Hwhile eq_refl) as [Hall _].
      unfold settled in Hall. rewrite Forall_forall in Hall.
      destruct (Hall nm (this_col_of_column _ _ _ Hthis))
        as (sorted' & max_cor' & Hthis' & Hmax' & Hskip').
      rewrite Hthis in Hthis'. injection Hthis' as <-.
      rewrite Hmax in Hmax'. injection Hmax' as <-. congruence. }
    split; [exact Hne|]. split; [|split; [|split]].
    + intros ->. destruct drops; [congruence|simpl in Hsum; lia].
    + apply Forall_forall. intros d Hd.
      rewrite (Corr.wf_labels c Hwf), (Corr.wf_labels c' Hwf'). auto.
    + lia.
    + rewrite (Corr.wf_labels c Hwf), (Corr.wf_labels c' Hwf'). lia.
Qed.

Lemma filter_collinearity_consumes_frame_witness :
  (Pd.mk_frame ["X"; "Z"] [("X", [1; 0.3]%float); ("Z", [0.3; 1]%float)]
   = fold_left Corr.without ["Y"] Examples.xyz_corr /\
   ["X"; "Z"] = filter (fun nm => nm ∉ ["Y"]) ["X"; "Y"; "Z"] /\
   ["X"; "Z"] = filter (fun nm => nm ∉ ["Y"]) ["X"; "Y"; "Z"])
  /\
  (exists r c', filter_collinearity 3 0.85 Examples.xyz_corr = (Ok r, c'))
  /\
  (exists d, ["Y"] = ([] ++ [d]) /\ d ∈ ["X"; "Y"; "Z"] /\ d ∈ ["X"; "Y"; "Z"] /\
             Pd.mk_frame ["X"; "Z"] [("X", [1; 0.3]%float); ("Z", [0.3; 1]%float)]
             = Corr.without Examples.xyz_corr d)
  /\
  (["Y"] ≠ [] /\
   Pd.mk_frame ["X"; "Z"] [("X", [1; 0.3]%float); ("Z", [0.3; 1]%float)] ≠ Examples.xyz_corr /\
   Forall (fun d => d ∈ ["X"; "Y"; "Z"] /\ d ∈ ["X"; "Y"; "Z"] /\
                    (d ∉ ["X"; "Z"]) /\ (d ∉ ["X"; "Z"])) ["Y"]).
Proof.
  split; [|split; [|split]].
  - apply (proj1 (filter_collinearity_consumes_frame 0.85 Examples.xyz_corr)
             3 ["Y"] [0.925%float] [mk_MCFTuple "Y" "X" 0.95 0.925]
             (Pd.mk_frame ["X"; "Z"] [("X", [1; 0.3]%float); ("Z", [0.3; 1]%float)])).
    vm_compute. reflexivity.
  - apply (proj1 (proj2 (filter_collinearity_consumes_frame 0.85 Examples.xyz_corr))).
    + split; by_decide.
    + simpl. lia.
  - destruct (proj1 (proj2 (proj2 (filter_collinearity_consumes_frame 0.85 Examples.xyz_corr)))
                0 "X" (mk_locals false [] [] []) Break
                (mk_locals false ["Y"] [0.925%float] [mk_MCFTuple "Y" "X" 0.95 0.925])
                (Pd.mk_frame ["X"; "Z"] [("X", [1; 0.3]%float); ("Z", [0.3; 1]%float)]))
      as (d & Hd & Hc & Hi & Hframe & _).
    + vm_compute. reflexivity.
    + exists d. auto.
  - destruct (proj2 (proj2 (proj2 (filter_collinearity_consumes_frame 0.85 Examples.xyz_corr)))
                ltac:(split; by_decide) ltac:(simpl; lia)
                "X" [("Z", 0.3%float); ("Y", 0.95%float)] 0.95%float
                ltac:(vm_compute; reflexivity) ltac:(vm_compute; reflexivity)
                ltac:(vm_compute; reflexivity)
                3 ["Y"] [0.925%float] [mk_MCFTuple "Y" "X" 0.95 0.925]
                (Pd.mk_frame ["X"; "Z"] [("X", [1; 0.3]%float); ("Z", [0.3; 1]%float)])
                ltac:(vm_compute; reflexivity))
      as (Hne & Hdiff & Hall & _).
    auto.
Defined.
End ConsumedFrame.

Section FittingTheFilterer.
Import Select.

Lemma apply_abs_columns (c : Pd.DataFrame) : Pd.columns (Pd.apply_abs c) = Pd.columns c.
Proof.
  unfold Pd.columns, Pd.apply_abs. simpl. rewrite map_map. reflexivity.
Qed.

Lemma apply_abs_well_formed (c : Pd.DataFrame) :
  Corr.well_formed c -> Corr.well_formed (Pd.apply_abs c).
Proof.
  intros [Hlab Hnd Hrows]. split.
  - rewrite apply_abs_columns. exact Hlab.
  - rewrite apply_abs_columns. exact Hnd.
  - unfold Pd.apply_abs. simpl. apply Forall_map.
    eapply Forall_impl; [exact Hrows|]. intros col Hcol. simpl. rewrite length_map. exact Hcol.
Qed.

(** X7: [MulticollinearityFilterer.fit] returns when the columns to evaluate
    are two or more and the correlation routine answers a well-formed frame
    over them; [drop_] then holds names of those columns, each once, and
    leaves two of them or more. *)
Theorem fit_drops_evaluated_columns
    (U : FrameUtils) (corr : Pd.DataFrame -> string -> Pd.DataFrame) (fuel : nat)
    (self : Mcf.MulticollinearityFilterer) (X X' sub : Pd.DataFrame)
    (cols' : option (list string)) :
  @validate_is_pd U X (Mcf.cols self) true = Ok (X', cols') ->
  2 <= length (@_cols_if_none U X' cols') ->
  Pd.select X' (@_cols_if_none U X' cols') = Ok sub ->
  Corr.well_formed (corr sub (Mcf.method self)) ->
  Pd.columns (corr sub (Mcf.method self)) = @_cols_if_none U X' cols' ->
  length (@_cols_if_none U X' cols') <= S fuel ->
  exists f, @Mcf.fit U corr fuel self X = Ok f /\
    Mcf.cols_ f = cols' /\ NoDup (Mcf.drop_ f) /\
    Mcf.drop_ f ⊆ @_cols_if_none U X' cols' /\
    length (Mcf.drop_ f) + 2 <= length (@_cols_if_none U X' cols').
Proof.
  intros Hv Hlen Hsel Hwf Hcols Hfuel.
  pose proof (apply_abs_well_formed _ Hwf) as Hwf'.
  pose proof (apply_abs_columns (corr sub (Mcf.method self))) as Hcols'.
  rewrite Hcols in Hcols'.
  destruct (filter_collinearity_returns (Mcf.threshold self) fuel
              (Pd.apply_abs (corr sub (Mcf.method self))) Hwf')
    as ([[ds ms] ts] & c' & Hrun); [rewrite Hcols'; exact Hlen|rewrite Hcols'; exact Hfuel|].
  destruct (filter_collinearity_sizes _ _ _ _ _ _ _ Hwf' ltac:(rewrite Hcols'; exact Hlen) Hrun)
    as (_ & H2 & Hnd & Hsub & _ & _ & Hsum).
  rewrite Hcols' in Hsub, Hsum.
  unfold Mcf.fit. rewrite Hv. simpl.
  destruct (Nat.ltb_spec (length (_cols_if_none X' cols')) 2) as [Hlt|_]; [lia|]. simpl.
  rewrite Hsel. simpl. rewrite Hrun. simpl.
  eexists. split; [reflexivity|]. simpl. repeat split; auto. lia.
Qed.

Lemma fit_drops_evaluated_columns_witness :
  exists f, @Mcf.fit Examples.spec_utils (fun _ _ => Inputs.four_corr) 3
              (Mcf.mk_mcf None 0.85%float "pearson" true) Inputs.four_corr = Ok f /\
    Mcf.cols_ f = None /\ NoDup (Mcf.drop_ f) /\
    Mcf.drop_ f ⊆ ["A"; "B"; "C"; "D"] /\
    length (Mcf.drop_ f) + 2 <= 4.
Proof.
  apply (fit_drops_evaluated_columns Examples.spec_utils (fun _ _ => Inputs.four_corr) 3
           (Mcf.mk_mcf None 0.85%float "pearson" true)
           Inputs.four_corr Inputs.four_corr Inputs.four_corr None).
  - vm_compute. reflexivity.
  - simpl. lia.
  - vm_compute. reflexivity.
  - split; by_decide.
  - reflexivity.
  - simpl. lia.
Defined.
End FittingTheFilterer.

(* ===================================================================== *)
(** ** Scores without NaN, and the percentile selection *)
(* ===================================================================== *)

Section CleanScores.

Lemma digits2_pos_bound (m : positive) : (Z.pos m < 2 ^ Z.pos (digits2_pos m))%Z.
Proof.
  induction m as [m IH|m IH|]; simpl.
  - rewrite Pos2Z.inj_succ, Z.pow_succ_r by lia. lia.
  - rewrite Pos2Z.inj_succ, Z.pow_succ_r by lia. lia.
  - reflexivity.
Qed.

(** The mantissa and the exponent of a binary64 value are bounded. *)
Lemma finite_bounds (x : float) (s : bool) (m : positive) (e : Z) :
  Prim2SF x = S754_finite s m e -> (Z.pos m < 2 ^ 53 /\ e <= 971)%Z.
Proof.
  intros Hx. pose proof (FloatAxioms.Prim2SF_valid x) as Hv. rewrite Hx in Hv.
  unfold valid_binary, bounded, canonical_mantissa in Hv.
  apply andb_true_iff in Hv as [Hc He].
  apply Z.leb_le in He. apply Z.eqb_eq in Hc.
  unfold fexp, FloatOps.prec, FloatOps.emax, emin in *.
  pose proof (digits2_pos_bound m) as Hd.
  split; [|lia].
  assert (Hle : (Z.pos (digits2_pos m) <= 53)%Z) by lia.
  eapply Z.lt_le_trans; [exact Hd|]. apply Z.pow_le_mono_r; lia.
Qed.

Lemma is_finite_place (x : float) :
  is_finite x = true ->
  Prim2SF x = S754_zero true \/ Prim2SF x = S754_zero false \/
  exists s m e, Prim2SF x = S754_finite s m e.
Proof.
  unfold is_finite, is_infinity, is_nan.
  rewrite !FloatAxioms.eqb_spec, FloatAxioms.abs_spec.
  change (Prim2SF infinity) with (S754_infinity false).
  destruct (Prim2SF x) as [[|]|[|]| |s m e]; simpl; try discriminate; eauto 6.
  all: rewrite ?Z.compare_refl, ?Pos.compare_refl; try discriminate.
Qed.

(** [np.finfo(np.float64).min] is the least of the finite numbers. *)
Lemma finfo_min_least (t : float) :
  is_finite t = true -> (OneWayFs.finfo_min <=? t)%float = true.
Proof.
  intros Hfin. apply leb_place.
  change (Prim2SF OneWayFs.finfo_min) with (S754_finite true 9007199254740991 971).
  destruct (is_finite_place t Hfin) as [Ht|[Ht|(s & m & e & Ht)]].
  - rewrite Ht. do 2 eexists. split; [reflexivity|]. split; [reflexivity|].
    left. unfold Order.lex_lt. simpl. lia.
  - rewrite Ht. do 2 eexists. split; [reflexivity|]. split; [reflexivity|].
    left. unfold Order.lex_lt. simpl. lia.
  - rewrite Ht. destruct (finite_bounds t s m e Ht) as [Hm He].
    destruct s; do 2 eexists; (split; [reflexivity|]); (split; [reflexivity|]).
    + change (2 ^ 53)%Z with 9007199254740992%Z in Hm.
      unfold Order.lex_lt. simpl.
      destruct (Z.eq_dec e 971%Z) as [->|Hne].
      * destruct (Z.eq_dec (Z.pos m) 9007199254740991%Z) as [Heq|Hne'].
        -- right. injection Heq as ->. reflexivity.
        -- left. right. split; [reflexivity|]. right. split; [reflexivity|]. lia.
      * left. right. split; [reflexivity|]. left. lia.
    + left. unfold Order.lex_lt. simpl. lia.
Qed.

(** X8: [_clean_nans] keeps the length and the numbers of the scores,
    leaves no NaN, and puts in the place of each NaN a number that no
    finite number is below. *)
Theorem clean_nans_ranks_nan_lowest (scores : list float) :
  length (OneWayFs._clean_nans scores) = length scores /\
  Forall (fun s => is_nan s = false) (OneWayFs._clean_nans scores) /\
  (forall i s, scores !! i = Some s -> is_nan s = false ->
               OneWayFs._clean_nans scores !! i = Some s) /\
  (forall i s, scores !! i = Some s -> is_nan s = true ->
     exists v, OneWayFs._clean_nans scores !! i = Some v /\
               forall t, is_finite t = true -> (v <=? t)%float = true).
Proof.
  unfold OneWayFs._clean_nans. split; [apply length_map|]. split; [|split].
  - apply Forall_map, Forall_forall. intros s _. simpl.
    destruct (is_nan s) eqn:Hs; [reflexivity|exact Hs].
  - intros i s Hi Hs. rewrite list_lookup_fmap, Hi. simpl. rewrite Hs. reflexivity.
  - intros i s Hi Hs. rewrite list_lookup_fmap, Hi. simpl. rewrite Hs.
    eexists. split; [reflexivity|]. apply finfo_min_least.
Qed.
End CleanScores.

Section PercentileSelection.
Import OneWayFs.

Lemma set_true_length (idx : list nat) (mask : list bool) :
  length (set_true mask idx) = length mask.
Proof.
  unfold set_true. revert mask. induction idx as [|i idx IH]; intros mask; simpl;
    [reflexivity|].
  rewrite IH. apply length_insert.
Qed.

Lemma set_true_kept (idx : list nat) (mask : list bool) (i : nat) :
  mask !! i = Some true -> set_true mask idx !! i = Some true.
Proof.
  unfold set_true. revert mask. induction idx as [|j idx IH]; intros mask Hi; simpl;
    [exact Hi|].
  apply IH. destruct (decide (j = i)) as [->|Hne].
  - apply list_lookup_insert_eq. eapply lookup_lt_Some, Hi.
  - rewrite list_lookup_insert_ne by exact Hne. exact Hi.
Qed.

Lemma set_true_elsewhere (idx : list nat) (mask : list bool) (i : nat) :
  i ∉ idx -> set_true mask idx !! i = mask !! i.
Proof.
  unfold set_true. revert mask. induction idx as [|j idx IH]; intros mask Hi; simpl;
    [reflexivity|].
  apply not_elem_of_cons in Hi as [Hne Hi].
  rewrite IH by exact Hi. apply list_lookup_insert_ne. intros ->. apply Hne. reflexivity.
Qed.

Lemma where_from_lookup (k : nat) (mask : list bool) (i : nat) :
  i ∈ Np.where_from k mask -> exists j, i = k + j /\ mask !! j = Some true.
Proof.
  revert k. induction mask as [|m mask IH]; intros k; simpl.
  - intros Hin. inversion Hin.
  - intros Hin.
    assert (Hrest : i ∈ Np.where_from (S k) mask -> exists j, i = k + j /\ (m :: mask) !! j = Some true).
    { intros Hr. destruct (IH _ Hr) as (j & -> & Hj). exists (S j). split; [lia|exact Hj]. }
    destruct m; [|auto].
    apply elem_of_cons in Hin as [->|Hin]; [|auto].
    exists 0. split; [lia|reflexivity].
Qed.

Lemma slice_to_subseteq {A} (l : list A) (k : Z) : slice_to l k ⊆ l.
Proof.
  unfold slice_to. destruct (0 <=? k)%Z; apply subseteq_take.
Qed.

(** What a boolean mask of the right length selects. *)
Lemma boolean_index_spec {A} (names : list A) (mask : list bool) :
  length names = length mask ->
  exists r, boolean_index names mask = Ok r /\ sublist r names /\
    (forall i nm, names !! i = Some nm -> mask !! i = Some true -> nm ∈ r) /\
    (forall i nm, NoDup names -> names !! i = Some nm -> mask !! i = Some false -> nm ∉ r).
Proof.
  intros Hlen. unfold boolean_index. rewrite Hlen, Nat.eqb_refl.
  eexists. split; [reflexivity|]. split; [|split].
  - etransitivity; [apply (fmap_sublist fst), sublist_filter|].
    change (sublist ((zip names mask).*1) names). rewrite fst_zip by lia. reflexivity.
  - intros i nm Hnm Hm. apply list_elem_of_fmap. exists (nm, true). split; [reflexivity|].
    apply list_elem_of_filter. split; [reflexivity|].
    apply list_elem_of_lookup. exists i. apply lookup_zip_with_Some. eauto.
  - intros i nm Hnd Hnm Hm Hin.
    apply list_elem_of_fmap in Hin as ([nm' b] & -> & Hin).
    apply list_elem_of_filter in Hin as [Hb Hin]. simpl in Hb. subst b.
    apply list_elem_of_lookup in Hin as [j Hj].
    apply lookup_zip_with_Some in Hj as (x & y & [= <- <-] & Hx & Hy). simpl in Hnm.
    assert (j = i) as -> by (eapply NoDup_lookup; eauto).
    rewrite Hm in Hy. discriminate.
Qed.

(** X9: between the extremes, [_select_features] raises what
    [scoreatpercentile] raises; when [scoreatpercentile] answers a
    threshold score, with one score per name, it returns names in their
    order; a name whose cleaned score is strictly above the threshold is
    not dropped (when no name comes twice), and a name whose cleaned score
    is neither above the threshold nor equal to it is dropped. *)
Theorem select_features_by_threshold
    (scoreatpercentile : list float -> Z -> outcome float)
    (self : H2OFScorePercentileSelector)
    (all_scores all_pvalues : list float) (feature_names : list string) :
  percentile self ≠ 100%Z -> percentile self ≠ 0%Z ->
  (forall e,
     scoreatpercentile (_clean_nans all_scores) (100 - percentile self)%Z = Raise e ->
     _select_features scoreatpercentile self all_scores all_pvalues feature_names = Raise e)
  /\
  (forall thresh,
     scoreatpercentile (_clean_nans all_scores) (100 - percentile self)%Z = Ok thresh ->
     length feature_names = length all_scores ->
     exists drops,
       _select_features scoreatpercentile self all_scores all_pvalues feature_names
       = Ok drops /\
       sublist drops feature_names /\
       forall i nm s,
         feature_names !! i = Some nm -> _clean_nans all_scores !! i = Some s ->
         ((thresh <? s)%float = true -> NoDup feature_names -> nm ∉ drops) /\
         ((thresh <? s)%float = false -> (s =? thresh)%float = false -> nm ∈ drops)).
Proof.
  intros H100 H0. unfold _select_features.
  destruct (Z.eqb_spec (percentile self) 100) as [|_]; [contradiction|].
  destruct (Z.eqb_spec (percentile self) 0) as [|_]; [contradiction|].
  split; [intros e ->; reflexivity|].
  intros thresh -> Hlen. cbn [mbind outcome_bind].
  set (cleaned := _clean_nans all_scores).
  set (mask0 := map (fun s => (thresh <? s)%float) cleaned).
  set (ties := Np.where_true (map (fun s => (s =? thresh)%float) cleaned)).
  set (kept := slice_to ties _).
  set (mask1 := if negb (length ties =? 0) then set_true mask0 kept else mask0).
  assert (Hclen : length cleaned = length all_scores) by apply length_map.
  assert (Hlen1 : length mask1 = length cleaned).
  { unfold mask1. destruct (negb _); [rewrite set_true_length|]; apply length_map. }
  destruct (boolean_index_spec feature_names (map negb mask1))
    as (r & Hr & Hsub & Hin & Hout); [rewrite length_map; lia|].
  exists r. split; [exact Hr|]. split; [exact Hsub|].
  intros i nm s Hnm Hs.
  assert (H0i : mask0 !! i = Some (thresh <? s)%float).
  { unfold mask0. rewrite list_lookup_fmap, Hs. reflexivity. }
  split.
  - intros Habove Hnd. apply (Hout i nm Hnd Hnm).
    rewrite list_lookup_fmap.
    assert (H1i : mask1 !! i = Some true).
    { rewrite Habove in H0i. unfold mask1.
      destruct (negb _); [apply set_true_kept|]; exact H0i. }
    rewrite H1i. reflexivity.
  - intros Hbelow Htie. apply (Hin i nm Hnm).
    rewrite list_lookup_fmap.
    assert (H1i : mask1 !! i = Some false).
    { rewrite Hbelow in H0i. unfold mask1. destruct (negb _); [|exact H0i].
      rewrite set_true_elsewhere; [exact H0i|].
      intros Hk. apply slice_to_subseteq in Hk. unfold ties, Np.where_true in Hk.
      apply where_from_lookup in Hk as (j & Hij & Hj). simpl in Hij. subst j.
      rewrite list_lookup_fmap, Hs in Hj. simpl in Hj. congruence. }
    rewrite H1i. reflexivity.
Qed.

Lemma select_features_by_threshold_witness :
  _select_features MoreInputs.score_two (mk_percentile_selector 150)
    [1; 3; nan]%float [] ["a"; "b"; "c"] = Raise ValueError
  /\
  exists drops,
    _select_features MoreInputs.score_two (mk_percentile_selector 50)
      [1; 3; nan]%float [] ["a"; "b"; "c"] = Ok drops /\
    sublist drops ["a"; "b"; "c"] /\
    forall i nm s,
      ["a"; "b"; "c"] !! i = Some nm -> _clean_nans [1; 3; nan]%float !! i = Some s ->
      ((2 <? s)%float = true -> NoDup ["a"; "b"; "c"] -> nm ∉ drops) /\
      ((2 <? s)%float = false -> (s =? 2)%float = false -> nm ∈ drops).
Proof.
  split.
  - apply (proj1 (select_features_by_threshold MoreInputs.score_two
                    (mk_percentile_selector 150) [1; 3; nan]%float [] ["a"; "b"; "c"]
                    ltac:(simpl; lia) ltac:(simpl; lia))).
    reflexivity.
  - apply (proj2 (select_features_by_threshold MoreInputs.score_two
                    (mk_percentile_selector 50) [1; 3; nan]%float [] ["a"; "b"; "c"]
                    ltac:(simpl; lia) ltac:(simpl; lia)) 2%float); reflexivity.
Defined.

Lemma set_true_set (idx : list nat) (mask : list bool) (i : nat) :
  i ∈ idx -> i < length mask -> set_true mask idx !! i = Some true.
Proof.
  unfold set_true. revert mask. induction idx as [|j idx IH]; intros mask Hin Hlt; simpl.
  - inversion Hin.
  - destruct (decide (j = i)) as [->|Hne].
    + apply (set_true_kept idx). apply list_lookup_insert_eq. exact Hlt.
    + apply elem_of_cons in Hin as [->|Hin]; [congruence|].
      apply IH; [exact Hin|rewrite length_insert; exact Hlt].
Qed.

Lemma where_from_NoDup (k : nat) (mask : list bool) : NoDup (Np.where_from k mask).
Proof.
  revert k. induction mask as [|m mask IH]; intros k; simpl; [constructor|].
  destruct m; [|apply IH]. constructor; [|apply IH].
  intros Hin. apply where_from_lookup in Hin as (j & Hj & _). lia.
Qed.

Lemma count_true_map {A} (f : A -> bool) (l : list A) :
  length (filter (fun m => m = true) (map f l)) = length (filter (fun x => f x = true) l).
Proof.
  induction l as [|x l IH]; [reflexivity|]. simpl. rewrite !filter_cons.
  destruct (f x) eqn:Hx; simpl; rewrite IH; reflexivity.
Qed.

Lemma take_position {A} (l : list A) (n j : nat) (a : A) :
  NoDup l -> l !! j = Some a -> (a ∈ take n l <-> j < n).
Proof.
  intros Hnd Hj. split.
  - intros Hin. apply list_elem_of_lookup in Hin as [j' Hj'].
    pose proof (lookup_lt_Some _ _ _ Hj') as Hlt. rewrite length_take in Hlt.
    rewrite lookup_take_lt in Hj' by lia.
    assert (j' = j) by (eapply NoDup_lookup; eauto). lia.
  - intros Hlt. apply list_elem_of_lookup. exists j. rewrite lookup_take_lt by exact Hlt.
    exact Hj.
Qed.

(** X23: between the extremes, when [scoreatpercentile] answers a
    threshold score, with one score per name and no name coming twice, the
    names whose cleaned score equals the threshold score are kept first
    come, first served: with [quota] the integer part of
    [len(all_scores) * percentile / 100] less the number of scores
    strictly above the threshold, the [j]-th tie is kept exactly when
    [j < quota], and, the quota being negative, exactly when [j] is below
    the number of ties plus the quota, as the slice [ties[:quota]] has
    it. *)
Theorem select_features_keeps_first_ties
    (scoreatpercentile : list float -> Z -> outcome float)
    (self : H2OFScorePercentileSelector)
    (all_scores all_pvalues : list float) (feature_names : list string) (thresh : float) :
  percentile self ≠ 100%Z -> percentile self ≠ 0%Z ->
  scoreatpercentile (_clean_nans all_scores) (100 - percentile self)%Z = Ok thresh ->
  length feature_names = length all_scores -> NoDup feature_names ->
  let cleaned := _clean_nans all_scores in
  let ties := Np.where_true (map (fun s => (s =? thresh)%float) cleaned) in
  let above := length (filter (fun s => (thresh <? s)%float = true) cleaned) in
  let quota := (Z.of_nat (length cleaned) * percentile self ÷ 100 - Z.of_nat above)%Z in
  exists drops,
    _select_features scoreatpercentile self all_scores all_pvalues feature_names = Ok drops /\
    forall j i nm, ties !! j = Some i -> feature_names !! i = Some nm ->
      (nm ∉ drops <->
       (Z.of_nat j < (if (0 <=? quota)%Z then quota else Z.of_nat (length ties) + quota))%Z).
Proof.
  intros H100 H0 Hsap Hlen Hnd cleaned ties above quota. unfold _select_features.
  destruct (Z.eqb_spec (percentile self) 100) as [|_]; [contradiction|].
  destruct (Z.eqb_spec (percentile self) 0) as [|_]; [contradiction|].
  rewrite Hsap. cbn [mbind outcome_bind].
  fold cleaned. fold ties.
  set (mask0 := map (fun s => (thresh <? s)%float) cleaned).
  assert (Habove : length (filter (fun m => m = true) mask0) = above)
    by apply count_true_map.
  rewrite Habove. fold quota.
  set (kept := slice_to ties quota).
  set (mask1 := if negb (length ties =? 0) then set_true mask0 kept else mask0).
  assert (Hclen : length cleaned = length all_scores) by apply length_map.
  assert (Hlen0 : length mask0 = length cleaned) by apply length_map.
  assert (Hlen1 : length mask1 = length cleaned).
  { unfold mask1. destruct (negb _); [rewrite set_true_length|]; exact Hlen0. }
  destruct (boolean_index_spec feature_names (map negb mask1))
    as (r & Hr & _ & Hin & Hout); [rewrite length_map; lia|].
  exists r. split; [exact Hr|].
  intros j i nm Hj Hnm.
  assert (Hties : NoDup ties) by apply where_from_NoDup.
  assert (Hi : i ∈ ties) by (eapply list_elem_of_lookup_2, Hj).
  pose proof (lookup_lt_Some _ _ _ Hj) as Hjlt.
  apply where_from_lookup in Hi as (i' & Hii & Htie). simpl in Hii. subst i'.
  rewrite list_lookup_fmap in Htie.
  destruct (cleaned !! i) as [s|] eqn:Hs; [|discriminate]. simpl in Htie.
  injection Htie as Htie.
  destruct (float_eqb_ltb _ _ Htie) as [_ Hnot].
  assert (H0i : mask0 !! i = Some false).
  { unfold mask0. rewrite list_lookup_fmap, Hs. simpl. rewrite Hnot. reflexivity. }
  assert (Hsome : negb (length ties =? 0) = true).
  { destruct ties; [simpl in Hjlt; lia|reflexivity]. }
  assert (Hkept : i ∈ kept <->
            (Z.of_nat j < (if (0 <=? quota)%Z then quota
                           else Z.of_nat (length ties) + quota))%Z).
  { unfold kept, slice_to. destruct (Z.leb_spec 0 quota) as [Hq|Hq].
    - rewrite (take_position ties _ j i Hties Hj). lia.
    - rewrite (take_position ties _ j i Hties Hj). lia. }
  rewrite <- Hkept. split.
  - intros Hout'. destruct (decide (i ∈ kept)) as [Hk|Hk]; [exact Hk|]. exfalso.
    apply Hout'. apply (Hin i nm Hnm). rewrite list_lookup_fmap.
    unfold mask1. rewrite Hsome, set_true_elsewhere by exact Hk. rewrite H0i. reflexivity.
  - intros Hk. apply (Hout i nm Hnd Hnm). rewrite list_lookup_fmap.
    unfold mask1. rewrite Hsome, set_true_set; [reflexivity|exact Hk|].
    rewrite Hlen0. eapply lookup_lt_Some, Hs.
Qed.

Lemma select_features_keeps_first_ties_witness :
  exists drops,
    _select_features MoreInputs.score_two (mk_percentile_selector 50)
      [1; 2; 3; 2]%float [] ["a"; "b"; "c"; "d"] = Ok drops /\
    ("b" ∉ drops <-> (0 < 1)%Z) /\ ("d" ∉ drops <-> (1 < 1)%Z).
Proof.
  destruct (select_features_keeps_first_ties MoreInputs.score_two (mk_percentile_selector 50)
              [1; 2; 3; 2]%float [] ["a"; "b"; "c"; "d"] 2%float)
    as (drops & Hrun & Hties).
  - simpl. lia.
  - simpl. lia.
  - reflexivity.
  - reflexivity.
  - apply (bool_decide_unpack _). vm_compute. exact I.
  - exists drops. split; [exact Hrun|]. split.
    + apply (Hties 0 1 "b"); reflexivity.
    + apply (Hties 1 3 "d"); reflexivity.
Defined.
End PercentileSelection.

(* ===================================================================== *)
(** ** The linear-combination filterer as a whole *)
(* ===================================================================== *)

Section NamesOfTheResolver.
Import Combos.

Lemma omap_ext_Forall {A B} (f g : A -> option B) (l : list A) :
  Forall (fun a => f a = g a) l -> omap f l = omap g l.
Proof.
  induction 1 as [|a l Ha _ IH]; [reflexivity|].
  change (match f a with Some y => y :: omap f l | None => omap f l end
          = match g a with Some y => y :: omap g l | None => omap g l end).
  rewrite Ha, IH. reflexivity.
Qed.

(** The entries picked at the positions [idx] and the entries that
    deleting those positions leaves are, together, the entries. *)
Lemma picked_and_left {A} (l : list A) (k : nat) (idx : list nat) :
  NoDup idx -> Forall (fun j => k <= j < k + length l) idx ->
  omap (fun j => l !! (j - k)) idx ++ Np.delete_from k (list_to_set idx) l ≡ₚ l.
Proof.
  revert k idx. induction l as [|a l IH]; intros k idx Hnd Hrange.
  - destruct idx as [|j idx]; [reflexivity|].
    apply Forall_cons in Hrange as [Hj _]. simpl in Hj. lia.
  - simpl. destruct (decide (k ∈ (list_to_set idx : gset nat))) as [Hin|Hnin].
    + apply elem_of_list_to_set in Hin.
      apply elem_of_Permutation in Hin as [idx' Hperm].
      assert (Hnd' : NoDup (k :: idx')) by (rewrite <- Hperm; exact Hnd).
      apply NoDup_cons in Hnd' as [Hk Hnd'].
      assert (Hrange' : Forall (fun j => S k <= j < S k + length l) idx').
      { apply Forall_forall. intros j Hj.
        assert (Hj' : j ∈ idx) by (rewrite Hperm; right; exact Hj).
        rewrite Forall_forall in Hrange. apply Hrange in Hj'. simpl in Hj'.
        assert (j ≠ k) by (intros ->; contradiction). lia. }
      rewrite (delete_from_ext (S k) (list_to_set idx) (list_to_set idx')).
      2:{ intros j Hj. rewrite !elem_of_list_to_set, Hperm, elem_of_cons.
          split; [intros [E|?]; [exfalso; lia|assumption]|auto]. }
      rewrite Hperm. simpl. rewrite Nat.sub_diag. simpl.
      rewrite (omap_ext_Forall _ (fun j => l !! (j - S k)) idx').
      2:{ eapply Forall_impl; [exact Hrange'|]. intros j Hj. simpl in *.
          replace (j - k) with (S (j - S k)) by lia. reflexivity. }
      constructor. apply IH; assumption.
    + rewrite elem_of_list_to_set in Hnin.
      assert (Hrange' : Forall (fun j => S k <= j < S k + length l) idx).
      { apply Forall_forall. intros j Hj. rewrite Forall_forall in Hrange.
        pose proof (Hrange j Hj) as Hr. simpl in Hr.
        assert (j ≠ k) by (intros ->; contradiction). lia. }
      rewrite (omap_ext_Forall _ (fun j => l !! (j - S k)) idx).
      2:{ eapply Forall_impl; [exact Hrange'|]. intros j Hj. simpl in *.
          replace (j - k) with (S (j - S k)) by lia. reflexivity. }
      rewrite <- Permutation_middle. constructor. apply IH; assumption.
Qed.

Lemma take_idx_omap {A} (l : list A) (idx : list nat) (r : list A) :
  Np.take_idx l idx = Ok r ->
  r = omap (fun j => l !! (j - 0)) idx /\ Forall (fun j => j < length l) idx.
Proof.
  intros Hr. apply mapM_Ok in Hr.
  induction Hr as [|j a idx r Hj _ [IH1 IH2]]; [split; [reflexivity|constructor]|].
  apply getitem_Ok in Hj. split; [|constructor; [eapply lookup_lt_Some, Hj|exact IH2]].
  change (a :: r = match l !! (j - 0) with
                   | Some y => y :: omap (fun j => l !! (j - 0)) idx
                   | None => omap (fun j => l !! (j - 0)) idx
                   end).
  rewrite Nat.sub_0_r, Hj, <- IH1. reflexivity.
Qed.

(** One pass moves names from [cols] to [drops] and loses none. *)
Lemma remove_bad_partition (lc : gmap nat (list nat)) (w w' : work) :
  remove_bad lc w = Ok w' ->
  drops w' ++ names w' ≡ₚ drops w ++ names w /\
  (length (names w) = Np.shape1 (x w) -> length (names w') = Np.shape1 (x w')) /\
  length (names w') < length (names w).
Proof.
  intros Hw.
  destruct (remove_bad_inv lc w w' Hw) as (bad & bad_nms & _ & Hne & Hnms & Hx & Hn & Hd).
  apply take_idx_omap in Hnms as [Hpick Hrange].
  assert (Hbad : forall j, j ∈ bad -> j < length (names w)).
  { intros j Hj. rewrite Forall_forall in Hrange. apply Hrange, elem_of_elements, Hj. }
  split; [|split].
  - rewrite Hd, Hn, <- app_assoc. apply Permutation_app_head.
    rewrite Hpick. unfold Np.delete.
    rewrite <- (list_to_set_elements_L bad) at 2.
    apply picked_and_left; [apply NoDup_elements|].
    eapply Forall_impl; [exact Hrange|]. intros j Hj. simpl in *. lia.
  - intros Hsync. rewrite Hn, Hx. unfold Np.delete_columns, Np.shape1. simpl.
    pose proof (delete_length (names w) bad Hbad) as H1.
    pose proof (delete_length (Np.coldata (x w)) bad) as H2.
    unfold Np.shape1 in Hsync. rewrite <- Hsync in H2. specialize (H2 Hbad). lia.
  - rewrite Hn. pose proof (delete_length (names w) bad Hbad) as H1.
    assert (size bad ≠ 0) by (apply size_non_empty_iff; intros E; apply Hne;
                                apply leibniz_equiv, E).
    lia.
Qed.

(** X10: whatever the decomposition answers, the loop of [fit_transform]
    loses no name and invents none: when it returns, the names dropped and
    the names left are, together, the names it started from; each pass
    that ran took a name away; and the names stay one per column of the
    matrix. *)
Theorem while_lc_partitions_names `{HQR : QR}
    (fuel : nat) (lc : option (gmap nat (list nat))) (w w' : work) :
  while_lc fuel lc w = Ok w' ->
  drops w' ++ names w' ≡ₚ drops w ++ names w /\
  (length (names w) = Np.shape1 (x w) -> length (names w') = Np.shape1 (x w')) /\
  (lc ≠ None -> length (names w') < length (names w)).
Proof.
  revert lc w. induction fuel as [|fuel IH]; intros lc w; destruct lc as [d|]; simpl;
    try discriminate;
    try (intros [= <-]; split; [reflexivity|split; [auto|intros E; congruence]]).
  unfold mbind, outcome_bind.
  destruct (remove_bad d w) as [w1| |] eqn:Hw1; try discriminate.
  destruct (_enum_lc _) as [lc1| |]; try discriminate.
  intros Hrun.
  destruct (remove_bad_partition d w w1 Hw1) as (Hp1 & Hs1 & Hl1).
  destruct (IH lc1 w1 Hrun) as (Hp & Hs & Hl).
  split; [rewrite Hp; exact Hp1|]. split; [auto|].
  intros _. destruct lc1 as [d1|].
  - specialize (Hl ltac:(discriminate)). lia.
  - destruct fuel; simpl in Hrun; injection Hrun as <-; exact Hl1.
Qed.
End NamesOfTheResolver.

Section FitTransformAsAWhole.
Import Combos.

Lemma while_lc_partitions_names_witness :
  ["z"] ++ ["a"; "b"] ≡ₚ [] ++ ["a"; "z"; "b"] /\
  (length ["a"; "z"; "b"] = Np.shape1 (Pd.as_matrix Examples.unit_zero_frame) ->
   length ["a"; "b"] = Np.shape1 (Pd.as_matrix Examples.unit_frame)) /\
  (Some (<[0 := [1]]> (∅ : gmap nat (list nat))) ≠ None ->
   length ["a"; "b"] < length ["a"; "z"; "b"]).
Proof.
  apply (@while_lc_partitions_names Examples.zc_qr 3 (Some (<[0 := [1]]> ∅))
           {| x := Pd.as_matrix Examples.unit_zero_frame;
              names := ["a"; "z"; "b"]; drops := [] |}
           {| x := Pd.as_matrix Examples.unit_frame;
              names := ["a"; "b"]; drops := ["z"] |}).
  vm_compute. reflexivity.
Defined.

Lemma columns_drop_columns (X F : Pd.DataFrame) (names : list string) :
  Pd.drop_columns X names = Ok F ->
  Pd.index F = Pd.index X /\
  Pd.columns F = filter (fun nm => nm ∉ names) (Pd.columns X) /\
  names ⊆ Pd.columns X.
Proof.
  unfold Pd.drop_columns.
  destruct (decide (Forall (fun nm => nm ∈ Pd.columns X) names)) as [Hall|]; [|discriminate].
  intros [= <-]. simpl. split; [reflexivity|]. split.
  - unfold Pd.columns. simpl.
    induction (Pd.coldata X) as [|c l IH]; [reflexivity|].
    rewrite filter_cons. simpl. rewrite filter_cons.
    destruct (decide (fst c ∉ names)); simpl; rewrite IH; reflexivity.
  - intros nm Hnm. rewrite Forall_forall in Hall. apply Hall, Hnm.
Qed.

Lemma drop_columns_data (X F : Pd.DataFrame) (names : list string) :
  Pd.drop_columns X names = Ok F ->
  Pd.coldata F = filter (fun c => fst c ∉ names) (Pd.coldata X).
Proof.
  unfold Pd.drop_columns. destruct (decide _); [|discriminate]. intros [= <-]. reflexivity.
Qed.

(** X11: what [fit_transform] hands back, whatever the decomposition
    answers: [drop_] holds no name twice and only names of the columns
    that were evaluated; the frame is the validated frame, rows untouched,
    without the columns of [drop_] and with the others, label and data, in
    their order (its matrix when [as_df] is off); and prescribed columns
    were two or more. *)
Theorem fit_transform_output `{HQR : QR} `{HU : FrameUtils}
    (fuel : nat) (self : LinearCombinationFilterer) (X X' : Pd.DataFrame)
    (cols' : option (list string)) (drop_ : list string)
    (out : Pd.DataFrame + Np.ndarray) :
  validate_is_pd X (cols self) true = Ok (X', cols') ->
  fit_transform fuel self X = Ok (drop_, out) ->
  NoDup drop_ /\ drop_ ⊆ _cols_if_none X' cols' /\
  (forall cs, cols' = Some cs -> 2 <= length cs) /\
  exists F, out = (if as_df self then inl F else inr (Pd.as_matrix F)) /\
            Pd.index F = Pd.index X' /\
            Pd.columns F = filter (fun nm => nm ∉ drop_) (Pd.columns X') /\
            Pd.coldata F = filter (fun c => fst c ∉ drop_) (Pd.coldata X').
Proof.
  intros Hv. unfold fit_transform. rewrite Hv. simpl.
  destruct (Select._validate_cols cols') as [[]| |] eqn:Hcols; try discriminate. simpl.
  destruct (Pd.select X' (_cols_if_none X' cols')) as [sub| |] eqn:Hsel; try discriminate.
  simpl.
  destruct (_enum_lc _) as [lc| |] eqn:Hlc; try discriminate. simpl.
  destruct (while_lc fuel lc _) as [w'| |] eqn:Hw; try discriminate. simpl.
  destruct (Pd.drop_columns X' _) as [F| |] eqn:HF; try discriminate. simpl.
  intros [= <- <-].
  destruct (columns_drop_columns _ _ _ HF) as (Hidx & Hcolumns & _).
  split; [apply NoDup_elements|]. split; [|split].
  - pose proof (while_lc_drops _ _ _ _ (_cols_if_none X' cols') Hw) as Hdrops.
    intros nm Hnm. apply elem_of_elements, elem_of_list_to_set in Hnm.
    apply Hdrops; [reflexivity| |exact Hnm]. intros y Hy. inversion Hy.
  - intros cs ->. simpl in Hcols.
    destruct (Nat.ltb_spec (length cs) 2); [discriminate|assumption].
  - exists F. pose proof (drop_columns_data _ _ _ HF). auto.
Qed.

Lemma fit_transform_output_witness :
  NoDup ["z"] /\ ["z"] ⊆ @_cols_if_none Examples.spec_utils Examples.unit_zero_frame None /\
  (forall cs, @None (list string) = Some cs -> 2 <= length cs) /\
  exists F, inl Examples.unit_frame = (if as_df (mk_lcf None true) then inl F
                                       else inr (Pd.as_matrix F)) /\
            Pd.index F = Pd.index Examples.unit_zero_frame /\
            Pd.columns F = filter (fun nm => nm ∉ ["z"]) (Pd.columns Examples.unit_zero_frame) /\
            Pd.coldata F = filter (fun c => fst c ∉ ["z"]) (Pd.coldata Examples.unit_zero_frame).
Proof.
  apply (@fit_transform_output Examples.zc_qr Examples.spec_utils 3 (mk_lcf None true)
           Examples.unit_zero_frame Examples.unit_zero_frame None ["z"]
           (inl Examples.unit_frame)); vm_compute; reflexivity.
Defined.

(** X12: prescribed columns fewer than two make [fit_transform] raise
    ValueError before any decomposition, whatever the frame holds. *)
Theorem fit_transform_needs_two_columns `{HQR : QR} `{HU : FrameUtils}
    (fuel : nat) (self : LinearCombinationFilterer) (X X' : Pd.DataFrame)
    (cs : list string) :
  validate_is_pd X (cols self) true = Ok (X', Some cs) ->
  length cs < 2 ->
  fit_transform fuel self X = Raise ValueError.
Proof.
  intros Hv Hlen. unfold fit_transform. rewrite Hv. simpl.
  destruct (Nat.ltb_spec (length cs) 2) as [_|Hge]; [reflexivity|lia].
Qed.

Lemma fit_transform_needs_two_columns_witness :
  @fit_transform Examples.zc_qr Examples.spec_utils 3 (mk_lcf (Some ["a"]) true)
    Examples.unit_zero_frame = Raise ValueError.
Proof.
  apply (@fit_transform_needs_two_columns Examples.zc_qr Examples.spec_utils 3
           (mk_lcf (Some ["a"]) true) Examples.unit_zero_frame Examples.unit_zero_frame ["a"]).
  - vm_compute. reflexivity.
  - simpl. lia.
Defined.

(** X13: under the laws of the decomposition, [fit_transform] returns on
    every frame that passes the validation, carries no label twice and
    holds the columns to evaluate, with one unit of fuel per such column;
    with no prescribed columns this includes frames of a single column.
    The frame returned is the frame given without the columns of [drop_],
    label and data. *)
Theorem fit_transform_total `{HQR : QR} `{HU : FrameUtils} (laws : QRLaws)
    (self : LinearCombinationFilterer) (X sub : Pd.DataFrame)
    (cols' : option (list string)) :
  validate_is_pd X (cols self) true = Ok (X, cols') ->
  (forall cs, cols' = Some cs -> 2 <= length cs) ->
  NoDup (Pd.columns X) ->
  Pd.select X (_cols_if_none X cols') = Ok sub ->
  exists drop_ F,
    fit_transform (length (_cols_if_none X cols')) self X
    = Ok (drop_, if as_df self then inl F else inr (Pd.as_matrix F)) /\
    drop_ ⊆ _cols_if_none X cols' /\
    Pd.index F = Pd.index X /\
    Pd.columns F = filter (fun nm => nm ∉ drop_) (Pd.columns X) /\
    Pd.coldata F = filter (fun c => fst c ∉ drop_) (Pd.coldata X).
Proof.
  intros Hv Htwo Hnd Hsel.
  assert (Hcols : Select._validate_cols cols' = Ok tt).
  { destruct cols' as [cs|]; [|reflexivity]. simpl.
    specialize (Htwo cs eq_refl).
    destruct (Nat.ltb_spec (length cs) 2); [lia|reflexivity]. }
  destruct (fit_transform_returns laws self X sub cols' Hv Hcols Hnd Hsel)
    as (drop_ & out & Hrun & Hsub).
  exists drop_.
  assert (Hshape : exists F, out = (if as_df self then inl F else inr (Pd.as_matrix F)) /\
                   Pd.index F = Pd.index X /\
                   Pd.columns F = filter (fun nm => nm ∉ drop_) (Pd.columns X) /\
                   Pd.coldata F = filter (fun c => fst c ∉ drop_) (Pd.coldata X)).
  { revert Hrun. unfold fit_transform. rewrite Hv. simpl. rewrite Hcols. simpl.
    rewrite Hsel. simpl.
    destruct (_enum_lc _) as [lc| |]; try discriminate. simpl.
    destruct (while_lc _ lc _) as [w'| |]; try discriminate. simpl.
    destruct (Pd.drop_columns X _) as [F| |] eqn:HF; try discriminate. simpl.
    intros [= <- <-]. exists F. split; [reflexivity|].
    destruct (columns_drop_columns _ _ _ HF) as (? & ? & _).
    pose proof (drop_columns_data _ _ _ HF). auto. }
  destruct Hshape as (F & -> & HF). exists F. auto.
Qed.

Lemma fit_transform_total_witness :
  exists drop_ F,
    @fit_transform Examples.zc_qr Examples.spec_utils 1 (mk_lcf None true) Examples.zero_frame
    = Ok (drop_, inl F) /\
    drop_ ⊆ ["a"] /\
    Pd.index F = ["0"; "1"] /\
    Pd.columns F = filter (fun nm => nm ∉ drop_) ["a"] /\
    Pd.coldata F = filter (fun c => fst c ∉ drop_) [("a", [0; 0]%float)].
Proof.
  apply (@fit_transform_total Examples.zc_qr Examples.spec_utils zc_qr_laws (mk_lcf None true)
           Examples.zero_frame Examples.zero_frame None).
  - vm_compute. reflexivity.
  - intros cs E. discriminate E.
  - apply (bool_decide_unpack _). vm_compute. exact I.
  - vm_compute. reflexivity.
Defined.
End FitTransformAsAWhole.

(* ===================================================================== *)
(** ** The sparse-feature dropper *)
(* ===================================================================== *)

Section SparseColumns.
Import Sparse.

(** Zero over a count is zero, or NaN when the count is zero; no
    threshold from zero up is below it. *)
Lemma zero_quotient_not_above (y t : float) :
  (0 <=? t)%float = true -> (t <? 0 / y)%float = false.
Proof.
  intros Hle. apply not_true_is_false. intros Hlt.
  apply leb_place in Hle as (k0 & kt & H0 & Ht & Hord).
  apply ltb_place in Hlt as (kt' & kq & Ht' & Hq & Hord').
  rewrite Ht in Ht'. injection Ht' as <-.
  change (Prim2SF 0) with (S754_zero false) in H0. injection H0 as <-.
  rewrite FloatAxioms.div_spec in Hq.
  change (Prim2SF 0) with (S754_zero false) in Hq.
  assert (Hkq : kq = (0, 0, 0)%Z).
  { unfold SF64div, SFdiv in Hq.
    destruct (Prim2SF y) as [sy|sy| |sy my ey]; simpl in Hq; congruence. }
  subst kq. destruct kt as [[a b] c].
  unfold Order.lex_lt in *. simpl in *.
  destruct Hord as [Hord|Hord]; [lia|]. injection Hord as <- <- <-. lia.
Qed.

(** A column without a missing value has no sparsity above a threshold
    from zero up. *)
Lemma full_column_not_sparse (x : list float) (t : float) :
  Forall (fun v => is_nan v = false) x -> (0 <=? t)%float = true ->
  Np.gtb (sparsity x) t = false.
Proof.
  intros Hfull Ht. unfold Np.gtb, sparsity.
  assert (Hnone : filter (fun v => Np.isnull v = true) x = []).
  { induction Hfull as [|v x Hv _ IH]; [reflexivity|].
    rewrite filter_cons_False by (unfold Np.isnull; congruence). exact IH. }
  rewrite Hnone. change (Np.of_nat (length [])) with 0%float.
  apply zero_quotient_not_above, Ht.
Qed.

Lemma select_lookup (X sub : Pd.DataFrame) (cols : list string) :
  NoDup (Pd.columns X) -> Pd.select X cols = Ok sub ->
  Pd.index sub = Pd.index X /\ Pd.columns sub = cols /\
  Forall (fun c => c ∈ Pd.coldata X) (Pd.coldata sub).
Proof.
  intros Hnd Hsel. destruct (select_unique X sub cols Hnd Hsel) as [Hidx Hall].
  split; [exact Hidx|]. unfold Pd.columns. destruct sub as [idx cd]. simpl in *.
  clear Hsel Hidx. induction Hall as [|nm c cols cs [Hnm Hc] _ [IH1 IH2]]; [split; [reflexivity|constructor]|].
  split; [simpl; rewrite Hnm, IH1; reflexivity|constructor; assumption].
Qed.

(** X14: after the validation of the frame, a threshold that is NaN,
    below zero, or one or more makes [SparseFeatureDropper.fit] raise
    ValueError, whatever the frame holds. *)
Theorem sparse_threshold_is_validated (U : FrameUtils)
    (self : SparseFeatureDropper) (X X' : Pd.DataFrame) (cols' : option (list string)) :
  @validate_is_pd U X (cols self) false = Ok (X', cols') ->
  is_nan (threshold self) = true \/ (threshold self <? 0)%float = true \/
  (1 <=? threshold self)%float = true ->
  @fit U self X = Raise ValueError.
Proof.
  intros Hv Hbad. unfold fit. rewrite Hv. simpl.
  assert (Hno : ((0 <=? threshold self)%float && (threshold self <? 1)%float) = false).
  { apply not_true_is_false. intros Hyes. apply andb_true_iff in Hyes as [H0 H1].
    destruct (float_leb_ltb _ _ H0) as (Hlt & _ & Hnan).
    destruct Hbad as [Hbad|[Hbad|Hbad]]; [congruence|congruence|].
    destruct (float_leb_ltb _ _ Hbad) as (Hlt' & _). congruence. }
  rewrite Hno. reflexivity.
Qed.

Lemma sparse_threshold_is_validated_witness :
  @fit Examples.spec_utils (mk_sfd None 1 true) MoreInputs.sparse_frame = Raise ValueError.
Proof.
  apply (sparse_threshold_is_validated Examples.spec_utils (mk_sfd None 1 true)
           MoreInputs.sparse_frame MoreInputs.sparse_frame None).
  - reflexivity.
  - right. right. vm_compute. reflexivity.
Defined.

(** X15: on a frame that carries no label twice, with a valid threshold
    and as many evaluated columns, one at least, as the frame has columns, [SparseFeatureDropper.fit] returns; [sparsity_] holds the
    share of missing values of each evaluated column; the mask is applied
    to the columns of the frame by position: the frame's [i]-th name is
    dropped when the [i]-th evaluated column has a sparsity above the
    threshold, and is not (no name coming twice) when it has not, as is
    the case when that column misses no value. *)
Theorem sparse_mask_by_position (U : FrameUtils)
    (self : SparseFeatureDropper) (X X' sub : Pd.DataFrame) (cols' : option (list string)) :
  @validate_is_pd U X (cols self) false = Ok (X', cols') ->
  (0 <=? threshold self)%float = true -> (threshold self <? 1)%float = true ->
  NoDup (Pd.columns X') ->
  Pd.select X' (@_cols_if_none U X' cols') = Ok sub ->
  @_cols_if_none U X' cols' ≠ [] ->
  length (@_cols_if_none U X' cols') = length (Pd.columns X') ->
  exists f, @fit U self X = Ok f /\
    cols_ f = cols' /\
    sparsity_ f = map (fun c => sparsity (snd c)) (Pd.coldata sub) /\
    sublist (drop_ f) (Pd.columns X') /\
    forall i nm c, Pd.columns X' !! i = Some nm -> Pd.coldata sub !! i = Some c ->
      @_cols_if_none U X' cols' !! i = Some (fst c) /\
      ((threshold self <? sparsity (snd c))%float = true -> nm ∈ drop_ f) /\
      c ∈ Pd.coldata X' /\
      ((threshold self <? sparsity (snd c))%float = false -> nm ∉ drop_ f) /\
      (Forall (fun v => is_nan v = false) (snd c) -> nm ∉ drop_ f).
Proof.
  intros Hv H0 H1 Hnd Hsel _ Hlen. unfold fit. rewrite Hv. simpl. rewrite H0, H1. simpl.
  rewrite Hsel. simpl.
  destruct (select_lookup _ _ _ Hnd Hsel) as (_ & Hcols & Hdata).
  set (mask := map (fun s => Np.gtb s (threshold self))
                 (map (fun c => sparsity (snd c)) (Pd.coldata sub))).
  assert (Hmlen : length (Pd.columns X') = length mask).
  { unfold mask. rewrite !length_map, <- Hlen, <- Hcols. unfold Pd.columns.
    rewrite length_map. reflexivity. }
  destruct (boolean_index_spec (Pd.columns X') mask Hmlen) as (r & Hr & Hsub & Hin & Hout).
  rewrite Hr. simpl. eexists. split; [reflexivity|]. simpl.
  split; [reflexivity|]. split; [reflexivity|]. split; [exact Hsub|].
  intros i nm c Hnm Hc.
  assert (Hm : mask !! i = Some (Np.gtb (sparsity (snd c)) (threshold self))).
  { unfold mask. rewrite !list_lookup_fmap, Hc. reflexivity. }
  unfold Np.gtb in Hm.
  split; [rewrite <- Hcols; unfold Pd.columns; rewrite list_lookup_fmap, Hc; reflexivity|].
  split; [|split; [|split]].
  - intros Habove. rewrite Habove in Hm. eapply Hin; eauto.
  - rewrite Forall_forall in Hdata. eapply Hdata, list_elem_of_lookup_2, Hc.
  - intros Hnot. rewrite Hnot in Hm. eapply Hout; eauto.
  - intros Hfull. pose proof (full_column_not_sparse _ _ Hfull H0) as Hnot.
    unfold Np.gtb in Hnot. rewrite Hnot in Hm. eapply Hout; eauto.
Qed.

Lemma sparse_mask_by_position_witness :
  exists f, @fit Examples.spec_utils (mk_sfd (Some ["b"; "a"]) 0.5 true)
              MoreInputs.sparse_frame = Ok f /\
    cols_ f = Some ["b"; "a"] /\
    sparsity_ f = [0.75; 0]%float /\
    drop_ f = ["a"].
Proof.
  destruct (sparse_mask_by_position Examples.spec_utils (mk_sfd (Some ["b"; "a"]) 0.5 true)
              MoreInputs.sparse_frame MoreInputs.sparse_frame
              (Pd.mk_frame ["0"; "1"; "2"; "3"]
                 [("b", [nan; 5; nan; nan]%float); ("a", [1; 2; 3; 4]%float)])
              (Some ["b"; "a"]))
    as (f & Hf & Hc & Hs & _).
  - reflexivity.
  - vm_compute. reflexivity.
  - vm_compute. reflexivity.
  - apply (bool_decide_unpack _). vm_compute. exact I.
  - vm_compute. reflexivity.
  - discriminate.
  - reflexivity.
  - exists f. split; [exact Hf|]. split; [exact Hc|]. split.
    + rewrite Hs. vm_compute. reflexivity.
    + revert Hf. vm_compute. intros [= <-]. reflexivity.
Defined.
End SparseColumns.

(* ===================================================================== *)
(** ** The feature retainer *)
(* ===================================================================== *)

Section RetainedColumns.
Import Retainer.

Lemma select_returns (X : Pd.DataFrame) (cols : list string) :
  NoDup (Pd.columns X) -> cols ⊆ Pd.columns X ->
  exists sub, Pd.select X cols = Ok sub /\
              Pd.index sub = Pd.index X /\ Pd.columns sub = cols /\
              Forall2 (fun nm c => fst c = nm /\ c ∈ Pd.coldata X) cols (Pd.coldata sub).
Proof.
  intros Hnd Hsub.
  destruct (mapM_returns
              (fun nm => match filter (fun c : string * list float => fst c = nm)
                                 (Pd.coldata X) with
                         | [] => Raise KeyError
                         | c :: cs' => Ok (c :: cs')
                         end) cols) as [cs Hcs].
  { apply Forall_forall. intros nm Hnm. apply Hsub in Hnm.
    destruct (filter_unique_label nm (Pd.coldata X) Hnd Hnm) as (a & _ & Hf).
    rewrite Hf. eauto. }
  assert (Hsel : Pd.select X cols = Ok {| Pd.index := Pd.index X; Pd.coldata := concat cs |}).
  { unfold Pd.select. rewrite Hcs. reflexivity. }
  eexists. split; [exact Hsel|].
  destruct (select_lookup _ _ _ Hnd Hsel) as (? & ? & _).
  destruct (select_unique _ _ _ Hnd Hsel) as (_ & ?). auto.
Qed.

(** Selecting all the columns of a frame by their names, none of which
    comes twice, gives the frame. *)
Lemma select_all_columns (X : Pd.DataFrame) :
  NoDup (Pd.columns X) -> Pd.select X (Pd.columns X) = Ok X.
Proof.
  intros Hnd.
  assert (Hcs : mapM (fun nm => match filter (fun c : string * list float => fst c = nm)
                                       (Pd.coldata X) with
                                | [] => Raise KeyError
                                | c :: cs' => Ok (c :: cs')
                                end) (Pd.columns X)
                = Ok (map (fun c => [c]) (Pd.coldata X))).
  { apply mapM_Ok. unfold Pd.columns. apply Forall2_fmap, Forall_Forall2_diag, Forall_forall.
    intros [nm data] Hc. simpl.
    destruct (filter_unique_label nm (Pd.coldata X) Hnd) as (a & Ha & Hf).
    { apply list_elem_of_fmap. exists (nm, data). auto. }
    rewrite Hf. do 2 f_equal.
    assert (Hin : (nm, data) ∈ filter (fun c : string * list float => fst c = nm) (Pd.coldata X))
      by (apply list_elem_of_filter; auto).
    rewrite Hf in Hin. apply list_elem_of_singleton in Hin. congruence. }
  unfold Pd.select. rewrite Hcs. simpl.
  assert (Hconcat : forall l : list (string * list float),
            concat (map (fun c => [c]) l) = l).
  { induction l as [|c l IH]; [reflexivity|]. simpl. rewrite IH. reflexivity. }
  rewrite Hconcat. destruct X; reflexivity.
Qed.

Lemma filter_in_perm (cs columns : list string) :
  NoDup cs -> NoDup columns -> cs ⊆ columns ->
  cs ++ filter (fun nm => nm ∉ cs) columns ≡ₚ columns.
Proof.
  intros Hcs Hcolumns Hsub. apply NoDup_Permutation.
  - apply NoDup_app. split; [exact Hcs|]. split; [|apply NoDup_filter, Hcolumns].
    intros nm Hin Hout. apply list_elem_of_filter in Hout as [Hout _]. contradiction.
  - exact Hcolumns.
  - intros nm. rewrite elem_of_app, list_elem_of_filter. split.
    + intros [Hin|[_ Hin]]; [apply Hsub, Hin|exact Hin].
    + intros Hin. destruct (decide (nm ∈ cs)); auto.
Qed.

(** X16: with prescribed columns that the frame has, [FeatureRetainer.fit]
    sets [drop_] to the other columns of the frame, in their order, so
    that (no name coming twice) the prescribed and the dropped columns are
    together the columns of the frame; [transform] then answers, on a
    frame that carries no label twice, the prescribed columns in the order
    prescribed, each with the data it has in the frame, rows untouched. *)
Theorem retainer_keeps_prescribed (U : FrameUtils) (self : FeatureRetainer)
    (X X' : Pd.DataFrame) (cs : list string) :
  @validate_is_pd U X (cols self) false = Ok (X', Some cs) ->
  cs ⊆ Pd.columns X' ->
  exists f, @fit U self X = Ok f /\
    cols_ f = Some cs /\
    drop_ f = filter (fun nm => nm ∉ cs) (Pd.columns X') /\
    (NoDup cs -> NoDup (Pd.columns X') -> cs ++ drop_ f ≡ₚ Pd.columns X') /\
    forall Y Y' c, @validate_is_pd U Y (Some cs) false = Ok (Y', c) ->
      NoDup (Pd.columns Y') -> cs ⊆ Pd.columns Y' ->
      exists R, @transform U self f Y
                = Ok (if as_df self then inl R else inr (Pd.as_matrix R)) /\
                Pd.columns R = cs /\ Pd.index R = Pd.index Y' /\
                Forall2 (fun nm col => fst col = nm /\ col ∈ Pd.coldata Y')
                        cs (Pd.coldata R).
Proof.
  intros Hv Hsub. unfold fit. rewrite Hv. simpl.
  unfold Pd.drop_columns. rewrite decide_True by (apply Forall_forall; exact Hsub). simpl.
  eexists. split; [reflexivity|]. simpl. split; [reflexivity|].
  assert (Hdrop : Pd.columns {| Pd.index := Pd.index X';
                                Pd.coldata := filter (fun c => fst c ∉ cs) (Pd.coldata X') |}
                  = filter (fun nm => nm ∉ cs) (Pd.columns X')).
  { apply (columns_drop_columns X' _ cs). unfold Pd.drop_columns.
    rewrite decide_True by (apply Forall_forall; exact Hsub). reflexivity. }
  rewrite Hdrop. split; [reflexivity|]. split; [intros; apply filter_in_perm; assumption|].
  intros Y Y' c HvY HndY HsubY. unfold transform. simpl. rewrite HvY. simpl.
  destruct (select_returns Y' cs HndY HsubY) as (R & HR & Hidx & Hcols & Hdata).
  rewrite HR. simpl. exists R. auto.
Qed.

Lemma retainer_keeps_prescribed_witness :
  exists f, @fit Examples.spec_utils (mk_retainer (Some ["c"; "a"]) true)
              MoreInputs.abc_frame = Ok f /\
    cols_ f = Some ["c"; "a"] /\ drop_ f = ["b"] /\
    exists R, @transform Examples.spec_utils (mk_retainer (Some ["c"; "a"]) true) f
                MoreInputs.abc_frame = Ok (inl R) /\
              Pd.columns R = ["c"; "a"] /\
              Pd.index R = ["0"; "1"; "2"; "3"] /\
              Forall2 (fun nm col => fst col = nm /\ col ∈ Pd.coldata MoreInputs.abc_frame)
                      ["c"; "a"] (Pd.coldata R).
Proof.
  destruct (retainer_keeps_prescribed Examples.spec_utils (mk_retainer (Some ["c"; "a"]) true)
              MoreInputs.abc_frame MoreInputs.abc_frame ["c"; "a"])
    as (f & Hf & Hc & Hd & _ & Ht).
  - reflexivity.
  - apply (bool_decide_unpack _). vm_compute. exact I.
  - destruct (Ht MoreInputs.abc_frame MoreInputs.abc_frame (Some ["c"; "a"]))
      as (R & HR & HRc & HRi & HRd).
    + reflexivity.
    + apply (bool_decide_unpack _). vm_compute. exact I.
    + apply (bool_decide_unpack _). vm_compute. exact I.
    + exists f. split; [exact Hf|]. split; [exact Hc|]. split; [rewrite Hd; vm_compute; reflexivity|].
      exists R. auto.
Defined.

(** X17: without prescribed columns [FeatureRetainer.fit] lists every
    column of the frame in [drop_], yet [transform] answers the whole
    frame (no name coming twice): what [transform] keeps does not depend
    on [drop_]. *)
Theorem retainer_without_cols_keeps_all (U : FrameUtils) (self : FeatureRetainer)
    (X X' : Pd.DataFrame) :
  @validate_is_pd U X (cols self) false = Ok (X', None) ->
  exists f, @fit U self X = Ok f /\
    cols_ f = None /\ drop_ f = Pd.columns X' /\
    forall Y Y' c, @validate_is_pd U Y None false = Ok (Y', c) ->
      NoDup (Pd.columns Y') ->
      @transform U self f Y = Ok (if as_df self then inl Y' else inr (Pd.as_matrix Y')).
Proof.
  intros Hv. unfold fit. rewrite Hv. cbn [mbind outcome_bind fst snd].
  rewrite drop_columns_nil. simpl.
  eexists. split; [reflexivity|]. simpl. split; [reflexivity|]. split; [reflexivity|].
  intros Y Y' c HvY Hnd. unfold transform. simpl. rewrite HvY. simpl.
  rewrite (select_all_columns Y' Hnd). reflexivity.
Qed.

Lemma retainer_without_cols_keeps_all_witness :
  exists f, @fit Examples.spec_utils (mk_retainer None true) MoreInputs.abc_frame = Ok f /\
    cols_ f = None /\ drop_ f = ["a"; "b"; "c"] /\
    @transform Examples.spec_utils (mk_retainer None true) f MoreInputs.abc_frame
    = Ok (inl MoreInputs.abc_frame).
Proof.
  destruct (retainer_without_cols_keeps_all Examples.spec_utils (mk_retainer None true)
              MoreInputs.abc_frame MoreInputs.abc_frame eq_refl)
    as (f & Hf & Hc & Hd & Ht).
  exists f. split; [exact Hf|]. split; [exact Hc|]. split; [exact Hd|].
  apply (Ht MoreInputs.abc_frame MoreInputs.abc_frame None eq_refl).
  apply (bool_decide_unpack _). vm_compute. exact I.
Defined.
End RetainedColumns.

(* ===================================================================== *)
(** ** The near-zero-variance filterer *)
(* ===================================================================== *)

Section ValueCounts.
Import Nzv.

(** Two numbers are equal ([==]) when they have the same place. *)
Lemma eqb_place (a b : float) :
  (a =? b)%float = true <->
  exists k, Order.place (Prim2SF a) = Some k /\ Order.place (Prim2SF b) = Some k.
Proof.
  rewrite FloatAxioms.eqb_spec. unfold SFeqb. rewrite SFcompare_place.
  destruct (Order.place (Prim2SF a)) as [ka|], (Order.place (Prim2SF b)) as [kb|].
  - destruct (Order.lex ka kb) eqn:E.
    + apply lex_Eq in E as ->. split; [eauto|reflexivity].
    + split; [discriminate|]. intros (k & [= ->] & [= ->]).
      assert (Order.lex k k = Eq) by (apply lex_Eq; reflexivity). congruence.
    + split; [discriminate|]. intros (k & [= ->] & [= ->]).
      assert (Order.lex k k = Eq) by (apply lex_Eq; reflexivity). congruence.
  - split; [discriminate|]. intros (k & _ & [=]).
  - split; [discriminate|]. intros (k & [=] & _).
  - split; [discriminate|]. intros (k & [=] & _).
Qed.

Lemma eqb_refl_not_nan (a : float) : is_nan a = false -> (a =? a)%float = true.
Proof. intros Ha. apply not_nan_place in Ha as [k Hk]. apply eqb_place. eauto. Qed.

Lemma eqb_sym (a b : float) : (a =? b)%float = true -> (b =? a)%float = true.
Proof. rewrite !eqb_place. intros (k & ? & ?). eauto. Qed.

Lemma eqb_trans (a b c : float) :
  (a =? b)%float = true -> (b =? c)%float = true -> (a =? c)%float = true.
Proof.
  rewrite !eqb_place. intros (k & Ha & Hb) (k' & Hb' & Hc).
  rewrite Hb in Hb'. injection Hb' as <-. eauto.
Qed.

Lemma eqb_left_not_nan (a b : float) : (a =? b)%float = true -> is_nan a = false.
Proof. rewrite eqb_place, not_nan_place. intros (k & ? & ?). eauto. Qed.

Lemma distinct_subseteq (s : list float) : distinct s ⊆ s.
Proof.
  induction s as [|v s IH]; simpl; [reflexivity|].
  destruct (existsb _ _).
  - intros d Hd. right. apply IH, Hd.
  - intros d Hd. apply elem_of_cons in Hd as [->|Hd]; [left|right; apply IH, Hd].
Qed.

(** Every value of the series is equal to one of the distinct values. *)
Lemma distinct_covers (s : list float) (w : float) :
  w ∈ s -> is_nan w = false -> exists d, d ∈ distinct s /\ (d =? w)%float = true.
Proof.
  intros Hin Hw. induction s as [|v s IH]; [inversion Hin|]. simpl.
  destruct (existsb (fun u => (u =? v)%float) (distinct s)) eqn:Hex.
  - apply elem_of_cons in Hin as [->|Hin]; [|auto].
    apply existsb_exists in Hex as (d & Hd & Hdv). exists d. split; [|exact Hdv].
    apply list_elem_of_In, Hd.
  - apply elem_of_cons in Hin as [->|Hin].
    + exists v. split; [left|apply eqb_refl_not_nan, Hw].
    + destruct (IH Hin) as (d & Hd & Hdw). exists d. split; [right; exact Hd|exact Hdw].
Qed.

(** No two of the distinct values have the same place. *)
Lemma distinct_NoDup (s : list float) :
  Forall (fun v => is_nan v = false) s ->
  NoDup (map (fun v => Order.place (Prim2SF v)) (distinct s)).
Proof.
  induction 1 as [|v s Hv Hs IH]; simpl; [constructor|].
  destruct (existsb (fun u => (u =? v)%float) (distinct s)) eqn:Hex; [exact IH|].
  simpl. constructor; [|exact IH].
  intros Hin. apply list_elem_of_fmap in Hin as (d & Hplace & Hd).
  assert (Hyes : existsb (fun u => (u =? v)%float) (distinct s) = true); [|congruence].
  apply existsb_exists. exists d. split; [apply list_elem_of_In, Hd|].
  apply not_nan_place in Hv as [k Hk]. apply eqb_place. exists k.
  rewrite <- Hplace. auto.
Qed.

Lemma count_value_compat (a b : float) (s : list float) :
  (a =? b)%float = true -> count_value a s = count_value b s.
Proof.
  intros Hab. unfold count_value. f_equal. apply list_filter_iff. intros u. split.
  - intros Hu. eapply eqb_trans; eauto.
  - intros Hu. eapply eqb_trans; [exact Hu|apply eqb_sym, Hab].
Qed.

(** The entries that are null count for no value. *)
Lemma count_value_present (v : float) (s : list float) :
  count_value v (filter (fun u => Np.isnull u = false) s) = count_value v s.
Proof.
  unfold count_value. f_equal. rewrite list_filter_filter. apply list_filter_iff.
  intros u. split; [tauto|]. intros Hu. split; [exact Hu|].
  unfold Np.isnull. eapply eqb_left_not_nan, Hu.
Qed.

Lemma count_value_pos (v : float) (s : list float) :
  v ∈ s -> is_nan v = false -> 1 <= count_value v s.
Proof.
  intros Hin Hv. unfold count_value.
  assert (Hf : v ∈ filter (fun u => (u =? v)%float = true) s).
  { apply list_elem_of_filter. split; [apply eqb_refl_not_nan, Hv|exact Hin]. }
  destruct (filter _ s); [inversion Hf|simpl; lia].
Qed.

Lemma present_not_nan (s : list float) :
  Forall (fun v => is_nan v = false) (filter (fun v => Np.isnull v = false) s).
Proof. apply Forall_forall. intros v Hv. apply list_elem_of_filter in Hv as [Hv _]. exact Hv. Qed.

Lemma sort_descending_perm (counts : list nat) : sort_descending counts ≡ₚ counts.
Proof. apply merge_sort_Permutation. Qed.

Lemma sort_descending_sorted (counts : list nat) :
  StronglySorted (flip le) (sort_descending counts).
Proof.
  apply StronglySorted_merge_sort.
  - intros a b c Hab Hbc. unfold flip in *. lia.
  - intros a b. unfold flip. lia.
Qed.

(** A series of one value has one count at most. *)
Lemma one_value_one_count (series : list float) (c : float) :
  Forall (fun v => is_nan v = true \/ (v =? c)%float = true) series ->
  length (sort_descending (value_counts series)) <= 1.
Proof.
  intros Hone.
  set (present := filter (fun v => Np.isnull v = false) series).
  assert (Hpresent : Forall (fun v => (v =? c)%float = true) present).
  { apply Forall_forall. intros v Hv. apply list_elem_of_filter in Hv as [Hv Hin].
    rewrite Forall_forall in Hone. destruct (Hone v Hin) as [Hn|Hc]; [|exact Hc].
    unfold Np.isnull in Hv. congruence. }
  assert (Hlen : length (distinct present) <= 1).
  { clear -Hpresent. induction Hpresent as [|v s Hv Hs IH]; simpl; [lia|].
    destruct (distinct s) as [|d [|d' ds]] eqn:Hd; simpl in *; try lia.
    - assert (Hdc : (d =? c)%float = true).
      { rewrite Forall_forall in Hs. apply Hs, distinct_subseteq. rewrite Hd. left. }
      assert (Hdv : (d =? v)%float = true) by (eapply eqb_trans; [exact Hdc|apply eqb_sym, Hv]).
      rewrite Hdv. simpl. lia. }
  rewrite (Permutation_length (sort_descending_perm (value_counts series))).
  unfold value_counts. rewrite length_map. exact Hlen.
Qed.

(** X18: a series whose values that are not null are all equal to one
    number (a constant column, or an empty one) is flagged for the drop
    with a NaN ratio, whatever the ratio asked. *)
Theorem one_value_is_flagged (series : list float) (ratio c : float) :
  Forall (fun v => is_nan v = true \/ (v =? c)%float = true) series ->
  _near_zero_variance_ratio series ratio = (nan, 1%Z).
Proof.
  intros Hone. pose proof (one_value_one_count series c Hone) as Hlen.
  unfold _near_zero_variance_ratio.
  destruct (sort_descending (value_counts series)) as [|c0 [|c1 rest]];
    try reflexivity.
  simpl in Hlen. lia.
Qed.

Lemma one_value_is_flagged_witness :
  _near_zero_variance_ratio [3; nan; 3; 3]%float 20 = (nan, 1%Z).
Proof.
  apply (one_value_is_flagged [3; nan; 3; 3]%float 20 3).
  repeat constructor; (left; reflexivity) || (right; reflexivity).
Defined.

(** X19: on a series with two values that differ, the ratio is the number
    of entries of a most frequent value over the number of entries of a
    value that is most frequent among the others, [drop_] is 1 exactly
    when that quotient is at or above the ratio asked, and null entries
    count for no value. *)
Theorem ratio_of_the_two_most_frequent (series : list float) (ratio u v : float) :
  u ∈ series -> v ∈ series -> is_nan u = false -> is_nan v = false ->
  (u =? v)%float = false ->
  exists v0 v1,
    v0 ∈ series /\ v1 ∈ series /\ (v0 =? v1)%float = false /\
    let c0 := count_value v0 series in
    let c1 := count_value v1 series in
    1 <= c1 <= c0 /\
    (forall w, w ∈ series -> is_nan w = false ->
       count_value w series <= c0 /\
       ((w =? v0)%float = false -> count_value w series <= c1)) /\
    _near_zero_variance_ratio series ratio
    = ((Np.of_nat c0 / Np.of_nat c1)%float,
       if (ratio <=? Np.of_nat c0 / Np.of_nat c1)%float then 1%Z else 0%Z).
Proof.
  intros Hu Hv Hun Hvn Huv. unfold _near_zero_variance_ratio.
  set (present := filter (fun w => Np.isnull w = false) series).
  pose proof (present_not_nan series) as Hpn. fold present in Hpn.
  pose proof (distinct_NoDup present Hpn) as Hnd.
  pose proof (sort_descending_sorted (value_counts series)) as Hsorted.
  pose proof (sort_descending_perm (value_counts series)) as Hperm.
  unfold value_counts in Hperm at 2. fold present in Hperm.
  apply Permutation_map_inv in Hperm as (l & Hl & Hdl).
  rewrite Hl in Hsorted |- *. clear Hl.
  assert (Hcover : forall w, w ∈ series -> is_nan w = false ->
                   exists d, d ∈ l /\ (d =? w)%float = true).
  { intros w Hw Hwn.
    destruct (distinct_covers present w) as (d & Hd & Hdw); [|exact Hwn|].
    - apply list_elem_of_filter. auto.
    - exists d. split; [rewrite <- Hdl; exact Hd|exact Hdw]. }
  assert (Hin : forall d, d ∈ l -> d ∈ series /\ is_nan d = false).
  { intros d Hd. rewrite <- Hdl in Hd. apply distinct_subseteq in Hd.
    apply list_elem_of_filter in Hd as [? ?]. auto. }
  assert (Hnd' : NoDup (map (fun w => Order.place (Prim2SF w)) l)).
  { change (NoDup ((fun w => Order.place (Prim2SF w)) <$> l)). rewrite <- Hdl. exact Hnd. }
  assert (Hdiff : forall a b, (a =? b)%float = true ->
                  Order.place (Prim2SF a) = Order.place (Prim2SF b)).
  { intros a b Hab. apply eqb_place in Hab as (k & -> & ->). reflexivity. }
  destruct l as [|v0 [|v1 rest]].
  - destruct (Hcover u Hu Hun) as (d & Hd & _). inversion Hd.
  - exfalso. destruct (Hcover u Hu Hun) as (d & Hd & Hdu).
    destruct (Hcover v Hv Hvn) as (d' & Hd' & Hdv).
    apply list_elem_of_singleton in Hd, Hd'. subst d d'.
    assert ((u =? v)%float = true) by (eapply eqb_trans; [apply eqb_sym, Hdu|exact Hdv]).
    congruence.
  - subst present. simpl in Hsorted |- *. rewrite !count_value_present in *.
    apply StronglySorted_inv in Hsorted as [Hsorted Hhead].
    apply StronglySorted_inv in Hsorted as [_ Hsecond].
    apply Forall_cons in Hhead as [H01 Hhead]. unfold flip in H01.
    destruct (Hin v0 ltac:(left)) as [Hv0 Hv0n].
    destruct (Hin v1 ltac:(right; left)) as [Hv1 Hv1n].
    apply NoDup_cons in Hnd' as [H0out Hnd'].
    exists v0, v1. split; [exact Hv0|]. split; [exact Hv1|]. split.
    { apply not_true_is_false. intros E. apply H0out. rewrite (Hdiff _ _ E). left. }
    split; [split; [apply count_value_pos; assumption|exact H01]|].
    split; [|reflexivity].
    intros w Hw Hwn. destruct (Hcover w Hw Hwn) as (d & Hd & Hdw).
    rewrite <- (count_value_compat d w series Hdw).
    apply elem_of_cons in Hd as [->|Hd].
    + split; [lia|]. intros Hne. apply eqb_sym in Hdw. congruence.
    + assert (Hle1 : count_value d series <= count_value v1 series).
      { apply elem_of_cons in Hd as [->|Hd]; [lia|].
        rewrite Forall_forall in Hsecond.
        assert (Hc : count_value d (filter (fun w => Np.isnull w = false) series)
                     ∈ map (fun v2 => count_value v2
                                         (filter (fun w => Np.isnull w = false) series)) rest).
        { apply list_elem_of_fmap. exists d. auto. }
        apply Hsecond in Hc. unfold flip in Hc. rewrite !count_value_present in Hc. exact Hc. }
      split; [lia|]. intros _. exact Hle1.
Qed.

Lemma ratio_of_the_two_most_frequent_witness :
  exists v0 v1,
    v0 ∈ [1; 2; 1; 3; 1; 2]%float /\ v1 ∈ [1; 2; 1; 3; 1; 2]%float /\
    (v0 =? v1)%float = false /\
    1 <= count_value v1 [1; 2; 1; 3; 1; 2]%float <= count_value v0 [1; 2; 1; 3; 1; 2]%float /\
    _near_zero_variance_ratio [1; 2; 1; 3; 1; 2]%float 1.2 = (1.5%float, 1%Z).
Proof.
  destruct (ratio_of_the_two_most_frequent [1; 2; 1; 3; 1; 2]%float 1.2 1 2)
    as (v0 & v1 & H0 & H1 & Hne & Hc & _ & _).
  - left.
  - right. left.
  - reflexivity.
  - reflexivity.
  - reflexivity.
  - exists v0, v1. repeat (split; [assumption|]). vm_compute. reflexivity.
Defined.
End ValueCounts.

Section FittingTheVarianceFilterer.
Import Nzv.

(** X20: after the validation of the frame, a strategy other than
    'variance' and 'ratio' makes [NearZeroVarianceFilterer.fit] raise
    ValueError, and so does, under 'ratio', a threshold that is not above
    one (NaN and one included), before any column is looked at. *)
Theorem nzv_parameters_are_validated (U : FrameUtils) (var : list float -> float)
    (self : NearZeroVarianceFilterer) (X X' : Pd.DataFrame) (cols' : option (list string)) :
  @validate_is_pd U X (cols self) true = Ok (X', cols') ->
  (strategy self ≠ "variance" /\ strategy self ≠ "ratio") \/
  (strategy self = "ratio" /\ (1 <? threshold self)%float = false) ->
  @fit U var self X = Raise ValueError.
Proof.
  intros Hv Hbad. unfold fit. rewrite Hv. cbn [mbind outcome_bind fst snd].
  destruct Hbad as [[Hn1 Hn2]|[Hr Hthr]].
  - rewrite bool_decide_eq_false_2; [reflexivity|].
    intros Hin. apply elem_of_cons in Hin as [?|Hin]; [contradiction|].
    apply list_elem_of_singleton in Hin. contradiction.
  - rewrite Hr. rewrite bool_decide_eq_true_2 by (right; left). cbn [negb].
    rewrite bool_decide_eq_false_2 by discriminate.
    rewrite Hthr. reflexivity.
Qed.

Lemma nzv_parameters_are_validated_witness :
  @fit Examples.spec_utils (fun _ => 0%float) (mk_nzv None 1 true "ratio") MoreInputs.abc_frame
  = Raise ValueError.
Proof.
  apply (nzv_parameters_are_validated Examples.spec_utils (fun _ => 0%float)
           (mk_nzv None 1 true "ratio") MoreInputs.abc_frame MoreInputs.abc_frame None).
  - vm_compute. reflexivity.
  - right. split; [reflexivity|vm_compute; reflexivity].
Defined.

Lemma getcol_returns (X : Pd.DataFrame) (nm : string) :
  NoDup (Pd.columns X) -> nm ∈ Pd.columns X -> exists s, Pd.getcol X nm = Ok s.
Proof.
  intros Hnd Hin. destruct (filter_unique_label nm (Pd.coldata X) Hnd Hin) as (a & _ & Hf).
  unfold Pd.getcol. rewrite Hf. eauto.
Qed.

(** X21: under the 'ratio' strategy, with a threshold above one and
    columns to evaluate that the frame has, [fit] returns; [drop_] holds
    evaluated names in their order: the name of a column is dropped when
    [_near_zero_variance_ratio] flags the column, as it does a column of
    one value, and is not (no name coming twice) when it does not; every
    key of the dict [var_] is a dropped name. *)
Theorem nzv_ratio_drops_flagged (U : FrameUtils) (var : list float -> float)
    (self : NearZeroVarianceFilterer) (X X' : Pd.DataFrame) (cols' : option (list string)) :
  @validate_is_pd U X (cols self) true = Ok (X', cols') ->
  strategy self = "ratio" -> (1 <? threshold self)%float = true ->
  @_cols_if_none U X' cols' ≠ [] ->
  NoDup (Pd.columns X') -> @_cols_if_none U X' cols' ⊆ Pd.columns X' ->
  exists f, @fit U var self X = Ok f /\
    cols_ f = cols' /\
    sublist (drop_ f) (@_cols_if_none U X' cols') /\
    (forall i nm s, @_cols_if_none U X' cols' !! i = Some nm -> Pd.getcol X' nm = Ok s ->
       let flag := snd (_near_zero_variance_ratio (map snd s) (threshold self)) in
       (flag ≠ 0%Z -> nm ∈ drop_ f) /\
       (NoDup (@_cols_if_none U X' cols') -> flag = 0%Z -> nm ∉ drop_ f) /\
       (forall c, Forall (fun v => is_nan v = true \/ (v =? c)%float = true) (map snd s) ->
                  nm ∈ drop_ f)) /\
    exists d, var_ f = VarDict d /\ forall nm r, d !! nm = Some r -> nm ∈ drop_ f.
Proof.
  intros Hv Hstrategy Hthr Hne Hnd Hsub. unfold fit. rewrite Hv.
  cbn [mbind outcome_bind fst snd]. rewrite Hstrategy.
  rewrite bool_decide_eq_true_2 by (right; left). cbn [negb].
  rewrite bool_decide_eq_false_2 by discriminate. rewrite Hthr. cbn [negb].
  set (cols := _cols_if_none X' cols') in *.
  set (row := fun col => s ← Pd.getcol X' col;
                         Ok (_near_zero_variance_ratio (map snd s) (threshold self))).
  destruct (mapM_returns row cols) as [matrix Hm].
  { apply Forall_forall. intros nm Hnm.
    destruct (getcol_returns X' nm Hnd (Hsub nm Hnm)) as [s Hs].
    unfold row. rewrite Hs. simpl. eauto. }
  pose proof Hm as Hrows. apply mapM_Ok in Hrows.
  pose proof (Forall2_length _ _ _ Hrows) as Hlen.
  fold row. rewrite Hm. cbn [mbind outcome_bind].
  set (mask := map (fun r : float * Z => negb (snd r =? 0)%Z) matrix).
  destruct (boolean_index_spec cols mask) as (ds & Hds & Hsl & Hin & Hout);
    [unfold mask; rewrite length_map; exact Hlen|].
  destruct (boolean_index_spec (map fst matrix) mask) as (rs & Hrs & _);
    [unfold mask; rewrite !length_map; reflexivity|].
  assert (Hgoal : forall i nm s, cols !! i = Some nm -> Pd.getcol X' nm = Ok s ->
            mask !! i = Some (negb (snd (_near_zero_variance_ratio (map snd s) (threshold self))
                                    =? 0)%Z)).
  { intros i nm s Hi Hs. destruct (Forall2_lookup_l _ _ _ _ _ Hrows Hi) as (r & Hr & Hrow).
    unfold row in Hrow. rewrite Hs in Hrow. simpl in Hrow. injection Hrow as <-.
    unfold mask. rewrite list_lookup_fmap, Hr. reflexivity. }
  clearbody mask. clear Hm Hrows.
  destruct matrix as [|r0 m0]; [destruct cols; [congruence|discriminate Hlen]|].
  cbv iota. rewrite Hds. cbn [mbind outcome_bind]. rewrite Hrs. cbn [mbind outcome_bind].
  eexists. split; [reflexivity|]. simpl. split; [reflexivity|]. split; [exact Hsl|]. split.
  - intros i nm s Hi Hs. pose proof (Hgoal i nm s Hi Hs) as Hmask.
    split; [|split].
    + intros Hflag. apply (Hin i nm Hi). rewrite Hmask. f_equal.
      apply negb_true_iff, Z.eqb_neq, Hflag.
    + intros Hndc Hflag. apply (Hout i nm Hndc Hi). rewrite Hmask, Hflag. reflexivity.
    + intros c Hone. apply (Hin i nm Hi). rewrite Hmask.
      pose proof (one_value_one_count _ c Hone) as Hcount.
      unfold _near_zero_variance_ratio.
      destruct (sort_descending (value_counts (map snd s))) as [|c0 [|c1 rest]];
        try reflexivity.
      simpl in Hcount. lia.
  - eexists. split; [reflexivity|]. intros nm r Hd.
    apply elem_of_list_to_map_2 in Hd. rewrite elem_of_reverse in Hd.
    eapply elem_of_zip_l, Hd.
Qed.

Lemma nzv_ratio_drops_flagged_witness :
  exists f, @fit Examples.spec_utils (fun _ => 0%float) (mk_nzv None 1.5 true "ratio")
              MoreInputs.abc_frame = Ok f /\
    cols_ f = None /\ sublist (drop_ f) ["a"; "b"; "c"] /\ "c" ∈ drop_ f.
Proof.
  destruct (nzv_ratio_drops_flagged Examples.spec_utils (fun _ => 0%float)
              (mk_nzv None 1.5 true "ratio") MoreInputs.abc_frame MoreInputs.abc_frame None)
    as (f & Hf & Hc & Hsl & Hflag & _).
  - vm_compute. reflexivity.
  - reflexivity.
  - vm_compute. reflexivity.
  - discriminate.
  - apply (bool_decide_unpack _). vm_compute. exact I.
  - reflexivity.
  - exists f. split; [exact Hf|]. split; [exact Hc|]. split; [exact Hsl|].
    destruct (Hflag 2 "c" [("0", 3); ("1", 3); ("2", 3); ("3", 3)]%float eq_refl eq_refl)
      as (_ & _ & Hone).
    apply (Hone 3%float). repeat constructor; right; reflexivity.
Defined.

Lemma ltb_right_not_nan (a b : float) : (a <? b)%float = true -> is_nan b = false.
Proof. rewrite ltb_place, not_nan_place. intros (ka & kb & _ & Hb & _). eauto. Qed.

(** X22: under the 'variance' strategy, on a frame that carries no label
    twice and on columns that the frame has, [fit] returns; [drop_] holds evaluated names in their order and [var_]
    one variance for each, all strictly below the threshold; a column
    whose variance is strictly below the threshold is dropped; and a NaN
    threshold drops nothing. *)
Theorem nzv_variance_drops_low (U : FrameUtils) (var : list float -> float)
    (self : NearZeroVarianceFilterer) (X X' sub : Pd.DataFrame)
    (cols' : option (list string)) :
  @validate_is_pd U X (cols self) true = Ok (X', cols') ->
  strategy self = "variance" ->
  NoDup (Pd.columns X') ->
  Pd.select X' (@_cols_if_none U X' cols') = Ok sub ->
  exists f vs, @fit U var self X = Ok f /\
    cols_ f = cols' /\ var_ f = VarList vs /\ length vs = length (drop_ f) /\
    sublist (drop_ f) (@_cols_if_none U X' cols') /\
    Forall (fun v => (v <? threshold self)%float = true) vs /\
    (forall c, c ∈ Pd.coldata sub -> (var (snd c) <? threshold self)%float = true ->
               fst c ∈ drop_ f) /\
    (is_nan (threshold self) = true -> drop_ f = []).
Proof.
  intros Hv Hstrategy Hnd Hsel. unfold fit. rewrite Hv.
  cbn [mbind outcome_bind fst snd]. rewrite Hstrategy.
  rewrite bool_decide_eq_true_2 by left. cbn [negb].
  rewrite bool_decide_eq_true_2 by reflexivity. rewrite Hsel. cbn [mbind outcome_bind].
  destruct (select_lookup _ _ _ Hnd Hsel) as (_ & Hcols & _).
  set (variances := map (fun c : string * list float => (fst c, var (snd c))) (Pd.coldata sub)).
  set (low := filter (fun e : string * float => (snd e <? threshold self)%float = true)
                variances).
  exists (mk_fitted cols' (map fst low) (VarList (map snd low))), (map snd low).
  split; [reflexivity|]. simpl. split; [reflexivity|]. split; [reflexivity|].
  split; [rewrite !length_map; reflexivity|]. split; [|split; [|split]].
  - rewrite <- Hcols. unfold Pd.columns.
    assert (Hnames : map fst (Pd.coldata sub) = map fst variances).
    { unfold variances. rewrite map_map. reflexivity. }
    rewrite Hnames. apply (fmap_sublist fst), sublist_filter.
  - apply Forall_map, Forall_forall. intros e He.
    apply list_elem_of_filter in He as [He _]. exact He.
  - intros c Hc Hlow. apply list_elem_of_fmap. exists (fst c, var (snd c)).
    split; [reflexivity|]. apply list_elem_of_filter. split; [exact Hlow|].
    unfold variances. apply list_elem_of_fmap. exists c. auto.
  - intros Hnan. destruct low as [|e rest] eqn:Hlow; [reflexivity|].
    assert (He : e ∈ low) by (rewrite Hlow; left).
    unfold low in He. apply list_elem_of_filter in He as [He _].
    apply ltb_right_not_nan in He. congruence.
Qed.

Lemma nzv_variance_drops_low_witness :
  exists f vs, @fit Examples.spec_utils (fun x => match x with a :: b :: _ => abs (a - b) | _ => 0 end%float)
                 (mk_nzv None 0.05 true "variance") MoreInputs.abc_frame = Ok f /\
    var_ f = VarList vs /\ length vs = length (drop_ f) /\ "c" ∈ drop_ f.
Proof.
  destruct (nzv_variance_drops_low Examples.spec_utils
              (fun x => match x with a :: b :: _ => abs (a - b) | _ => 0 end%float)
              (mk_nzv None 0.05 true "variance") MoreInputs.abc_frame MoreInputs.abc_frame
              MoreInputs.abc_frame None)
    as (f & vs & Hf & _ & Hvs & Hlen & _ & _ & Hlow & _).
  - vm_compute. reflexivity.
  - reflexivity.
  - apply (bool_decide_unpack _). vm_compute. exact I.
  - vm_compute. reflexivity.
  - exists f, vs. split; [exact Hf|]. split; [exact Hvs|]. split; [exact Hlen|].
    apply (Hlow ("c", [3; 3; 3; 3]%float)).
    + right. right. left.
    + vm_compute. reflexivity.
Defined.
End FittingTheVarianceFilterer.
